(** * The Save Submission action (src/actions/SaveSubmission.js)

    A shallow embedding of [SaveSubmission.resolve] and of the closures it
    builds ([loadResource], [loadSubmission], [updateSubmission],
    [saveToResource], [assignResource]).

    JavaScript objects live in a store of mutable objects addressed by
    location, so that two references to one object are visibly the same
    object.  The request, the response and the per-request cache are records
    threaded through a state monad together with the store and a log of the
    calls made to the collaborators (form cache, resource handlers, isolate).
    The collaborators themselves are not part of the file under study: they
    are variables of the sections below.

    The decisions of the installation wizard (install.js) follow in the
    module [Install]. *)

From Stdlib Require Import ZArith NArith String Ascii List Lia.
From stdpp Require Import base option list gmap strings pretty fin_maps.

Local Open Scope string_scope.
Local Open Scope list_scope.

(** ** JavaScript values and the object store *)

Module JS.

Definition loc := positive.

Inductive value :=
| VUndef
| VNull
| VBool (b : bool)
| VNum (n : Z)
| VStr (s : string)
| VRef (l : loc).

#[global] Instance value_eq_dec : EqDecision value.
Proof. solve_decision. Defined.

(** An object is its own properties; an array additionally carries its
    [length] ([o_len = Some n]) and keeps element [i] under the key
    [pretty i]. *)
Record obj := Obj { o_len : option N; o_props : gmap string value }.

Definition empty_object : obj := Obj None ∅.
Definition empty_array : obj := Obj (Some 0%N) ∅.

Abbreviation heap := (gmap loc obj).

(** [!!v] of JavaScript. *)
Definition truthy (v : value) : bool :=
  match v with
  | VUndef | VNull => false
  | VBool b => b
  | VNum n => negb (n =? 0)%Z
  | VStr s => negb (String.eqb s "")
  | VRef _ => true
  end.

(** [v == null] *)
Definition nullish (v : value) : bool :=
  match v with VUndef | VNull => true | _ => false end.

(** [a === b]; references are compared by identity. *)
Definition strict_eq (a b : value) : bool := bool_decide (a = b).

(** lodash's [isObject]. *)
Definition isObject (v : value) : bool :=
  match v with VRef _ => true | _ => false end.

(** Canonical array indices: the string 0, or a non-zero digit followed by
    digits (the regular expression lodash's [isIndex] tests). *)
Definition digit_of (a : ascii) : option N :=
  let n := N_of_ascii a in
  if ((48 <=? n) && (n <=? 57))%N then Some (n - 48)%N else None.

Fixpoint digits (s : string) (acc : N) : option N :=
  match s with
  | EmptyString => Some acc
  | String a s' =>
      match digit_of a with
      | Some d => digits s' (10 * acc + d)%N
      | None => None
      end
  end.

Definition parse_index (s : string) : option N :=
  match s with
  | EmptyString => None
  | String "0"%char EmptyString => Some 0%N
  | String "0"%char _ => None
  | _ => digits s 0%N
  end.

(** lodash's [isIndex(value)] with the default bound [MAX_SAFE_INTEGER]. *)
Definition isIndex (s : string) : bool :=
  match parse_index s with
  | Some i => (i <? 9007199254740991)%N
  | None => false
  end.

(** The first location no object of the store lives at. *)
Definition fresh_loc (h : heap) : loc :=
  Pos.succ (foldr Pos.max 1%positive (map_to_list h).*1).

Definition alloc (h : heap) (o : obj) : loc * heap :=
  let l := fresh_loc h in (l, <[l := o]> h).

(** Own property lookup in the store, [None] when [l] has no such own
    property. *)
Definition prop_lookup (h : heap) (l : loc) (k : string) : option value :=
  h !! l ≫= λ o, o_props o !! k.

(** The character of [s] at position [i], as a one-character string. *)
Definition char_at (s : string) (i : N) : option string :=
  match String.get (N.to_nat i) s with
  | Some c => Some (String c EmptyString)
  | None => None
  end.

(** [v[k]] for a value that is not [null] or [undefined].  Own properties of
    objects and arrays, the [length] of arrays, the [length] and the
    characters of primitive strings; prototype properties (methods) are not
    values of this model and read as [undefined]. *)
Definition get_prop (h : heap) (v : value) (k : string) : value :=
  match v with
  | VRef l =>
      match h !! l with
      | Some o =>
          match o_props o !! k with
          | Some x => x
          | None =>
              match o_len o with
              | Some n => if String.eqb k "length" then VNum (Z.of_N n) else VUndef
              | None => VUndef
              end
          end
      | None => VUndef
      end
  | VStr s =>
      if String.eqb k "length" then VNum (Z.of_nat (String.length s))
      else match parse_index k with
           | Some i => match char_at s i with Some c => VStr c | None => VUndef end
           | None => VUndef
           end
  | _ => VUndef
  end.

(** [Object.prototype.hasOwnProperty.call(v, k)] for a non-nullish [v]. *)
Definition has_own (h : heap) (v : value) (k : string) : bool :=
  match v with
  | VRef l =>
      match h !! l with
      | Some o =>
          match o_props o !! k with
          | Some _ => true
          | None =>
              match o_len o with
              | Some _ => String.eqb k "length"
              | None => false
              end
          end
      | None => false
      end
  | VStr s =>
      if String.eqb k "length" then true
      else match parse_index k with
           | Some i => (i <? N.of_nat (String.length s))%N
           | None => false
           end
  | _ => false
  end.

(** [o[k] = v] on an object of the store: the property is created or
    overwritten; on an array an index at or beyond [length] extends it. *)
Definition put (o : obj) (k : string) (v : value) : obj :=
  Obj (match o_len o with
       | Some n =>
           match parse_index k with
           | Some i => if ((i <? 4294967295) && (n <=? i))%N then Some (i + 1)%N else Some n
           | None => Some n
           end
       | None => None
       end)
      (<[k := v]> (o_props o)).

Definition assign (h : heap) (l : loc) (k : string) (v : value) : heap :=
  match h !! l with
  | Some o => <[l := put o k v]> h
  | None => h
  end.

(** [Array.prototype.push] with one argument. *)
Definition push (o : obj) (v : value) : obj :=
  match o_len o with
  | Some n => Obj (Some (n + 1)%N) (<[pretty n := v]> (o_props o))
  | None => o
  end.

(** The elements of a collection in the order lodash visits them: indices
    [0 .. length-1] of an array (holes read as [undefined]); for a plain
    object its property values, in the order of the map, which is not
    JavaScript's insertion order. *)
Definition elements (h : heap) (v : value) : list value :=
  match v with
  | VRef l =>
      match h !! l with
      | Some o =>
          match o_len o with
          | Some n =>
              (λ i, default VUndef (o_props o !! pretty (N.of_nat i))) <$> seq 0 (N.to_nat n)
          | None => (map_to_list (o_props o)).*2
          end
      | None => []
      end
  | _ => []
  end.

(** [Array.isArray(v)] *)
Definition is_array (h : heap) (v : value) : bool :=
  match v with
  | VRef l => bool_decide (is_Some (h !! l ≫= o_len))
  | _ => false
  end.

(** [a] and [b] are one and the same object. *)
Definition same_object (a b : value) : bool :=
  match a, b with
  | VRef l1, VRef l2 => bool_decide (l1 = l2)
  | _, _ => false
  end.

(** No two of the values are the same object. *)
Fixpoint apart (vs : list value) : bool :=
  match vs with
  | [] => true
  | v :: vs' => forallb (λ v', negb (same_object v v')) vs' && apart vs'
  end.

(** [v] is not a reference to a location outside the store. *)
Definition live (h : heap) (v : value) : bool :=
  match v with
  | VRef l => bool_decide (is_Some (h !! l))
  | _ => true
  end.

(** Every reference stored in an object of the store points to an object of
    the store. *)
Definition closedb (h : heap) : bool :=
  forallb (λ lo : loc * obj,
    forallb (λ kv : string * value,
      match kv.2 with
      | VRef l' => bool_decide (is_Some (h !! l'))
      | _ => true
      end) (map_to_list (o_props lo.2)))
    (map_to_list h).

(** The same, as a proposition. *)
Definition closed (h : heap) : Prop :=
  ∀ l o k l', h !! l = Some o → o_props o !! k = Some (VRef l') → is_Some (h !! l').

End JS.
Export JS.

(** ** The lodash functions the action calls

    [_.get], [_.has], [_.set] and [_.find] as lodash 4 defines them, over the
    store.  How a key such as [a.b] is cut into segments ([castPath]) is a
    variable: the theorems below hold for any path grammar.  [dotPath] is
    lodash's grammar for keys without brackets. *)

Module Lodash.

Definition forbidden (k : string) : bool :=
  String.eqb k "__proto__" || String.eqb k "constructor" || String.eqb k "prototype".

(** [baseGet]: follow the segments while the current value is not nullish.
    Each segment is read with [get_prop], which knows own properties only;
    lodash reads [object[key]], which also finds what a prototype defines. *)
Fixpoint baseGet_walk (h : heap) (object : value) (path : list string) : value :=
  match path with
  | [] => object
  | k :: rest =>
      if nullish object then VUndef
      else baseGet_walk h (get_prop h object k) rest
  end.

Definition baseGet (h : heap) (object : value) (path : list string) : value :=
  match path with
  | [] => VUndef
  | _ => baseGet_walk h object path
  end.

(** [hasPath(object, path, baseHas)]: every segment is an own property of
    the value reached so far; a last segment that is not may still be a hole
    inside the bounds of an array. *)
Definition in_array_bounds (h : heap) (object : value) (k : string) : bool :=
  match object with
  | VRef l =>
      match h !! l ≫= o_len, parse_index k with
      | Some n, Some i => (i <? n)%N
      | _, _ => false
      end
  | _ => false
  end.

Fixpoint hasPath_walk (h : heap) (object : value) (path : list string) : bool :=
  match path with
  | [] => true
  | k :: rest =>
      if negb (nullish object) && has_own h object k
      then hasPath_walk h (get_prop h object k) rest
      else match rest with
           | [] => in_array_bounds h object k
           | _ => false
           end
  end.

Definition hasPath (h : heap) (object : value) (path : list string) : bool :=
  match path with
  | [] => false
  | _ => hasPath_walk h object path
  end.

(** [baseSet]: walk the segments from [nested]; an intermediate segment
    keeps the object found there and replaces anything else by a new array
    (when the next segment is an index) or a new object; the last segment
    receives [v].  A segment named [__proto__], [constructor] or [prototype]
    stops the walk where it stands.  What is found at an intermediate
    segment is read with [get_prop], an own property; lodash reads
    [nested[key]], and the two agree on the walks of [own_walk] below. *)
Fixpoint baseSet_walk (h : heap) (nested : loc) (path : list string) (v : value) : heap :=
  match path with
  | [] => h
  | k :: rest =>
      if forbidden k then h
      else match rest with
           | [] => assign h nested k v
           | k' :: _ =>
               match get_prop h (VRef nested) k with
               | VRef l' => baseSet_walk (assign h nested k (VRef l')) l' rest v
               | _ =>
                   let (l', h1) := alloc h (if isIndex k' then empty_array else empty_object) in
                   baseSet_walk (assign h1 nested k (VRef l')) l' rest v
               end
           end
  end.

(** The writes of that walk in the store it starts from: the object and the
    property of each step, up to the first object that has to be created. *)
Fixpoint steps (h : heap) (nested : loc) (path : list string) : list (loc * string) :=
  match path with
  | [] => []
  | k :: rest =>
      (nested, k) ::
      match rest with
      | [] => []
      | _ =>
          match get_prop h (VRef nested) k with
          | VRef l' => steps h l' rest
          | _ => []
          end
      end
  end.

(** The names every object finds on [Object.prototype], and those an array
    finds on [Array.prototype] besides (ECMAScript 2023). *)
Definition object_prototype : list string :=
  [ "constructor"; "__defineGetter__"; "__defineSetter__"; "hasOwnProperty";
    "__lookupGetter__"; "__lookupSetter__"; "isPrototypeOf"; "propertyIsEnumerable";
    "toString"; "valueOf"; "__proto__"; "toLocaleString" ].

Definition array_prototype : list string :=
  [ "at"; "concat"; "copyWithin"; "fill"; "find"; "findIndex"; "findLast";
    "findLastIndex"; "lastIndexOf"; "pop"; "push"; "reverse"; "shift"; "unshift";
    "slice"; "sort"; "splice"; "includes"; "indexOf"; "join"; "keys"; "entries";
    "values"; "forEach"; "filter"; "flat"; "flatMap"; "map"; "every"; "some";
    "reduce"; "reduceRight"; "toReversed"; "toSorted"; "toSpliced"; "with" ].

(** [nested[k]] is not an own property and a prototype defines [k];
    [nested = None] is an object the walk has just created. *)
Definition inherited (h : heap) (nested : option loc) (k : string) : bool :=
  match nested with
  | Some l =>
      match h !! l with
      | Some o =>
          match o_props o !! k with
          | Some _ => false
          | None =>
              existsb (String.eqb k) object_prototype
              || (bool_decide (is_Some (o_len o)) && existsb (String.eqb k) array_prototype)
          end
      | None => false
      end
  | None => existsb (String.eqb k) object_prototype
  end.

(** [k] is the [length] of an array, which is not a property like the
    others: writing it resizes the array or throws. *)
Definition array_length (h : heap) (nested : option loc) (k : string) : bool :=
  String.eqb k "length"
  && match nested with
     | Some l => is_array h (VRef l)
     | None => false
     end.

(** The walk of [baseSet] from [nested] stays with own properties: no
    intermediate segment names a property the object it is read from
    inherits, and no segment is the [length] of an array.  On such a walk
    [nested[key]] is the own property or [undefined], as [get_prop] has
    it. *)
Fixpoint own_walk (h : heap) (nested : option loc) (path : list string) : bool :=
  match path with
  | [] => true
  | k :: rest =>
      negb (array_length h nested k)
      && match rest with
         | [] => true
         | _ =>
             negb (inherited h nested k)
             && own_walk h
                  (match nested with
                   | Some l =>
                       match get_prop h (VRef l) k with
                       | VRef l' => Some l'
                       | _ => None
                       end
                   | None => None
                   end) rest
         end
  end.

(** The source of [_.find(collection, {type: 'resource', resource: r})]:
    both properties strictly equal. *)
Definition matches_external (h : heap) (r : value) (el : value) : bool :=
  negb (nullish el)
  && strict_eq (get_prop h el "type") (VStr "resource")
  && strict_eq (get_prop h el "resource") r.

Definition find_external (h : heap) (collection : value) (r : value) : value :=
  match List.find (matches_external h r) (elements h collection) with
  | Some el => el
  | None => VUndef
  end.

Section WithPath.
Variable castPath : heap -> string -> value -> list string.

(** [_.get(object, key)] *)
Definition get (h : heap) (object : value) (key : string) : value :=
  if nullish object then VUndef else baseGet h object (castPath h key object).

(** [_.has(object, key)] *)
Definition has (h : heap) (object : value) (key : string) : bool :=
  negb (nullish object) && hasPath h object (castPath h key object).

(** [_.set(object, key, v)], for its effect on the store. *)
Definition set (h : heap) (object : value) (key : string) (v : value) : heap :=
  match object with
  | VRef l => baseSet_walk h l (castPath h key object) v
  | _ => h
  end.
End WithPath.

(** Cut a string at every dot. *)
Fixpoint split_dots (s : string) (cur : string) : list string :=
  match s with
  | EmptyString => [cur]
  | String c s' =>
      if Ascii.eqb c "."%char then cur :: split_dots s' ""
      else split_dots s' (cur +:+ String c EmptyString)
  end.

(** lodash's [castPath] on keys without brackets: a key that is a property of
    the object is one segment, any other key is cut at its dots. *)
Definition dotPath (h : heap) (key : string) (object : value) : list string :=
  if has_own h object key then [key] else split_dots key "".

End Lodash.

(** ** Requests, responses, settings and the state of one run *)

Module Action.
Import Lodash.

(** Modelled from the spec: the stable identifiers of
    [router.formio.util.errorCodes] (section 6, error codes surfaced to
    callers); the table itself is not among the sources. *)
Inductive ecode := EREQRECUR | ENOIDP | ENOHANDLER | EFORMLOAD | ESUBLOAD.

(** What a callback or a [catch] can receive. *)
Inductive error :=
| Code (c : ecode)              (* one of the action's own codes *)
| TypeError (what : string)     (* raised by the JavaScript runtime *)
| Failure (why : string).       (* raised or passed on by a collaborator *)

#[global] Instance ecode_eq_dec : EqDecision ecode.
Proof. solve_decision. Defined.
#[global] Instance error_eq_dec : EqDecision error.
Proof. solve_decision. Defined.

Record Params := mkParams { p_formId : value; p_submissionId : value }.

(** The fields of the Express request the action reads or writes.
    [childRequests] is the clone depth tracked on the request. *)
Record Req := mkReq {
  method : string;
  url : string;
  body : value;
  skipSave : bool;
  skipResource : option bool;
  isTransformedData : option bool;
  permissionsChecked : option bool;
  noResponse : option bool;
  formId : value;
  subId : value;
  params : Params;
  childRequests : nat
}.

(** [res.resource], which a resource handler sets to [{status, item}]. *)
Record Res := mkRes { res_resource : value }.

(** [this.settings] *)
Record Settings := mkSettings {
  resource : option string;
  property : option string;
  fields : list (string * string);     (* in the order [_.each] visits them *)
  transform : option string
}.

(** [const cache = {}] *)
Record Cache := mkCache { c_resource : value; c_submission : value }.

(** Data as it crosses the boundary of the isolate: a copy, without
    identity. *)
#[warnings="-register-all"]
Inductive tree :=
| TUndef
| TNull
| TBool (b : bool)
| TNum (n : Z)
| TStr (s : string)
| TObj (ps : list (string * tree))
| TArr (es : list tree).

Inductive outcome (A : Type) :=
| Ok (a : A)
| Thrown (e : error).
Arguments Ok {A} a.
Arguments Thrown {A} e.

(** The calls that leave the action, most recent first. *)
Inductive event :=
| EvLoadForm (kind : string) (id : value)
| EvLoadSubmission (form id : value)
| EvEvaluate (script : string) (submission data : value)
| EvDispatch (url method : string) (childReq : Req)
| EvLog (code : option ecode) (e : error)
| EvDebug (e : error).

Record World := mkWorld {
  w_heap : heap;
  w_req : Req;
  w_res : Res;
  w_cache : Cache;
  w_log : list event
}.

Definition with_heap (h : heap) (w : World) : World :=
  mkWorld h (w_req w) (w_res w) (w_cache w) (w_log w).
Definition with_req (r : Req) (w : World) : World :=
  mkWorld (w_heap w) r (w_res w) (w_cache w) (w_log w).
Definition with_res (r : Res) (w : World) : World :=
  mkWorld (w_heap w) (w_req w) r (w_cache w) (w_log w).
Definition with_cache (c : Cache) (w : World) : World :=
  mkWorld (w_heap w) (w_req w) (w_res w) c (w_log w).
Definition logged (ev : event) (w : World) : World :=
  mkWorld (w_heap w) (w_req w) (w_res w) (w_cache w) (ev :: w_log w).

Definition set_skipResource (b : bool) (r : Req) : Req :=
  mkReq (method r) (url r) (body r) (skipSave r) (Some b) (isTransformedData r)
        (permissionsChecked r) (noResponse r) (formId r) (subId r) (params r)
        (childRequests r).
Definition set_isTransformedData (b : bool) (r : Req) : Req :=
  mkReq (method r) (url r) (body r) (skipSave r) (skipResource r) (Some b)
        (permissionsChecked r) (noResponse r) (formId r) (subId r) (params r)
        (childRequests r).

(** ** The monad of the action: state and exceptions *)

Definition M (A : Type) : Type := World -> outcome A * World.

Definition ret {A} (a : A) : M A := λ w, (Ok a, w).
Definition throw {A} (e : error) : M A := λ w, (Thrown e, w).
Definition bind {A B} (m : M A) (f : A -> M B) : M B :=
  λ w, match m w with
       | (Ok a, w') => f a w'
       | (Thrown e, w') => (Thrown e, w')
       end.
(** [try { m } catch (err) { handler(err) }] *)
Definition try_catch {A} (m : M A) (handler : error -> M A) : M A :=
  λ w, match m w with
       | (Ok a, w') => (Ok a, w')
       | (Thrown e, w') => handler e w'
       end.

Declare Scope action_scope.
Delimit Scope action_scope with action.
Notation "x <- m ;; k" := (bind m (λ x, k))
  (at level 100, m at next level, right associativity) : action_scope.
Notation "m ;;; k" := (bind m (λ _, k))
  (at level 100, right associativity) : action_scope.
Local Open Scope action_scope.

Definition getHeap : M heap := λ w, (Ok (w_heap w), w).
Definition getReq : M Req := λ w, (Ok (w_req w), w).
Definition getRes : M Res := λ w, (Ok (w_res w), w).
Definition getCache : M Cache := λ w, (Ok (w_cache w), w).
Definition putHeap (h : heap) : M unit := λ w, (Ok tt, with_heap h w).
Definition putReq (r : Req) : M unit := λ w, (Ok tt, with_req r w).
Definition putRes (r : Res) : M unit := λ w, (Ok tt, with_res r w).
Definition putCache (c : Cache) : M unit := λ w, (Ok tt, with_cache c w).
Definition emit (ev : event) : M unit := λ w, (Ok tt, logged ev w).

(** Allocate a new object. *)
Definition new (o : obj) : M value :=
  λ w, let (l, h) := alloc (w_heap w) o in (Ok (VRef l), with_heap h w).

(** [target.k], which throws on [null] and [undefined]. *)
Definition read_prop (target : value) (k : string) : M value :=
  if nullish target then throw (TypeError ("Cannot read properties of null or undefined: " +:+ k))
  else h <- getHeap ;; ret (get_prop h target k).

(** [target.k = v] in strict mode: throws unless [target] is an object. *)
Definition write_prop (target : value) (k : string) (v : value) : M unit :=
  match target with
  | VRef l => h <- getHeap ;; putHeap (assign h l k v)
  | _ => throw (TypeError ("Cannot set property " +:+ k))
  end.

(** JavaScript truthiness of an optional string setting. *)
Definition configured (o : option string) : bool :=
  match o with
  | Some s => negb (String.eqb s "")
  | None => false
  end.

Definition setting (o : option string) : string := default "" o.

(** The setting as the JavaScript value it is. *)
Definition setting_value (o : option string) : value :=
  match o with
  | Some s => VStr s
  | None => VUndef
  end.

(** Copy a result of the isolate into the store. *)
Fixpoint materialize (t : tree) (h : heap) : value * heap :=
  match t with
  | TUndef => (VUndef, h)
  | TNull => (VNull, h)
  | TBool b => (VBool b, h)
  | TNum n => (VNum n, h)
  | TStr s => (VStr s, h)
  | TObj ps =>
      let (l, h0) := alloc h empty_object in
      (VRef l,
       (fix fill (ps : list (string * tree)) (h : heap) : heap :=
          match ps with
          | [] => h
          | (k, t') :: ps' =>
              let (v, h1) := materialize t' h in fill ps' (assign h1 l k v)
          end) ps h0)
  | TArr es =>
      let (l, h0) := alloc h empty_array in
      (VRef l,
       (fix fill (es : list tree) (h : heap) : heap :=
          match es with
          | [] => h
          | t' :: es' =>
              let (v, h1) := materialize t' h in
              fill es' (match h1 !! l with
                        | Some o => <[l := push o v]> h1
                        | None => h1
                        end)
          end) es h0)
  end.

Fixpoint map_chars (f : ascii -> ascii) (s : string) : string :=
  match s with
  | EmptyString => EmptyString
  | String c s' => String (f c) (map_chars f s')
  end.
Definition toLowerCase (s : string) : string :=
  map_chars (λ c, let n := nat_of_ascii c in
                  if (65 <=? n)%nat && (n <=? 90)%nat then ascii_of_nat (n + 32) else c) s.
Definition toUpperCase (s : string) : string :=
  map_chars (λ c, let n := nat_of_ascii c in
                  if (97 <=? n)%nat && (n <=? 122)%nat then ascii_of_nat (n - 32) else c) s.

Definition nl : string := String (ascii_of_nat 10) EmptyString.

(** The text handed to the isolate for a transform [t]. *)
Definition script_text (t : string) : string :=
  "data=submission.data;" +:+ nl +:+ t +:+ nl +:+ "data;".

(** ** The action

    The collaborators of [resolve]: lodash's path grammar, the request
    cloner of [util/util.js], the form cache, the registry of resource
    handlers, the isolate, and the [toString] method of an identifier that
    is an object (an ObjectId).  A cache load resolves or rejects and may
    allocate what it returns; a handler receives the child request and the
    response, may change the store and the response, and calls [done] with
    or without an error; the isolate sees the store but returns a copy. *)

Definition loader : Type := heap -> outcome value * heap.
Definition handler : Type := Req -> Res -> heap -> outcome (option error) * (heap * Res).

Section Resolve.
Variable castPath : heap -> string -> value -> list string.
Variable createSubRequest : Req -> option Req.
Variable cache_loadForm : Req -> string -> value -> loader.
Variable cache_loadSubmission : Req -> value -> value -> loader.
Variable resourcejs : string -> string -> option handler.
Variable evaluate : string -> heap -> value -> value -> outcome tree.
Variable refToString : heap -> loc -> string.

Section Stages.
Variable settings : Settings.

(** [await load], inside the caller's [try]. *)
Definition await (ld : loader) : M value :=
  λ w, let (r, h) := ld (w_heap w) in (r, with_heap h w).

(** [v.toString()], which throws on [null] and [undefined].  A number is
    printed in full, as JavaScript prints the integers below 10^21. *)
Definition stringify (h : heap) (v : value) : string :=
  match v with
  | VUndef | VNull => ""
  | VBool b => if b then "true" else "false"
  | VNum n => pretty n
  | VStr s => s
  | VRef l => refToString h l
  end.

Definition toString (v : value) : M string :=
  if nullish v then throw (TypeError "Cannot read properties of null or undefined: toString")
  else h <- getHeap ;; ret (stringify h v).

(** [res.resource && res.resource.item] *)
Definition saved_item (h : heap) (res : Res) : value :=
  if truthy (res_resource res) then get_prop h (res_resource res) "item"
  else res_resource res.

(** Lines 99-102: the clone becomes a request for the target resource.
    The clone is a request of its own, and so are its parameters here:
    were [childReq.params] the object the primary request holds, lines 102
    and 108 would write the primary's parameters as well, which a [Req]
    cannot show. *)
Definition as_child (childReq : Req) (body : value) (fid : string) : Req :=
  mkReq (method childReq) (url childReq) body (skipSave childReq)
        (skipResource childReq) (isTransformedData childReq)
        (Some true) (Some true) (VStr fid) (subId childReq)
        (mkParams (VStr fid) (p_submissionId (params childReq)))
        (childRequests childReq).

(** Line 108: [childReq.subId = childReq.params.submissionId = body._id] *)
Definition with_submission (childReq : Req) (bid : value) : Req :=
  mkReq (method childReq) (url childReq) (body childReq) (skipSave childReq)
        (skipResource childReq) (isTransformedData childReq)
        (permissionsChecked childReq) (noResponse childReq) (formId childReq)
        bid (mkParams (p_formId (params childReq)) bid)
        (childRequests childReq).

(** Lines 122-123: [childReq.url = url; childReq.method = method.toUpperCase()] *)
Definition routed (childReq : Req) (url' method' : string) : Req :=
  mkReq (toUpperCase method') url' (body childReq) (skipSave childReq)
        (skipResource childReq) (isTransformedData childReq)
        (permissionsChecked childReq) (noResponse childReq)
        (formId childReq) (subId childReq) (params childReq)
        (childRequests childReq).

(** The child request as lines 99-123 leave the clone [clone], field by
    field: the two marks, the body, the identifier [fid] of the target form
    in [formId] and [params.formId], the identifier [sid] of the child in
    [subId] and [params.submissionId] when line 108 runs, the url and the
    method in upper case; the other fields are the clone's. *)
Definition child_request (clone : Req) (submission : value) (fid : string)
    (sid : option value) (url' method' : string) : Req :=
  mkReq (toUpperCase method') url' submission (skipSave clone)
        (skipResource clone) (isTransformedData clone)
        (Some true) (Some true) (VStr fid)
        (default (subId clone) sid)
        (mkParams (VStr fid) (default (p_submissionId (params clone)) sid))
        (childRequests clone).

(** [handle.call(this, childReq, res, done)] *)
Definition call_handler (handle : handler) (childReq : Req) : M (option error) :=
  λ w, let '(r, (h, res')) := handle childReq (w_res w) (w_heap w) in
       (r, with_res res' (with_heap h w)).

(** Lines 122-138: route the child request to the handler registered
    under [url'] and [method'], or fail with [ENOHANDLER]. *)
Definition dispatch (childReq : Req) (url' method' : string) : M (option error) :=
  match resourcejs url' method' with
  | Some handle =>
      emit (EvDispatch url' method' (routed childReq url' method')) ;;;
      call_handler handle (routed childReq url' method')
  | None =>
      emit (EvLog (Some ENOHANDLER) (Code ENOHANDLER)) ;;;
      ret (Some (Code ENOHANDLER))
  end.

(** Lines 79-139: [saveToResource(resource, body, done)]; the result is
    what [done] receives. *)
Definition saveToResource (resource body : value) : M (option error) :=
  if negb (truthy body) then ret None
  else
    req <- getReq ;;
    match createSubRequest req with
    | None =>
        emit (EvLog (Some EREQRECUR) (Code EREQRECUR)) ;;;
        ret (Some (Code EREQRECUR))
    | Some childReq =>
        rid <- read_prop resource "_id" ;;
        fid <- toString rid ;;
        let url' := "/form/:formId/submission" in
        let method' := toLowerCase (method req) in
        if String.eqb method' "put" then
          bid <- read_prop body "_id" ;;
          if truthy bid then
            dispatch (with_submission (as_child childReq body fid) bid)
                     (url' +:+ "/:submissionId") method'
          else
            emit (EvLog (Some ENOIDP) (Code ENOIDP)) ;;;
            ret (Some (Code ENOIDP))
        else dispatch (as_child childReq body fid) url' method'
    end.

(** Lines 145-155: [loadResource(cache, then)]. *)
Definition loadResource : M (option error) :=
  req <- getReq ;;
  try_catch
    (emit (EvLoadForm "resource" (setting_value (resource settings))) ;;;
     r <- await (cache_loadForm req "resource" (setting_value (resource settings))) ;;
     c <- getCache ;;
     putCache (mkCache r (c_submission c)) ;;;
     ret None)
    (λ err, emit (EvLog (Some EFORMLOAD) err) ;;; ret (Some err)).

(** [target.push(v)]; anything but an array has no [push]. *)
Definition array_push (target : value) (v : value) : M unit :=
  match target with
  | VRef l =>
      h <- getHeap ;;
      match h !! l with
      | Some o =>
          match o_len o with
          | Some _ => putHeap (<[l := push o v]> h)
          | None => throw (TypeError "push is not a function")
          end
      | None => throw (TypeError "push is not a function")
      end
  | _ => throw (TypeError "push is not a function")
  end.

(** [{type: 'resource', resource: this.settings.resource, id: id}] *)
Definition external_record (id : string) : obj :=
  Obj None (<["type" := VStr "resource"]>
            (<["resource" := setting_value (resource settings)]>
             (<["id" := VStr id]> ∅))).

(** Lines 167-169: [req.body.data[this.settings.property] = resource]. *)
Definition assign_property (resource' : value) : M unit :=
  if configured (property settings) then
    req <- getReq ;;
    d <- read_prop (body req) "data" ;;
    write_prop d (setting (property settings)) resource'
  else ret tt.

(** Lines 172-180: the reference in the external ids. *)
Definition link_external : M unit :=
  req <- getReq ;;
  res <- getRes ;;
  h <- getHeap ;;
  if String.eqb (method req) "POST" && truthy (saved_item h res) then
    ext <- read_prop (body req) "externalIds" ;;
    arr <- (if truthy ext then ret ext else new empty_array) ;;
    write_prop (body req) "externalIds" arr ;;;
    target <- read_prop (body req) "externalIds" ;;
    h <- getHeap ;;
    iid <- read_prop (saved_item h res) "_id" ;;
    id <- toString iid ;;
    r <- new (external_record id) ;;
    array_push target r
  else ret tt.

(** Lines 162-183: [assignResource(then)]. *)
Definition assignResource : M (option error) :=
  res <- getRes ;;
  c <- getCache ;;
  h <- getHeap ;;
  assign_property (if truthy (saved_item h res) then saved_item h res
                   else c_submission c) ;;;
  link_external ;;;
  ret None.

(** The callback of [_.each(this.settings.fields, ...)], lines 197-204. *)
Definition merge_field (submission : value) (key field : string) : M unit :=
  req <- getReq ;;
  if String.eqb field "data" then
    d <- read_prop submission "data" ;;
    bd <- read_prop (body req) "data" ;;
    h <- getHeap ;;
    putHeap (set castPath h d key bd)
  else
    bd <- read_prop (body req) "data" ;;
    h <- getHeap ;;
    if has castPath h bd field then
      d <- read_prop submission "data" ;;
      putHeap (set castPath h d key (get castPath h bd field))
    else ret tt.

Fixpoint each_field (submission : value) (fs : list (string * string)) : M unit :=
  match fs with
  | [] => ret tt
  | (key, field) :: fs' =>
      merge_field submission key field ;;; each_field submission fs'
  end.

(** Lines 206-221: the transform, when one is configured. *)
Definition transform_data (submission : value) : M unit :=
  if configured (transform settings) then
    res <- getRes ;;
    req <- getReq ;;
    h <- getHeap ;;
    let subject := if truthy (saved_item h res) then saved_item h res
                   else body req in
    try_catch
      (d <- read_prop submission "data" ;;
       emit (EvEvaluate (script_text (setting (transform settings))) subject d) ;;;
       match evaluate (script_text (setting (transform settings))) h subject d with
       | Ok t =>
           h <- getHeap ;;
           let (newData, h') := materialize t h in
           putHeap h' ;;;
           write_prop submission "data" newData ;;;
           req <- getReq ;;
           putReq (set_isTransformedData true req)
       | Thrown err => throw err
       end)
      (λ err, emit (EvDebug err))
  else ret tt.

(** Lines 192-224: [updateSubmission(submission)]. *)
Definition updateSubmission (submission : value) : M value :=
  submission <- (if truthy submission then ret submission else new empty_object) ;;
  d <- read_prop submission "data" ;;
  d' <- (if truthy d then ret d else new empty_object) ;;
  write_prop submission "data" d' ;;;
  each_field submission (fields settings) ;;;
  transform_data submission ;;;
  ret submission.

Definition put_submission (s : value) : M unit :=
  c <- getCache ;; putCache (mkCache (c_resource c) s).

(** [{data: {}, roles: []}] *)
Definition new_submission : M value :=
  d <- new empty_object ;;
  roles <- new empty_array ;;
  new (Obj None (<["data" := d]> (<["roles" := roles]> ∅))).

(** The [try] block of [loadSubmission], lines 247-262: find the child
    linked to the stored primary submission and bring it up to date. *)
Definition load_linked (bform bid : value) : M (option error) :=
  req <- getReq ;;
  emit (EvLoadSubmission bform bid) ;;;
  currentSubmission <- await (cache_loadSubmission req bform bid) ;;
  ids <- read_prop currentSubmission "externalIds" ;;
  h <- getHeap ;;
  let external := find_external h ids (setting_value (resource settings)) in
  if negb (truthy external) then ret None
  else
    eid <- read_prop external "id" ;;
    emit (EvLoadSubmission (setting_value (resource settings)) eid) ;;;
    submission <- await (cache_loadSubmission req (setting_value (resource settings)) eid) ;;
    if negb (truthy submission) then ret None
    else
      s <- updateSubmission submission ;;
      put_submission s ;;;
      ret None.

(** Lines 232-268: [loadSubmission(cache, then)].  The result is what
    [then] receives.  On a PUT the source calls [then()] at line 262, inside
    the [try]: an exception raised further on, by the second series, would
    be caught at line 264 as well.  Here the second series runs after the
    stage has returned, so the two agree on the runs whose second series
    raises no exception, and on every run that is not a PUT. *)
Definition loadSubmission : M (option error) :=
  submission <- new_submission ;;
  req <- getReq ;;
  if negb (String.eqb (method req) "PUT") then
    s <- updateSubmission submission ;;
    put_submission s ;;;
    ret None
  else
    bid <- read_prop (body req) "_id" ;;
    bform <- read_prop (body req) "form" ;;
    if negb (truthy bid) || negb (truthy bform) then ret None
    else
      try_catch (load_linked bform bid)
                (λ err, emit (EvLog (Some ESUBLOAD) err) ;;; ret (Some err)).

(** The three ways an update finds nothing to update (lines 241-260):
    the body lacks an [_id] or a [form], so in particular when it has
    neither; the stored primary submission
    has no record for [settings.resource]; the linked child is missing. *)
Definition nothing_to_update (w : World) : Prop :=
  let b := body (w_req w) in
  let bid := get_prop (w_heap w) b "_id" in
  let bform := get_prop (w_heap w) b "form" in
  let r := setting_value (resource settings) in
  (truthy bid = false ∨ truthy bform = false)
  ∨ (truthy bid = true ∧ truthy bform = true ∧
     ∃ cur h1,
       cache_loadSubmission (w_req w) bform bid (w_heap (new_submission w).2) = (Ok cur, h1)
       ∧ nullish cur = false
       ∧ (forallb (λ el, negb (strict_eq (get_prop h1 el "resource") r))
                  (elements h1 (get_prop h1 cur "externalIds")) = true
          ∨ (truthy (find_external h1 (get_prop h1 cur "externalIds") r) = true
             ∧ ∃ sub h2,
                 cache_loadSubmission (w_req w) r
                   (get_prop h1 (find_external h1 (get_prop h1 cur "externalIds") r) "id") h1
                 = (Ok sub, h2)
                 ∧ truthy sub = false))).

(** The two ways a load inside the [try] of [loadSubmission] is rejected
    with [err] (lines 247 and 257): the load of the stored primary
    submission, or the load of the child it is linked to. *)
Definition load_rejected (w : World) (err : error) : Prop :=
  let b := body (w_req w) in
  let bid := get_prop (w_heap w) b "_id" in
  let bform := get_prop (w_heap w) b "form" in
  let r := setting_value (resource settings) in
  let h0 := w_heap (new_submission w).2 in
  (∃ h1, cache_loadSubmission (w_req w) bform bid h0 = (Thrown err, h1))
  ∨ (∃ cur h1,
       cache_loadSubmission (w_req w) bform bid h0 = (Ok cur, h1)
       ∧ nullish cur = false
       ∧ truthy (find_external h1 (get_prop h1 cur "externalIds") r) = true
       ∧ ∃ h2,
           cache_loadSubmission (w_req w) r
             (get_prop h1 (find_external h1 (get_prop h1 cur "externalIds") r) "id") h1
           = (Thrown err, h2)).

(** [async.series([saveToResource(cache.resource, cache.submission),
    assignResource], next)], lines 285-288. *)
Definition save_and_assign : M (option error) :=
  c <- getCache ;;
  e <- saveToResource (c_resource c) (c_submission c) ;;
  match e with
  | Some err => ret (Some err)
  | None => assignResource
  end.

(** [async.series([loadResource, loadSubmission], callback)], line 272. *)
Definition load_stages : M (option error) :=
  e <- loadResource ;;
  match e with
  | Some err => ret (Some err)
  | None => loadSubmission
  end.

(** The callback of the first series, lines 275-289. *)
Definition after_loads (e : option error) : M (option error) :=
  match e with
  | Some err => emit (EvLog None err) ;;; ret (Some err)
  | None =>
      c <- getCache ;;
      if negb (truthy (c_submission c)) then ret None
      else save_and_assign
  end.

Definition load_then_save : M (option error) :=
  e <- load_stages ;; after_loads e.
End Stages.

Definition applicable (m : string) : bool :=
  String.eqb m "POST" || String.eqb m "PUT" || String.eqb m "PATCH".

(** [req.skipSave || !req.body || (req.method !== 'POST' && ...)], line 63. *)
Definition skipped (r : Req) : bool :=
  skipSave r || negb (truthy (body r)) || negb (applicable (method r)).

(** Lines 61-290: [resolve(handler, method, req, res, next)].  The result
    is what [next] receives; [this.settings] may be missing. *)
Definition resolve (this_settings : option Settings) : M (option error) :=
  req <- getReq ;;
  if skipped req then ret None
  else
    putReq (set_skipResource false req) ;;;
    match this_settings with
    | None => ret None
    | Some settings =>
        if negb (configured (resource settings)) then ret None
        else
          putCache (mkCache VUndef VUndef) ;;;
          req <- getReq ;;
          putReq (set_skipResource true req) ;;;
          load_then_save settings
    end.
End Resolve.


(** ** Collaborators to run the action with *)

(** Modelled from the spec: [util.createSubRequest] of util/util.js, which is
    not among the sources.  Section 4.4: cloning fails when the clone depth
    tracked on the parent request exceeds a bound; otherwise the clone is the
    parent one level deeper. *)
Definition createSubRequest_bounded (bound : nat) (req : Req) : option Req :=
  if (bound <? childRequests req)%nat then None
  else Some (mkReq (method req) (url req) (body req) (skipSave req)
                   (skipResource req) (isTransformedData req)
                   (permissionsChecked req) (noResponse req) (formId req)
                   (subId req) (params req) (S (childRequests req))).

(** An isolate for a fragment of JavaScript: statements [x = a.b.c;] and
    [a.b.c;], each closed by a semicolon, over the two globals [submission]
    and [data]; the result is the value of the last statement, copied out.
    A text outside the fragment is answered by [Failure]; nothing is claimed
    about such texts. *)
Inductive token := TkIdent (s : string) | TkDot | TkEq | TkSemi.

Inductive stmt :=
| SEmpty
| SAssign (x : string) (path : list string)
| SExpr (path : list string).

Definition is_space (c : ascii) : bool :=
  let n := nat_of_ascii c in
  (n =? 32)%nat || (n =? 9)%nat || (n =? 10)%nat || (n =? 13)%nat.

Definition ident_char (c : ascii) : bool :=
  let n := nat_of_ascii c in
  ((65 <=? n) && (n <=? 90))%nat || ((97 <=? n) && (n <=? 122))%nat
  || ((48 <=? n) && (n <=? 57))%nat || (n =? 95)%nat || (n =? 36)%nat.

Definition flush (cur : string) (ts : list token) : list token :=
  if String.eqb cur "" then ts else TkIdent cur :: ts.

Fixpoint tokenize (s : string) (cur : string) : option (list token) :=
  match s with
  | EmptyString => Some (flush cur [])
  | String c s' =>
      if is_space c then flush cur <$> tokenize s' ""
      else if Ascii.eqb c "."%char then (λ ts, flush cur (TkDot :: ts)) <$> tokenize s' ""
      else if Ascii.eqb c "="%char then (λ ts, flush cur (TkEq :: ts)) <$> tokenize s' ""
      else if Ascii.eqb c ";"%char then (λ ts, flush cur (TkSemi :: ts)) <$> tokenize s' ""
      else if ident_char c then tokenize s' (cur +:+ String c EmptyString)
      else None
  end.

(** A script of white space only. *)
Fixpoint blank (t : string) : bool :=
  match t with
  | EmptyString => true
  | String c t' => is_space c && blank t'
  end.

(** The statements of a token list; the last one must be closed too. *)
Fixpoint split_semi (ts : list token) (cur : list token) : option (list (list token)) :=
  match ts with
  | [] => match cur with [] => Some [] | _ => None end
  | TkSemi :: ts' => (rev cur ::.) <$> split_semi ts' []
  | t :: ts' => split_semi ts' (t :: cur)
  end.

Fixpoint parse_path (ts : list token) : option (list string) :=
  match ts with
  | [TkIdent x] => Some [x]
  | TkIdent x :: TkDot :: ts' => (x ::.) <$> parse_path ts'
  | _ => None
  end.

Definition parse_stmt (ts : list token) : option stmt :=
  match ts with
  | [] => Some SEmpty
  | TkIdent x :: TkEq :: rhs => SAssign x <$> parse_path rhs
  | _ => SExpr <$> parse_path ts
  end.

Definition parse (script : string) : option (list stmt) :=
  ts ← tokenize script "";
  chunks ← split_semi ts [];
  mapM parse_stmt chunks.

Definition lookup_var (env : list (string * value)) (x : string) : option value :=
  snd <$> List.find (λ p : string * value, String.eqb p.1 x) env.

Fixpoint eval_members (h : heap) (v : value) (ps : list string) : outcome value :=
  match ps with
  | [] => Ok v
  | p :: ps' =>
      if nullish v then Thrown (TypeError ("Cannot read properties of null or undefined: " +:+ p))
      else eval_members h (get_prop h v p) ps'
  end.

Definition eval_path (h : heap) (env : list (string * value)) (path : list string) : outcome value :=
  match path with
  | [] => Thrown (Failure "empty expression")
  | x :: ps =>
      match lookup_var env x with
      | Some v => eval_members h v ps
      | None => Thrown (Failure (x +:+ " is not defined"))
      end
  end.

Fixpoint run (h : heap) (env : list (string * value)) (last : value) (ss : list stmt) : outcome value :=
  match ss with
  | [] => Ok last
  | SEmpty :: ss' => run h env last ss'
  | SAssign x path :: ss' =>
      match eval_path h env path with
      | Ok v => run h ((x, v) :: env) v ss'
      | Thrown e => Thrown e
      end
  | SExpr path :: ss' =>
      match eval_path h env path with
      | Ok v => run h env v ss'
      | Thrown e => Thrown e
      end
  end.

(** Copy a value out of the store, down to [fuel] levels. *)
Fixpoint snapshot (fuel : nat) (h : heap) (v : value) : option tree :=
  match fuel with
  | O => None
  | S fuel' =>
      match v with
      | VUndef => Some TUndef
      | VNull => Some TNull
      | VBool b => Some (TBool b)
      | VNum n => Some (TNum n)
      | VStr s => Some (TStr s)
      | VRef l =>
          match h !! l with
          | Some o =>
              match o_len o with
              | Some _ => TArr <$> mapM (snapshot fuel' h) (elements h v)
              | None =>
                  TObj <$> mapM (λ kv : string * value, (kv.1,.) <$> snapshot fuel' h kv.2)
                                (map_to_list (o_props o))
              end
          | None => Some TUndef
          end
      end
  end.

Definition fragment_evaluate (script : string) (h : heap) (subject d : value) : outcome tree :=
  match parse script with
  | None => Thrown (Failure "outside the fragment")
  | Some ss =>
      match run h [("submission", subject); ("data", d)] VUndef ss with
      | Ok v =>
          match snapshot (S (size h)) h v with
          | Some t => Ok t
          | None => Thrown (Failure "could not be cloned")
          end
      | Thrown e => Thrown e
      end
  end.

(** A form cache that knows every form: the form loaded has the identifier
    asked for. *)
Definition table_loadForm : Req -> string -> value -> loader :=
  λ _ _ id h, let (l, h') := alloc h (Obj None {["_id" := id]}) in (Ok (VRef l), h').

(** Submissions come from a table of stored ones; an unknown key resolves
    to [null]. *)
Definition table_loadSubmission (table : list (value * value * tree))
    : Req -> value -> value -> loader :=
  λ _ form id h,
    match List.find (λ e : value * value * tree,
                       strict_eq e.1.1 form && strict_eq e.1.2 id) table with
    | Some e => let (v, h') := materialize e.2 h in (Ok v, h')
    | None => (Ok VNull, h)
    end.

(** A create handler that stores the body under the identifier [id] and
    answers with [res.resource = {status: 201, item}]. *)
Definition create_handler (id : string) : handler :=
  λ childReq res h,
    let (item, h1) := alloc h (Obj None (<["_id" := VStr id]>
                                  {["data" := get_prop h (body childReq) "data"]})) in
    let (r, h2) := alloc h1 (Obj None (<["status" := VNum 201]> {["item" := VRef item]})) in
    (Ok None, (h2, mkRes (VRef r))).

(** An update handler: the body is the item. *)
Definition update_handler : handler :=
  λ childReq res h,
    let (r, h1) := alloc h (Obj None (<["status" := VNum 200]> {["item" := body childReq]})) in
    (Ok None, (h1, mkRes (VRef r))).

Definition standard_routes (id : string) : string -> string -> option handler :=
  λ url' method',
    if String.eqb url' "/form/:formId/submission" && String.eqb method' "post"
    then Some (create_handler id)
    else if String.eqb url' "/form/:formId/submission/:submissionId" && String.eqb method' "put"
    then Some update_handler
    else None.

(** The standard routes and a handler for [patch] under the create url,
    which the standard routes do not have. *)
Definition patch_routes (id : string) : string -> string -> option handler :=
  λ url' method',
    if String.eqb url' "/form/:formId/submission" && String.eqb method' "patch"
    then Some (create_handler id)
    else standard_routes id url' method'.

Definition objectToString : heap -> loc -> string := λ _ _, "[object Object]".

(** A request at clone depth [depth]; Express hands it over at depth 0. *)
Definition request_at (depth : nat) (m : string) (b : value) : Req :=
  mkReq m "/form/:formId/submission" b false None None None None
        VUndef VUndef (mkParams VUndef VUndef) depth.

Definition request (m : string) (b : value) : Req := request_at 0 m b.

Definition world (h : heap) (r : Req) : World :=
  mkWorld h r (mkRes VUndef) (mkCache VUndef VUndef) [].

(** The state in which the first series starts: an empty cache and
    [req.skipResource = true] (lines 76 and 271). *)
Definition entered (w : World) : World :=
  with_req (set_skipResource true (w_req w)) (with_cache (mkCache VUndef VUndef) w).

(** The settings with the transform taken out. *)
Definition without_transform (s : Settings) : Settings :=
  mkSettings (resource s) (property s) (fields s) None.

(** What the script sees as [submission] when the transform runs in [w]
    (line 209): the item a handler saved, or the body of the request. *)
Definition transform_subject (w : World) : value :=
  if truthy (saved_item (w_heap w) (w_res w)) then saved_item (w_heap w) (w_res w)
  else body (w_req w).

(** The state [w] after the isolate was called on the data of the cached
    child and the error it raised was written to the debug log; nothing
    else differs from [w]. *)
Definition debugged (s : Settings) (err : error) (w : World) : World :=
  logged (EvDebug err)
    (logged (EvEvaluate (script_text (setting (transform s))) (transform_subject w)
               (get_prop (w_heap w) (c_submission (w_cache w)) "data")) w).

(** [m] does what [m0] does and then fails in the isolate: whenever [m0]
    builds a child and ends in [w2] without an error, and the isolate throws
    on the script of [s] there, [m] ends in [w2] as well, but for the two
    log entries. *)
Definition follows (evaluate : string -> heap -> value -> value -> outcome tree)
    (s : Settings) (m0 m : M (option error)) : Prop :=
  ∀ w w2 err,
    m0 w = (Ok None, w2) →
    truthy (c_submission (w_cache w)) = false →
    truthy (c_submission (w_cache w2)) = true →
    evaluate (script_text (setting (transform s))) (w_heap w2) (transform_subject w2)
             (get_prop (w_heap w2) (c_submission (w_cache w2)) "data") = Thrown err →
    m w = (Ok None, debugged s err w2).

(** ** Sample runs

    A primary body [{form: 'F', data: {firstName: 'Joe', address: {city:
    'X'}}}], the same body as stored under the identifier [p1], and the same
    body carrying a record for the resource [R] already. *)
Definition sample_data : heap :=
  <[2%positive := Obj None (<["firstName" := VStr "Joe"]> {["address" := VRef 3%positive]})]>
  {[3%positive := Obj None {["city" := VStr "X"]}]}.

Definition sample_heap : heap :=
  <[1%positive := Obj None (<["form" := VStr "F"]> {["data" := VRef 2%positive]})]>
  sample_data.

Definition stored_heap : heap :=
  <[1%positive := Obj None (<["_id" := VStr "p1"]>
                      (<["form" := VStr "F"]> {["data" := VRef 2%positive]}))]>
  sample_data.

Definition linked_heap : heap :=
  <[1%positive := Obj None (<["form" := VStr "F"]>
                      (<["externalIds" := VRef 4%positive]> {["data" := VRef 2%positive]}))]>
  (<[4%positive := Obj (Some 1%N) {["0" := VRef 5%positive]}]>
   (<[5%positive := Obj None (<["type" := VStr "resource"]>
                        (<["resource" := VStr "R"]> {["id" := VStr "old"]}))]>
    sample_data)).

(** A store in which a child submission [{data: {}, roles: []}] waits at
    location 6 for the primary body at location 1. *)
Definition merging_heap : heap :=
  <[4%positive := empty_object]>
  (<[5%positive := empty_array]>
   (<[6%positive := Obj None (<["data" := VRef 4%positive]> {["roles" := VRef 5%positive]})]>
    sample_heap)).

Definition sample_body : value := VRef 1%positive.

(** A store whose only object is its own property [a]. *)
Definition cyclic_heap : heap :=
  {[1%positive := Obj None {["a" := VRef 1%positive]}]}.

Definition sample_settings : Settings :=
  mkSettings (Some "R") None [("name", "firstName")] None.

(** The record [{type: 'resource', resource: r, id: id}] as stored data. *)
Definition record_tree (r id : string) : tree :=
  TObj [("id", TStr id); ("resource", TStr r); ("type", TStr "resource")].

(** Stored submissions: the primary [p1] of form [F] linked to the child
    [c1] of [R], which was stored without an [_id]; the same primary linked
    to another resource only; the same primary whose child is gone. *)
Definition table_linked : list (value * value * tree) :=
  [ (VStr "F", VStr "p1", TObj [("externalIds", TArr [record_tree "R" "c1"])]);
    (VStr "R", VStr "c1", TObj [("data", TObj [])]) ].

Definition table_other : list (value * value * tree) :=
  [ (VStr "F", VStr "p1", TObj [("externalIds", TArr [record_tree "OTHER" "x1"])]) ].

Definition table_orphan : list (value * value * tree) :=
  [ (VStr "F", VStr "p1", TObj [("externalIds", TArr [record_tree "R" "c1"])]) ].

(** The action with the collaborators above: clones up to depth [bound],
    submissions from [table], the standard routes, the isolate for the
    fragment. *)
Definition sample_resolve (bound : nat) (table : list (value * value * tree))
    (s : option Settings) : M (option error) :=
  resolve dotPath (createSubRequest_bounded bound) table_loadForm
          (table_loadSubmission table) (standard_routes "c1") fragment_evaluate
          objectToString s.

Definition sample_loads (table : list (value * value * tree)) (s : Settings)
    : M (option error) :=
  load_stages dotPath table_loadForm (table_loadSubmission table) fragment_evaluate s.

Definition sample_save (bound : nat) : value -> value -> M (option error) :=
  saveToResource (createSubRequest_bounded bound) (standard_routes "c1") objectToString.

(** Settings that map two target paths through one object of the primary,
    settings with a blank transform, and settings whose transform reads a
    name that is not bound. *)
Definition sharing_settings : Settings :=
  mkSettings (Some "R") None [("addr", "address"); ("addr.city", "firstName")] None.

Definition blank_settings : Settings :=
  mkSettings (Some "R") None [("name", "firstName")] (Some " ").

Definition failing_settings : Settings :=
  mkSettings (Some "R") None [("name", "firstName")] (Some "missing;").

(** The data of the cached child submission, copied out. *)
Definition child_data (w : World) : option tree :=
  snapshot 8 (w_heap w) (get_prop (w_heap w) (c_submission (w_cache w)) "data").

(** The external ids of the primary body, copied out. *)
Definition external_ids (w : World) : option tree :=
  snapshot 8 (w_heap w) (get_prop (w_heap w) (body (w_req w)) "externalIds").

(** The sample requests in their initial states. *)
Definition post_world : World := world sample_heap (request "POST" sample_body).
Definition patch_world : World := world sample_heap (request "PATCH" sample_body).
Definition put_world : World := world stored_heap (request "PUT" sample_body).
Definition put_world_without_id : World := world sample_heap (request "PUT" sample_body).
Definition linked_world : World := world linked_heap (request "POST" sample_body).
Definition deep_world : World := world sample_heap (request_at 2 "POST" sample_body).
Definition merging_world : World := world merging_heap (request "POST" sample_body).

(** The state after the two loads, and after the child save. *)
Definition loaded (table : list (value * value * tree)) (s : Settings) (w : World) : World :=
  (sample_loads table s (entered w)).2.

Definition saved (table : list (value * value * tree)) (s : Settings) (w : World) : World :=
  let w1 := loaded table s w in
  (sample_save 5 (c_resource (w_cache w1)) (c_submission (w_cache w1)) w1).2.

(** ** What a run leaves behind

    Relations between the state before and the state after a stage, and the
    stages that stay within one. *)

Definition is_dispatch (ev : event) : bool :=
  match ev with
  | EvDispatch _ _ _ => true
  | _ => false
  end.

(** The request as the load stages may leave it: as it was, or marked as
    transformed (line 216). *)
Definition same_request (r r' : Req) : Prop :=
  r' = r ∨ r' = set_isTransformedData true r.

(** Calls were added to the log, none of them a dispatch, and the request
    is the [same_request]. *)
Definition trail (w w' : World) : Prop :=
  (∃ evs, w_log w' = evs ++ w_log w ∧ Forall (λ ev, is_dispatch ev = false) evs)
  ∧ same_request (w_req w) (w_req w').

(** Nothing but the store changed. *)
Definition heap_only (w w' : World) : Prop := ∃ h, w' = with_heap h w.

(** The cache holds the child submission it held. *)
Definition same_child (w w' : World) : Prop :=
  c_submission (w_cache w') = c_submission (w_cache w).

(** The cache is as it was, and the request is the [same_request]. *)
Definition same_cache (w w' : World) : Prop :=
  w_cache w' = w_cache w ∧ same_request (w_req w) (w_req w').

(** Every run of [m] relates the state it starts in to the state it ends
    in, whatever the result. *)
Definition keeps (R : World -> World -> Prop) {A} (m : M A) : Prop :=
  ∀ w r w', m w = (r, w') → R w w'.

(** The fields of the request itself that [resolve] never writes: all but
    the two flags.  [req.params] is an object of its own, which the clone
    of the request may share and lines 102 and 108 then write; it is left
    out. *)
Definition but_flags (r : Req) : Req :=
  mkReq (method r) (url r) (body r) (skipSave r) None None (permissionsChecked r)
        (noResponse r) (formId r) (subId r) (mkParams VUndef VUndef) (childRequests r).

(** The child save of a request [primary] hands [c] to the handler under
    [u] and [m] (lines 79-126), in the store [h], for the target form [form]
    and the child submission [child]: the child is truthy, the form has an
    [_id], the request could be cloned, and [c] is the clone prepared for
    that form and that child; on a PUT the child has a truthy [_id], which
    [c] carries, and [u] is the url by identifier. *)
Definition handed_over (createSubRequest : Req -> option Req)
    (refToString : heap -> loc -> string)
    (primary : Req) (h : heap) (form child : value) (u m : string) (c : Req) : Prop :=
  let fid := stringify refToString h (get_prop h form "_id") in
  let bid := get_prop h child "_id" in
  truthy child = true
  ∧ nullish form = false
  ∧ nullish (get_prop h form "_id") = false
  ∧ m = toLowerCase (method primary)
  ∧ ∃ clone, createSubRequest primary = Some clone
             ∧ if String.eqb m "put"
               then u = "/form/:formId/submission/:submissionId"
                    ∧ truthy bid = true
                    ∧ c = child_request clone child fid (Some bid) u m
               else u = "/form/:formId/submission"
                    ∧ c = child_request clone child fid None u m.

(** What the callback of the first series adds to the log: nothing, one
    error, or the one child request it hands over. *)
Definition last_call (createSubRequest : Req -> option Req)
    (refToString : heap -> loc -> string) (w w' : World) : Prop :=
  w_log w' = w_log w
  ∨ (∃ code e, w_log w' = EvLog code e :: w_log w)
  ∨ (∃ u m c, w_log w' = EvDispatch u m c :: w_log w
              ∧ handed_over createSubRequest refToString (w_req w) (w_heap w)
                  (c_resource (w_cache w)) (c_submission (w_cache w)) u m c).

(** A form cache that rejects every load, one that resolves without a
    form, and a submission cache that rejects the loads for the form
    [bad] and answers the others from a table. *)
Definition rejecting_loadForm : Req -> string -> value -> loader :=
  λ _ _ _ h, (Thrown (Failure "form not found"), h).

Definition null_loadForm : Req -> string -> value -> loader :=
  λ _ _ _ h, (Ok VNull, h).

Definition guarded_loadSubmission (bad : value) (table : list (value * value * tree))
    : Req -> value -> value -> loader :=
  λ req form id h,
    if strict_eq form bad then (Thrown (Failure "submission not loaded"), h)
    else table_loadSubmission table req form id h.

(** Settings whose only mapping reads a field the primary does not have,
    settings that keep the child under [data.child] of the primary, and
    mappings whose keys name properties [_.set] refuses to write. *)
Definition absent_settings : Settings :=
  mkSettings (Some "R") None [("nick", "nickname")] None.

Definition property_settings : Settings :=
  mkSettings (Some "R") (Some "child") [("name", "firstName")] None.

Definition polluting_fields : list (string * string) :=
  [("__proto__.polluted", "firstName"); ("constructor", "data")].

(** A handler that refuses what it is given, under every url and method. *)
Definition refusing_handler : handler :=
  λ _ res h, (Ok (Some (Failure "validation failed")), (h, res)).

Definition refusing_routes : string -> string -> option handler :=
  λ _ _, Some refusing_handler.

End Action.

(** * The installer (install.js)

    The decisions the installation wizard takes without touching the disk
    or the network: how often a download is tried again, what the prompt of
    the first step accepts, and which addresses the root account may have.
    Strings are sequences of code units below 256. *)

Module Install.
Import Action.

(** ** Regular expressions

    The constructs of the pattern of line 334: classes of characters,
    sequence, and repetition.  [Never] and [Alt] arise when a pattern is
    derived by a character. *)
Inductive regex :=
| Never
| Empty
| Class (p : ascii -> bool)
| Cat (r1 r2 : regex)
| Alt (r1 r2 : regex)
| Star (r : regex).

(** [r+] and a literal character. *)
Definition Plus (r : regex) : regex := Cat r (Star r).
Definition Lit (c : ascii) : regex := Class (Ascii.eqb c).

(** The strings a pattern stands for. *)
Inductive matches : regex -> string -> Prop :=
| MEmpty : matches Empty ""
| MClass p c : p c = true → matches (Class p) (String c "")
| MCat r1 r2 s1 s2 : matches r1 s1 → matches r2 s2 → matches (Cat r1 r2) (s1 +:+ s2)
| MAltL r1 r2 s : matches r1 s → matches (Alt r1 r2) s
| MAltR r1 r2 s : matches r2 s → matches (Alt r1 r2) s
| MStar0 r : matches (Star r) ""
| MStarS r s1 s2 : matches r s1 → matches (Star r) s2 → matches (Star r) (s1 +:+ s2).

Fixpoint nullable (r : regex) : bool :=
  match r with
  | Never => false
  | Empty => true
  | Class _ => false
  | Cat r1 r2 => nullable r1 && nullable r2
  | Alt r1 r2 => nullable r1 || nullable r2
  | Star _ => true
  end.

(** What is left of [r] once it has read [c]. *)
Fixpoint derive (c : ascii) (r : regex) : regex :=
  match r with
  | Never => Never
  | Empty => Never
  | Class p => if p c then Empty else Never
  | Cat r1 r2 =>
      if nullable r1 then Alt (Cat (derive c r1) r2) (derive c r2)
      else Cat (derive c r1) r2
  | Alt r1 r2 => Alt (derive c r1) (derive c r2)
  | Star r' => Cat (derive c r') (Star r')
  end.

(** [/^r$/.test(s)]: the whole of [s] is read by [r]. *)
Fixpoint test (r : regex) (s : string) : bool :=
  match s with
  | EmptyString => nullable r
  | String c s' => test (derive c r) s'
  end.

(** ** The address of the root account, lines 330-339 *)

Definition alnum (c : ascii) : bool :=
  let n := nat_of_ascii c in
  ((97 <=? n) && (n <=? 122))%nat || ((65 <=? n) && (n <=? 90))%nat
  || ((48 <=? n) && (n <=? 57))%nat.

Fixpoint one_of (cs : string) (c : ascii) : bool :=
  match cs with
  | EmptyString => false
  | String c' cs' => Ascii.eqb c c' || one_of cs' c
  end.

(** The class before the [@].  The pattern also lists the typographic
    apostrophe U+2019 there, a code unit above 255 that no string of this
    model contains; the ASCII apostrophe is not in the class. *)
Definition local_char (c : ascii) : bool :=
  alnum c || one_of ".!#$%&*+/=?^_`{|}~-" c.

(** The class of a label of the domain. *)
Definition label_char (c : ascii) : bool := alnum c || Ascii.eqb c "-".

Definition label : regex := Plus (Class label_char).

Definition pattern : regex :=
  Cat (Plus (Class local_char))
      (Cat (Lit "@") (Cat label (Star (Cat (Lit ".") label)))).

(** What a [validate] function of a prompt returns: [true], or the message
    to show. *)
Inductive validity := Valid | Invalid (message : string).

Definition validate_email (input : string) : validity :=
  if String.eqb input "" then Invalid "Email is not specified"
  else if negb (test pattern input) then Invalid "Must be a valid email"
  else Valid.

(** Every character of [s] is in the class [p]. *)
Fixpoint every (p : ascii -> bool) (s : string) : bool :=
  match s with
  | EmptyString => true
  | String c s' => p c && every p s'
  end.

(** A label: one character of the class or more. *)
Definition is_label (l : string) : bool := negb (String.eqb l "") && every label_char l.

(** The labels after the first, each behind its dot. *)
Fixpoint dotted (ls : list string) : string :=
  match ls with
  | [] => ""
  | l :: ls' => "." +:+ l +:+ dotted ls'
  end.

(** The number of [c] in [s]. *)
Fixpoint count (c : ascii) (s : string) : nat :=
  match s with
  | EmptyString => 0
  | String c' s' => (if Ascii.eqb c' c then 1 else 0) + count c s'
  end.

(** ** The first step, lines 158-178

    [areYouSure] as the calls of [done] it makes, in order: [None] is
    [done()], [Some err] is [done(err)].  The prompt calls back with an
    error or with the answer.  [toLowerCase] changes the letters A to Z
    only, which is enough to tell whether the answer becomes [y]. *)
Definition confirmation (prompted : string + string) : option string :=
  match prompted with
  | inl err => Some err
  | inr install =>
      if negb (String.eqb (toLowerCase install) "y") then Some "Installation canceled."
      else None
  end.

Definition areYouSure (ROOT_EMAIL : option string) (prompted : string + string)
    : list (option string) :=
  (if configured ROOT_EMAIL then [None] else []) ++ [confirmation prompted].

(** ** The download, lines 33-88 *)

(** What the body of a response emits. *)
Inductive body_event := OnData (length : nat) | OnError (err : string) | OnEnd.

(** The response as [download] reads it: whether it has a
    [content-disposition] header, what [parseInt] makes of its
    [content-length] ([None] is [NaN]), and the events of its body. *)
Record response := mkResponse {
  has_disposition : bool;
  content_length : option Z;
  body_events : list body_event
}.

(** How a call of [download] ends: [done] is called, with or without an
    error, or it never is. *)
Inductive ending := Done (err : option string) | Pending.

(** The handlers of lines 73-85: [done(downloadError)] at the end of the
    body, with the last error the body emitted before it; a body emits
    nothing after its end. *)
Fixpoint receive (evs : list body_event) (downloadError : option string) : ending :=
  match evs with
  | [] => Pending
  | OnData _ :: evs' => receive evs' downloadError
  | OnError err :: evs' => receive evs' (Some err)
  | OnEnd :: _ => Done downloadError
  end.

(** Lines 50-53: the response cannot be used. *)
Definition unusable (res : response) : bool :=
  negb (has_disposition res)
  || negb (match content_length res with
           | Some n => negb (n =? 0)%Z
           | None => false
           end).

(** [downloadProject], lines 47-87.  [fetch i] is what the [i]-th call of
    [util.fetch] resolves to, [None] when it rejects, which nothing
    handles; [tries] is the counter of line 45.  The result is the ending
    and the number of calls of [util.fetch]; [fuel] bounds the calls. *)
Fixpoint downloadProject (fuel : nat) (fetch : nat -> option response) (calls tries : nat)
    : option (ending * nat) :=
  match fuel with
  | O => None
  | S fuel' =>
      match fetch calls with
      | None => Some (Pending, S calls)
      | Some res =>
          if unusable res then
            if (3 <? tries)%nat
            then Some (Done (Some "Unable to download project. Please try again."), S calls)
            else downloadProject fuel' fetch (S calls) (S tries)
          else Some (receive (body_events res) None, S calls)
      end
  end.

(** [download(url, zipFile, dir, done)]; [zip_exists] is
    [fs.existsSync(zipFile)]. *)
Definition download (fuel : nat) (zip_exists : bool) (fetch : nat -> option response)
    : option (ending * nat) :=
  if zip_exists then Some (Done None, 0%nat)
  else downloadProject fuel fetch 0 0.

(** Responses to run the download with: a page that is not the archive, and
    the archive in two chunks. *)
Definition error_page : response := mkResponse false (Some 153%Z) [OnData 153; OnEnd].
Definition archive : response :=
  mkResponse true (Some 2048%Z) [OnData 1024; OnData 1024; OnEnd].

(** A server that answers with the page twice before it sends the archive,
    and one that never sends it. *)
Definition flaky_fetch (i : nat) : option response :=
  if (i <? 2)%nat then Some error_page else Some archive.

Definition failing_fetch (i : nat) : option response := Some error_page.

End Install.

(** * Properties of the action *)

Module Properties.
Import Lodash Action.
Local Open Scope action_scope.

Ltac run_monad :=
  unfold bind, ret, throw, try_catch, getReq, getRes, getHeap, getCache,
         putReq, putRes, putHeap, putCache, emit in *.

(** ** The store *)

Lemma le_foldr_max (ls : list loc) l :
  l ∈ ls → (l <= foldr Pos.max 1%positive ls)%positive.
Proof.
  induction ls as [|a ls IH]; intros Hl; [by apply elem_of_nil in Hl|].
  apply elem_of_cons in Hl as [->|Hl]; simpl; [apply Pos.le_max_l|].
  etrans; [apply (IH Hl)|apply Pos.le_max_r].
Qed.

Lemma fresh_loc_None (h : heap) : h !! fresh_loc h = None.
Proof.
  destruct (h !! fresh_loc h) as [o|] eqn:E; [|done]. exfalso.
  apply elem_of_map_to_list in E.
  assert (Hin : fresh_loc h ∈ (map_to_list h).*1).
  { apply list_elem_of_fmap. by exists (fresh_loc h, o). }
  apply le_foldr_max in Hin. unfold fresh_loc in Hin at 1.
  revert Hin. apply Pos.lt_nle, Pos.lt_succ_diag_r.
Qed.

Lemma alloc_inv (h : heap) o l h' :
  alloc h o = (l, h') → h !! l = None ∧ h' = <[l := o]> h.
Proof. unfold alloc. intros [= <- <-]. split; [apply fresh_loc_None|done]. Qed.

Lemma alloc_lookup_old (h : heap) o l h' l' :
  alloc h o = (l, h') → is_Some (h !! l') → h' !! l' = h !! l'.
Proof.
  intros [Hf ->]%alloc_inv Hl. rewrite lookup_insert_ne; [done|].
  intros ->. rewrite Hf in Hl. by destruct Hl.
Qed.

Lemma get_prop_alloc (h : heap) o l h' v k :
  alloc h o = (l, h') → live h v = true → get_prop h' v k = get_prop h v k.
Proof.
  intros E. destruct v; try done. unfold live, get_prop. intros Hl.
  apply bool_decide_eq_true in Hl. by rewrite (alloc_lookup_old _ _ _ _ _ E).
Qed.

Lemma live_alloc (h : heap) o l h' v :
  alloc h o = (l, h') → live h v = true → live h' v = true.
Proof.
  intros E. destruct v; try done. unfold live. intros Hl.
  apply bool_decide_eq_true in Hl. apply bool_decide_eq_true.
  by rewrite (alloc_lookup_old _ _ _ _ _ E).
Qed.

(** Reading depends on the object read only. *)
Lemma get_prop_agree (h h' : heap) v k :
  (∀ l, v = VRef l → h' !! l = h !! l) → get_prop h' v k = get_prop h v k.
Proof. intros H. destruct v; try done. unfold get_prop. by rewrite (H l). Qed.

Lemma elements_agree (h h' : heap) v :
  (∀ l, v = VRef l → h' !! l = h !! l) → elements h' v = elements h v.
Proof. intros H. destruct v; try done. unfold elements. by rewrite (H l). Qed.

Lemma is_array_agree (h h' : heap) v :
  (∀ l, v = VRef l → h' !! l = h !! l) → is_array h' v = is_array h v.
Proof. intros H. destruct v; try done. unfold is_array. by rewrite (H l). Qed.

Lemma assign_lookup_ne (h : heap) l k v l' :
  l' ≠ l → assign h l k v !! l' = h !! l'.
Proof.
  intros Hne. unfold assign. destruct (h !! l); [|done]. by rewrite lookup_insert_ne.
Qed.

Lemma assign_lookup_eq (h : heap) l k v o :
  h !! l = Some o → assign h l k v !! l = Some (put o k v).
Proof. intros H. unfold assign. rewrite H. by rewrite lookup_insert_eq. Qed.

Lemma get_prop_assign_eq (h : heap) l k v :
  is_Some (h !! l) → get_prop (assign h l k v) (VRef l) k = v.
Proof.
  intros [o Ho]. unfold get_prop. rewrite (assign_lookup_eq _ _ _ _ _ Ho).
  unfold put. cbn [o_props]. by rewrite lookup_insert_eq.
Qed.

Lemma elements_push (h : heap) l o n v :
  h !! l = Some o → o_len o = Some n →
  elements (<[l := push o v]> h) (VRef l) = elements h (VRef l) ++ [v].
Proof.
  intros Ho Hn. unfold elements. rewrite lookup_insert_eq, Ho. unfold push.
  rewrite Hn. cbn [o_len o_props].
  replace (N.to_nat (n + 1)) with (N.to_nat n + 1)%nat by lia.
  rewrite seq_app, fmap_app. cbn [seq fmap list_fmap Nat.add]. f_equal.
  - apply list_fmap_ext. intros i x Hi. apply lookup_seq in Hi as [-> Hi].
    rewrite lookup_insert_ne; [done|]. intros E%(inj pretty). lia.
  - by rewrite N2Nat.id, lookup_insert_eq.
Qed.

Lemma truthy_live_prop (h : heap) v k :
  truthy (get_prop h v k) = true → live h v = true.
Proof.
  destruct v; try done. unfold get_prop, live.
  destruct (h !! l) eqn:E; [|done]. intros _. by apply bool_decide_eq_true.
Qed.

Lemma not_nullish_live_prop (h : heap) v k :
  nullish (get_prop h v k) = false → live h v = true.
Proof.
  destruct v; try done. unfold get_prop, live.
  destruct (h !! l) eqn:E; [|done]. intros _. by apply bool_decide_eq_true.
Qed.

Lemma same_object_false a b : same_object a b = false → ∀ l, a = VRef l → b ≠ VRef l.
Proof.
  intros H l -> ->. unfold same_object in H. by rewrite bool_decide_eq_true_2 in H.
Qed.

Lemma elements_falsy (h : heap) v : truthy v = false → elements h v = [].
Proof. by destruct v. Qed.

Lemma assign_None (h : heap) l k v l' : assign h l k v !! l' = None → h !! l' = None.
Proof.
  unfold assign. destruct (h !! l) eqn:E; [|done].
  destruct (decide (l' = l)) as [->|Hne].
  - by rewrite lookup_insert_eq.
  - by rewrite lookup_insert_ne.
Qed.

(** ** Writing along a path and reading it back *)

Lemma closedb_closed h : closedb h = true → closed h.
Proof.
  unfold closedb. intros H l o k l' Hl Hk.
  rewrite forallb_forall in H.
  specialize (H (l, o)). cbn [snd] in H.
  rewrite forallb_forall in H.
  assert (Hin : In (l, o) (map_to_list h)).
  { apply list_elem_of_In. by apply elem_of_map_to_list. }
  specialize (H Hin (k, VRef l')). cbn [snd] in H.
  assert (B : bool_decide (is_Some (h !! l')) = true).
  { apply H, list_elem_of_In. by apply elem_of_map_to_list. }
  by apply bool_decide_eq_true in B.
Qed.

Lemma closed_assign h l k v :
  closed h → (∀ l', v = VRef l' → is_Some (h !! l')) → closed (assign h l k v).
Proof.
  intros Hc Hv. unfold assign. destruct (h !! l) as [o|] eqn:Ho; [|done].
  assert (Keep : ∀ l', is_Some (h !! l') → is_Some (<[l:=put o k v]> h !! l')).
  { intros l' Hl'. destruct (decide (l' = l)) as [->|?].
    - rewrite lookup_insert_eq. by eexists.
    - by rewrite lookup_insert_ne. }
  intros l1 o1 k1 l2 H1 H2. apply Keep.
  destruct (decide (l1 = l)) as [->|Hne].
  - rewrite lookup_insert_eq in H1. injection H1 as <-. unfold put in H2. cbn [o_props] in H2.
    destruct (decide (k1 = k)) as [->|Hk].
    + rewrite lookup_insert_eq in H2. injection H2 as ->. by apply Hv.
    + rewrite lookup_insert_ne in H2 by done. by apply (Hc l o k1).
  - rewrite lookup_insert_ne in H1 by done. by apply (Hc l1 o1 k1).
Qed.

Lemma closed_alloc_empty h l h' o :
  alloc h o = (l, h') → o_props o = ∅ → closed h → closed h'.
Proof.
  intros [Hf ->]%alloc_inv Ho Hc l1 o1 k1 l2 H1 H2.
  destruct (decide (l1 = l)) as [->|Hne].
  - rewrite lookup_insert_eq in H1. injection H1 as <-. by rewrite Ho in H2.
  - rewrite lookup_insert_ne in H1 by done.
    destruct (Hc l1 o1 k1 l2 H1 H2) as [o2 Ho2].
    destruct (decide (l2 = l)) as [->|?]; [by rewrite Hf in Ho2|].
    rewrite lookup_insert_ne by done. by eexists.
Qed.

Lemma prop_lookup_assign_eq h l k v :
  is_Some (h !! l) → prop_lookup (assign h l k v) l k = Some v.
Proof.
  intros [o Ho]. unfold prop_lookup. rewrite (assign_lookup_eq _ _ _ _ _ Ho).
  cbn. by rewrite lookup_insert_eq.
Qed.

Lemma prop_lookup_assign_ne h l k v l0 k0 :
  k0 ≠ k → prop_lookup (assign h l k v) l0 k0 = prop_lookup h l0 k0.
Proof.
  intros Hk. unfold prop_lookup, assign. destruct (h !! l) as [o|] eqn:Ho; [|done].
  destruct (decide (l0 = l)) as [->|Hne].
  - rewrite lookup_insert_eq, Ho. cbn. by rewrite lookup_insert_ne.
  - by rewrite lookup_insert_ne.
Qed.

Lemma assign_is_Some h l k v l0 : is_Some (h !! l0) → is_Some (assign h l k v !! l0).
Proof.
  intros H. unfold assign. destruct (h !! l) as [o|] eqn:Ho; [|done].
  destruct (decide (l0 = l)) as [->|Hne].
  - rewrite lookup_insert_eq. by eexists.
  - by rewrite lookup_insert_ne.
Qed.

Lemma get_prop_lookup h l k v : prop_lookup h l k = Some v → get_prop h (VRef l) k = v.
Proof.
  unfold prop_lookup, get_prop. destruct (h !! l) as [o|]; [|done]. cbn.
  by intros ->.
Qed.

Lemma get_prop_ref_lookup h l k l' :
  get_prop h (VRef l) k = VRef l' → prop_lookup h l k = Some (VRef l').
Proof.
  unfold prop_lookup, get_prop. destruct (h !! l) as [o|]; [|done]. cbn.
  destruct (o_props o !! k); [by intros ->|].
  destruct (o_len o); [|done]. by destruct (String.eqb k "length").
Qed.

(** The object a reference read leads to. *)
Lemma get_prop_ref_iff h l k l' :
  get_prop h (VRef l) k = VRef l' ↔ prop_lookup h l k = Some (VRef l').
Proof. split; [apply get_prop_ref_lookup|apply get_prop_lookup]. Qed.

(** The steps of a walk depend on the own properties only. *)
Lemma steps_agree path : ∀ h1 h2 n,
  (∀ l k, prop_lookup h1 l k = prop_lookup h2 l k) →
  steps h1 n path = steps h2 n path.
Proof.
  induction path as [|k rest IH]; intros h1 h2 n H; [done|].
  cbn [steps]. f_equal. destruct rest as [|k' rest']; [done|].
  destruct (get_prop h1 (VRef n) k) as [| | | | |l1] eqn:G1;
    destruct (get_prop h2 (VRef n) k) as [| | | | |l2] eqn:G2;
    try done;
    try (apply get_prop_ref_iff in G1; rewrite H in G1; apply get_prop_ref_iff in G1;
         by rewrite G1 in G2);
    try (apply get_prop_ref_iff in G2; rewrite <- H in G2; apply get_prop_ref_iff in G2;
         by rewrite G2 in G1).
  apply get_prop_ref_iff in G1. rewrite H in G1. apply get_prop_ref_iff in G1.
  rewrite G1 in G2. injection G2 as ->. by apply IH.
Qed.

Lemma prop_lookup_assign_other h l k v l0 k0 :
  (l0, k0) ≠ (l, k) → prop_lookup (assign h l k v) l0 k0 = prop_lookup h l0 k0.
Proof.
  intros Hne. destruct (decide (k0 = k)) as [->|Hk]; [|by apply prop_lookup_assign_ne].
  assert (Hl : l0 ≠ l) by (intros ->; by apply Hne).
  unfold prop_lookup. by rewrite assign_lookup_ne.
Qed.

(** Writing what is there already changes no property. *)
Lemma prop_lookup_assign_same h l k v :
  prop_lookup h l k = Some v →
  ∀ l0 k0, prop_lookup (assign h l k v) l0 k0 = prop_lookup h l0 k0.
Proof.
  intros H l0 k0. destruct (decide ((l0, k0) = (l, k))) as [[= -> ->]|Hne].
  - rewrite H. apply prop_lookup_assign_eq. unfold prop_lookup in H.
    destruct (h !! l); [by eexists|done].
  - by apply prop_lookup_assign_other.
Qed.

(** An object without the property [k] ends the steps there. *)
Lemma steps_missing h l k rest :
  prop_lookup h l k = None → steps h l (k :: rest) = [(l, k)].
Proof.
  intros H. cbn [steps]. destruct rest as [|k' rest']; [done|].
  destruct (get_prop h (VRef l) k) as [| | | | |l'] eqn:G; try done.
  apply get_prop_ref_lookup in G. by rewrite H in G.
Qed.

Lemma closed_live h n k l' :
  closed h → prop_lookup h n k = Some (VRef l') → is_Some (h !! l').
Proof.
  intros Hc G. unfold prop_lookup in G. destruct (h !! n) as [o|] eqn:Ho; [|done].
  by apply (Hc n o k l').
Qed.

(** The store after a new object was put at [n.k]. *)
Lemma alloc_assign h o l' h1 n k :
  alloc h o = (l', h1) → o_props o = ∅ → closed h → is_Some (h !! n) →
  let h2 := assign h1 n k (VRef l') in
  closed h2 ∧ is_Some (h2 !! l') ∧ n ≠ l'
  ∧ (∀ k', prop_lookup h2 l' k' = None)
  ∧ prop_lookup h2 n k = Some (VRef l')
  ∧ ∀ l0 k0, is_Some (h !! l0) → l0 ≠ l'
             ∧ is_Some (h2 !! l0)
             ∧ ((l0, k0) ≠ (n, k) → prop_lookup h2 l0 k0 = prop_lookup h l0 k0).
Proof.
  intros E Ho Hc Hn h2.
  pose proof (alloc_lookup_old _ _ _ _ n E Hn) as Hn1.
  assert (Hn1' : is_Some (h1 !! n)) by by rewrite Hn1.
  pose proof E as [Hf ->]%alloc_inv.
  assert (Hl1 : is_Some (<[l':=o]> h !! l')) by (rewrite lookup_insert_eq; by eexists).
  assert (Hnl : n ≠ l') by (intros ->; rewrite Hf in Hn; by destruct Hn).
  split; [|split; [|split; [|split; [|split]]]].
  - apply closed_assign; [by eapply closed_alloc_empty|]. by intros ? [= <-].
  - by apply assign_is_Some.
  - done.
  - intros k'. unfold h2. rewrite prop_lookup_assign_other by (intros [= ? ?]; by subst).
    unfold prop_lookup. rewrite lookup_insert_eq. cbn. by rewrite Ho.
  - by apply prop_lookup_assign_eq.
  - intros l0 k0 Hl0.
    assert (Hl0' : l0 ≠ l') by (intros ->; rewrite Hf in Hl0; by destruct Hl0).
    split; [done|]. split.
    + apply assign_is_Some. by rewrite lookup_insert_ne.
    + intros Hne. unfold h2. rewrite prop_lookup_assign_other by done.
      unfold prop_lookup. by rewrite lookup_insert_ne.
Qed.

(** A walk writes the properties of its steps and no other. *)
Lemma baseSet_walk_steps path : ∀ h n v l0 k0,
  closed h → is_Some (h !! n) →
  (l0, k0) ∉ steps h n path → is_Some (h !! l0) →
  prop_lookup (baseSet_walk h n path v) l0 k0 = prop_lookup h l0 k0
  ∧ is_Some (baseSet_walk h n path v !! l0).
Proof.
  induction path as [|k rest IH]; intros h n v l0 k0 Hc Hn Hk Hl0; [done|].
  cbn [steps] in Hk. apply not_elem_of_cons in Hk as [Hk0 Hrest]. cbn [baseSet_walk].
  destruct (forbidden k); [done|].
  destruct rest as [|k' rest'].
  - split; [by apply prop_lookup_assign_other|by apply assign_is_Some].
  - destruct (get_prop h (VRef n) k) as [| | | | |l'] eqn:G.
    6:{ apply get_prop_ref_lookup in G.
        destruct (IH (assign h n k (VRef l')) l' v l0 k0) as [E1 E2].
        - apply closed_assign; [done|]. intros ? [= <-]. by eapply closed_live.
        - apply assign_is_Some. by eapply closed_live.
        - by rewrite (steps_agree _ _ h _ (prop_lookup_assign_same _ _ _ _ G)).
        - by apply assign_is_Some.
        - split; [|done]. by rewrite E1, prop_lookup_assign_other. }
    all: destruct (alloc h _) as [l' h1] eqn:E;
      destruct (alloc_assign _ _ _ _ n k E) as (Hc2 & Hl2 & Hnl & Hemp & _ & Hold);
        [by destruct (isIndex k')|done|done|];
      destruct (Hold l0 k0 Hl0) as (Hl0' & Hl02 & Hsame);
      destruct (IH (assign h1 n k (VRef l')) l' v l0 k0 Hc2 Hl2) as [E1 E2];
        [rewrite steps_missing by done; apply not_elem_of_cons; split;
           [intros [= ? ?]; by subst|apply not_elem_of_nil]
        |done|];
      (split; [|done]); by rewrite E1, Hsame.
Qed.

(** What [_.set] wrote is what [_.get] reads along the same segments, when
    the walk writes no property of an object twice. *)
Lemma baseSet_walk_read path : ∀ h n v,
  closed h → is_Some (h !! n) → path ≠ [] → NoDup (steps h n path) →
  existsb forbidden path = false →
  baseGet_walk (baseSet_walk h n path v) (VRef n) path = v.
Proof.
  induction path as [|k rest IH]; intros h n v Hc Hn Hne Hnd Hf; [done|].
  cbn [steps] in Hnd. apply NoDup_cons in Hnd as [Hk Hnd]. cbn [existsb] in Hf.
  apply orb_false_elim in Hf as [Hfk Hf]. cbn [baseSet_walk baseGet_walk nullish].
  rewrite Hfk. destruct rest as [|k' rest'].
  - cbn [baseGet_walk]. by apply get_prop_lookup, prop_lookup_assign_eq.
  - assert (Step : ∀ h2 l', closed h2 → is_Some (h2 !! n) → is_Some (h2 !! l') →
      prop_lookup h2 n k = Some (VRef l') →
      (n, k) ∉ steps h2 l' (k' :: rest') → NoDup (steps h2 l' (k' :: rest')) →
      baseGet_walk (baseSet_walk h2 l' (k' :: rest') v)
        (get_prop (baseSet_walk h2 l' (k' :: rest') v) (VRef n) k)
        (k' :: rest') = v).
    { intros h2 l' Hc2 Hn2 Hl2 G2 Hk2 Hnd2.
      destruct (baseSet_walk_steps (k' :: rest') h2 l' v n k Hc2 Hl2 Hk2 Hn2) as [E _].
      rewrite G2 in E. rewrite (get_prop_lookup _ _ _ _ E). by apply IH. }
    destruct (get_prop h (VRef n) k) as [| | | | |l'] eqn:G.
    6:{ apply get_prop_ref_lookup in G.
        pose proof (steps_agree (k' :: rest') _ h l' (prop_lookup_assign_same _ _ _ _ G)) as S.
        apply Step.
        - apply closed_assign; [done|]. intros ? [= <-]. by eapply closed_live.
        - by apply assign_is_Some.
        - apply assign_is_Some. by eapply closed_live.
        - apply prop_lookup_assign_eq. done.
        - by rewrite S.
        - by rewrite S. }
    all: destruct (alloc h _) as [l' h1] eqn:E;
      destruct (alloc_assign _ _ _ _ n k E) as (Hc2 & Hl2 & Hnl & Hemp & G2 & Hold);
        [by destruct (isIndex k')|done|done|];
      destruct (Hold n k Hn) as (_ & Hn2 & _);
      apply Step; try done;
        rewrite steps_missing by done;
        [apply not_elem_of_cons; split; [intros [= ? ?]; by subst|apply not_elem_of_nil]
        |apply NoDup_singleton].
Qed.

(** ** The monad *)

Lemma bind_ok {A B} (m : M A) (f : A -> M B) w a w' :
  m w = (Ok a, w') → (x <- m ;; f x) w = f a w'.
Proof. intros H. unfold bind. by rewrite H. Qed.

Lemma bind_thrown {A B} (m : M A) (f : A -> M B) w e w' :
  m w = (Thrown e, w') → (x <- m ;; f x) w = (Thrown e, w').
Proof. intros H. unfold bind. by rewrite H. Qed.

Lemma read_prop_ok target k w :
  nullish target = false →
  read_prop target k w = (Ok (get_prop (w_heap w) target k), w).
Proof. intros H. unfold read_prop. by rewrite H. Qed.

(** ** The isolate for the fragment *)

Lemma tokenize_blank t rest :
  blank t = true → tokenize (t +:+ rest) "" = tokenize rest "".
Proof.
  induction t as [|c t IH]; intros H; [done|]. cbn [blank] in H.
  apply andb_prop in H as [Hc Ht]. change (String c t +:+ rest) with (String c (t +:+ rest)).
  cbn [tokenize]. rewrite Hc, (IH Ht).
  by destruct (tokenize rest "").
Qed.

Local Arguments String.append !_ _ / : simpl nomatch.

Lemma parse_blank t :
  blank t = true →
  parse (script_text t) = Some [SAssign "data" ["submission"; "data"]; SExpr ["data"]].
Proof.
  intros H. unfold parse, script_text, nl.
  simpl.
  rewrite (tokenize_blank t) by done. reflexivity.
Qed.

Lemma fragment_evaluate_blank t h subject d :
  blank t = true →
  nullish subject = false →
  fragment_evaluate (script_text t) h subject d
  = match snapshot (S (size h)) h (get_prop h subject "data") with
    | Some r => Ok r
    | None => Thrown (Failure "could not be cloned")
    end.
Proof.
  intros Hb Hn. unfold fragment_evaluate. rewrite (parse_blank t Hb).
  cbn [run eval_path lookup_var List.find fst snd String.eqb Ascii.eqb Bool.eqb fmap option_fmap option_map eval_members].
  rewrite Hn. reflexivity.
Qed.

Section Claims.
Variable castPath : heap -> string -> value -> list string.
Variable createSubRequest : Req -> option Req.
Variable cache_loadForm : Req -> string -> value -> loader.
Variable cache_loadSubmission : Req -> value -> value -> loader.
Variable resourcejs : string -> string -> option handler.
Variable evaluate : string -> heap -> value -> value -> outcome tree.
Variable refToString : heap -> loc -> string.

Local Abbreviation resolve' :=
  (resolve castPath createSubRequest cache_loadForm cache_loadSubmission
           resourcejs evaluate refToString).
Local Abbreviation load_then_save' :=
  (load_then_save castPath createSubRequest cache_loadForm cache_loadSubmission
                  resourcejs evaluate refToString).
Local Abbreviation load_stages' :=
  (load_stages castPath cache_loadForm cache_loadSubmission evaluate).
Local Abbreviation loadSubmission' :=
  (loadSubmission castPath cache_loadSubmission evaluate).
Local Abbreviation after_loads' :=
  (after_loads createSubRequest resourcejs refToString).
Local Abbreviation save_and_assign' :=
  (save_and_assign createSubRequest resourcejs refToString).
Local Abbreviation saveToResource' :=
  (saveToResource createSubRequest resourcejs refToString).
Local Abbreviation assignResource' := (assignResource refToString).
Local Abbreviation updateSubmission' := (updateSubmission castPath evaluate).
Local Abbreviation transform_data' := (transform_data evaluate).

(** Past its guards, [resolve] is the two series run from [entered w]. *)
Lemma resolve_entered s w :
  skipped (w_req w) = false →
  configured (resource s) = true →
  resolve' (Some s) w = load_then_save' s (entered w).
Proof.
  intros G C. unfold resolve. run_monad. rewrite G, C. reflexivity.
Qed.

(** C8, as the code has it: with no resource configured, a method other
    than POST, PUT and PATCH, or a request that opts out of saving,
    [resolve] calls [next()] at once and touches neither the store, the
    response nor the log (no load, no save); the request is unchanged when
    the first guard stops it and has [skipResource = false] when only the
    settings guard does. *)
Theorem resolve_pass_through this_settings w :
  match this_settings with
  | Some s => configured (resource s) = false
  | None => True
  end
  ∨ applicable (method (w_req w)) = false
  ∨ skipSave (w_req w) = true →
  resolve' this_settings w =
    (Ok None,
     if skipped (w_req w) then w
     else with_req (set_skipResource false (w_req w)) w).
Proof.
  intros H. unfold resolve, skipped. run_monad.
  destruct (skipSave (w_req w) || negb (truthy (body (w_req w)))
            || negb (applicable (method (w_req w)))) eqn:G; [done|].
  apply orb_false_elim in G as [G1 G3]. apply orb_false_elim in G1 as [G1 G2].
  destruct H as [H|[H|H]].
  - destruct this_settings as [s|]; [|done]. by rewrite H.
  - by rewrite H in G3.
  - by rewrite H in G1.
Qed.

Lemma truthy_not_nullish v : truthy v = true → nullish v = false.
Proof. by destruct v. Qed.

Lemma toString_ok v w :
  nullish v = false →
  toString refToString v w = (Ok (stringify refToString (w_heap w) v), w).
Proof. intros H. unfold toString. by rewrite H. Qed.

(** The child-save stage up to the choice of the endpoint. *)
Lemma saveToResource_cloned resource body childReq w :
  truthy body = true →
  createSubRequest (w_req w) = Some childReq →
  nullish resource = false →
  nullish (get_prop (w_heap w) resource "_id") = false →
  saveToResource' resource body w =
    let fid := stringify refToString (w_heap w) (get_prop (w_heap w) resource "_id") in
    let m := toLowerCase (method (w_req w)) in
    if String.eqb m "put" then
      if truthy (get_prop (w_heap w) body "_id") then
        dispatch resourcejs
          (with_submission (as_child childReq body fid) (get_prop (w_heap w) body "_id"))
          "/form/:formId/submission/:submissionId" m w
      else (Ok (Some (Code ENOIDP)), logged (EvLog (Some ENOIDP) (Code ENOIDP)) w)
    else dispatch resourcejs (as_child childReq body fid) "/form/:formId/submission" m w.
Proof.
  intros Hb Hc Hr Hi. unfold saveToResource. rewrite Hb. cbn [negb].
  unfold bind at 1, getReq at 1. rewrite Hc.
  rewrite (bind_ok _ _ _ _ _ (read_prop_ok _ _ _ Hr)).
  rewrite (bind_ok _ _ _ _ _ (toString_ok _ _ Hi)).
  cbv zeta. destruct (String.eqb (toLowerCase (method (w_req w))) "put"); [|done].
  rewrite (bind_ok _ _ _ _ _ (read_prop_ok _ _ _ (truthy_not_nullish _ Hb))).
  by destruct (truthy (get_prop (w_heap w) body "_id")).
Qed.

(** The new [{data: {}, roles: []}] is a new object; what was in the store
    is as it was. *)
Lemma new_submission_spec w :
  ∃ l h',
    new_submission w = (Ok (VRef l), with_heap h' w)
    ∧ w_heap w !! l = None
    ∧ (∀ v k, live (w_heap w) v = true → get_prop h' v k = get_prop (w_heap w) v k)
    ∧ (∀ v, live (w_heap w) v = true → live h' v = true).
Proof.
  unfold new_submission, bind, new.
  destruct (alloc (w_heap w) empty_object) as [l1 h1] eqn:E1.
  cbn [w_heap with_heap].
  destruct (alloc h1 empty_array) as [l2 h2] eqn:E2.
  cbn [w_heap with_heap].
  destruct (alloc h2 _) as [l3 h3] eqn:E3.
  exists l3, h3. split; [reflexivity|].
  pose proof (λ v, live_alloc _ _ _ _ v E1) as F1.
  pose proof (λ v, live_alloc _ _ _ _ v E2) as F2.
  pose proof (λ v, live_alloc _ _ _ _ v E3) as F3.
  split; [|split].
  - destruct (w_heap w !! l3) eqn:E; [|done]. exfalso.
    assert (L : live (w_heap w) (VRef l3) = true).
    { apply bool_decide_eq_true. by rewrite E. }
    apply F1, F2 in L. apply bool_decide_eq_true in L.
    apply alloc_inv in E3 as [E3 _]. rewrite E3 in L. by destruct L.
  - intros v k Hv.
    rewrite (get_prop_alloc _ _ _ _ _ _ E3) by auto.
    rewrite (get_prop_alloc _ _ _ _ _ _ E2) by auto.
    by rewrite (get_prop_alloc _ _ _ _ _ _ E1) by auto.
  - auto.
Qed.

(** [loadSubmission] on a PUT whose body has no [_id] or no [form]:
    nothing is loaded, no error is raised. *)
Lemma loadSubmission_put_skips s w :
  method (w_req w) = "PUT" →
  nullish (body (w_req w)) = false →
  live (w_heap w) (body (w_req w)) = true →
  truthy (get_prop (w_heap w) (body (w_req w)) "_id") = false
  ∨ truthy (get_prop (w_heap w) (body (w_req w)) "form") = false →
  loadSubmission' s w = (Ok None, (new_submission w).2).
Proof.
  intros Hm Hn Hl Hid. unfold loadSubmission.
  destruct (new_submission_spec w) as (l & h' & E & _ & Fg & _).
  rewrite (bind_ok _ _ _ _ _ E), E. unfold bind at 1, getReq at 1.
  cbn [w_req with_heap]. rewrite Hm. cbn [String.eqb Ascii.eqb Bool.eqb negb].
  rewrite (bind_ok _ _ _ _ _ (read_prop_ok _ _ _ Hn)).
  rewrite (bind_ok _ _ _ _ _ (read_prop_ok _ _ _ Hn)).
  cbn [w_heap with_heap]. rewrite !Fg by done.
  by destruct Hid as [-> | ->]; rewrite ?orb_true_r.
Qed.


Lemma resolve_after_loads s w e w1 :
  skipped (w_req w) = false →
  configured (resource s) = true →
  load_stages' s (entered w) = (Ok e, w1) →
  resolve' (Some s) w = after_loads' s e w1.
Proof.
  intros G C L. rewrite resolve_entered by done.
  unfold load_then_save. by rewrite (bind_ok _ _ _ _ _ L).
Qed.

Lemma after_loads_save s w :
  truthy (c_submission (w_cache w)) = true →
  after_loads' s None w = save_and_assign' s w.
Proof.
  intros H. unfold after_loads. unfold bind at 1, getCache at 1. by rewrite H.
Qed.

Lemma after_loads_skip s w :
  truthy (c_submission (w_cache w)) = false →
  after_loads' s None w = (Ok None, w).
Proof.
  intros H. unfold after_loads. unfold bind at 1, getCache at 1. by rewrite H.
Qed.

Lemma save_and_assign_error s w err w' :
  saveToResource' (c_resource (w_cache w)) (c_submission (w_cache w)) w
    = (Ok (Some err), w') →
  save_and_assign' s w = (Ok (Some err), w').
Proof.
  intros H. unfold save_and_assign. unfold bind at 1, getCache at 1.
  by rewrite (bind_ok _ _ _ _ _ H).
Qed.

(** C1: whenever the child-save stage runs and cloning the request
    fails, [done] receives [EREQRECUR]; the series hands it to [next], the
    link stage does not run, and the state only gains the log entry, so no
    handler is dispatched.  The cloner is arbitrary: the statement holds
    for every depth bound. *)
Theorem clone_failure_is_EREQRECUR s w w1 :
  skipped (w_req w) = false →
  configured (resource s) = true →
  load_stages' s (entered w) = (Ok None, w1) →
  truthy (c_submission (w_cache w1)) = true →
  createSubRequest (w_req w1) = None →
  saveToResource' (c_resource (w_cache w1)) (c_submission (w_cache w1)) w1
    = (Ok (Some (Code EREQRECUR)),
       logged (EvLog (Some EREQRECUR) (Code EREQRECUR)) w1)
  ∧ resolve' (Some s) w
    = (Ok (Some (Code EREQRECUR)),
       logged (EvLog (Some EREQRECUR) (Code EREQRECUR)) w1).
Proof.
  intros G C L Hb Hc.
  assert (S1 : saveToResource' (c_resource (w_cache w1)) (c_submission (w_cache w1)) w1
               = (Ok (Some (Code EREQRECUR)),
                  logged (EvLog (Some EREQRECUR) (Code EREQRECUR)) w1)).
  { unfold saveToResource. run_monad. rewrite Hb. simpl. by rewrite Hc. }
  split; [exact S1|].
  rewrite (resolve_after_loads _ _ _ _ G C L), after_loads_save by done.
  by apply save_and_assign_error.
Qed.


(** The child save when a handler is registered: the handler is called
    with the prepared clone, the response and the store, and its answer is
    the result of the stage. *)
Lemma saveToResource_answer resource' body' w childReq handle r h' res' :
  let m := toLowerCase (method (w_req w)) in
  let u := if String.eqb m "put" then "/form/:formId/submission/:submissionId"
           else "/form/:formId/submission" in
  let fid := stringify refToString (w_heap w) (get_prop (w_heap w) resource' "_id") in
  let bid := get_prop (w_heap w) body' "_id" in
  let child := child_request childReq body' fid
                 (if String.eqb m "put" then Some bid else None) u m in
  truthy body' = true →
  createSubRequest (w_req w) = Some childReq →
  nullish resource' = false →
  nullish (get_prop (w_heap w) resource' "_id") = false →
  (String.eqb m "put" = true → truthy bid = true) →
  resourcejs u m = Some handle →
  handle child (w_res w) (w_heap w) = (r, (h', res')) →
  saveToResource' resource' body' w
  = (r, with_res res' (with_heap h' (logged (EvDispatch u m child) w))).
Proof.
  intros m u fid bid child Hb Hc Hr Hi Hput Hh Ha.
  rewrite (saveToResource_cloned _ _ _ _ Hb Hc Hr Hi). cbv zeta. fold m fid bid.
  subst child u. destruct (String.eqb m "put") eqn:Em.
  - rewrite (Hput eq_refl). unfold dispatch. rewrite Hh.
    unfold bind, emit, call_handler. cbn [w_res w_heap logged].
    change (routed (with_submission (as_child childReq body' fid) bid)
              "/form/:formId/submission/:submissionId" m)
      with (child_request childReq body' fid (Some bid)
              "/form/:formId/submission/:submissionId" m).
    by rewrite Ha.
  - unfold dispatch. rewrite Hh.
    unfold bind, emit, call_handler. cbn [w_res w_heap logged].
    change (routed (as_child childReq body' fid) "/form/:formId/submission" m)
      with (child_request childReq body' fid None "/form/:formId/submission" m).
    by rewrite Ha.
Qed.

(** C9: the child request built by the child-save stage, the clone with
    the fields of lines 99-123, goes to the handler registered under the
    resolved url and the lower-cased method, with the response and the
    store of that moment; the dispatch is logged, and what the handler
    answers, in the store and with the response it leaves, is the result of
    the stage.  When no handler is registered the stage fails with
    [ENOHANDLER], which [next] receives without the link stage having
    run. *)
Theorem dispatch_or_ENOHANDLER s w childReq :
  let resource' := c_resource (w_cache w) in
  let body' := c_submission (w_cache w) in
  let m := toLowerCase (method (w_req w)) in
  let u := if String.eqb m "put" then "/form/:formId/submission/:submissionId"
           else "/form/:formId/submission" in
  let fid := stringify refToString (w_heap w) (get_prop (w_heap w) resource' "_id") in
  let bid := get_prop (w_heap w) body' "_id" in
  let child :=
    mkReq (toUpperCase m) u body' (skipSave childReq) (skipResource childReq)
          (isTransformedData childReq) (Some true) (Some true) (VStr fid)
          (if String.eqb m "put" then bid else subId childReq)
          (mkParams (VStr fid)
             (if String.eqb m "put" then bid else p_submissionId (params childReq)))
          (childRequests childReq) in
  truthy body' = true →
  createSubRequest (w_req w) = Some childReq →
  nullish resource' = false →
  nullish (get_prop (w_heap w) resource' "_id") = false →
  (String.eqb m "put" = true → truthy bid = true) →
  (∀ handle r h' res',
     resourcejs u m = Some handle →
     handle child (w_res w) (w_heap w) = (r, (h', res')) →
     saveToResource' resource' body' w
     = (r, with_res res' (with_heap h' (logged (EvDispatch u m child) w))))
  ∧ (resourcejs u m = None →
     save_and_assign' s w
     = (Ok (Some (Code ENOHANDLER)),
        logged (EvLog (Some ENOHANDLER) (Code ENOHANDLER)) w)).
Proof.
  intros resource' body' m u fid bid child Hb Hc Hr Hi Hput.
  assert (Ec : child = child_request childReq body' fid
                 (if String.eqb m "put" then Some bid else None) u m).
  { subst child. unfold child_request. by destruct (String.eqb m "put"). }
  split.
  - intros handle r h' res' Hh Ha. rewrite Ec in *.
    by apply (saveToResource_answer _ _ _ childReq handle).
  - intros Hh. apply save_and_assign_error. fold resource' body'.
    rewrite (saveToResource_cloned _ _ _ _ Hb Hc Hr Hi). cbv zeta. fold m.
    subst u. destruct (String.eqb m "put") eqn:Em.
    + fold bid. rewrite (Hput eq_refl). unfold dispatch. by rewrite Hh.
    + unfold dispatch. by rewrite Hh.
Qed.


Lemma try_catch_ok {A} (m : M A) handler w a w' :
  m w = (Ok a, w') → try_catch m handler w = (Ok a, w').
Proof. intros H. unfold try_catch. by rewrite H. Qed.

Lemma await_run (ld : loader) w r h :
  ld (w_heap w) = (r, h) → await ld w = (r, with_heap h w).
Proof. intros H. unfold await. by rewrite H. Qed.

Lemma find_external_absent h collection r :
  forallb (λ el, negb (strict_eq (get_prop h el "resource") r))
          (elements h collection) = true →
  find_external h collection r = VUndef.
Proof.
  unfold find_external. generalize (elements h collection).
  induction l as [|el l IH]; intros H; [done|]. cbn [List.find forallb] in *.
  apply andb_prop in H as [Hel H]. apply negb_true_iff in Hel.
  unfold matches_external. rewrite Hel, andb_false_r. by apply IH.
Qed.

(** [loadSubmission] on a PUT whose body has an [_id] and a [form]: the
    [try] block runs. *)
Lemma loadSubmission_put_loads s w :
  method (w_req w) = "PUT" →
  nullish (body (w_req w)) = false →
  live (w_heap w) (body (w_req w)) = true →
  truthy (get_prop (w_heap w) (body (w_req w)) "_id") = true →
  truthy (get_prop (w_heap w) (body (w_req w)) "form") = true →
  loadSubmission' s w =
    try_catch (load_linked castPath cache_loadSubmission evaluate s
                 (get_prop (w_heap w) (body (w_req w)) "form")
                 (get_prop (w_heap w) (body (w_req w)) "_id"))
              (λ err, emit (EvLog (Some ESUBLOAD) err) ;;; ret (Some err))
              (new_submission w).2.
Proof.
  intros Hm Hn Hl Hid Hform. unfold loadSubmission.
  destruct (new_submission_spec w) as (l & h' & E & _ & Fg & _).
  rewrite (bind_ok _ _ _ _ _ E), E. unfold bind at 1, getReq at 1.
  cbn [w_req with_heap]. rewrite Hm. cbn [String.eqb Ascii.eqb Bool.eqb negb].
  rewrite (bind_ok _ _ _ _ _ (read_prop_ok _ _ _ Hn)).
  rewrite (bind_ok _ _ _ _ _ (read_prop_ok _ _ _ Hn)).
  cbn [w_heap with_heap]. rewrite !Fg by done. by rewrite Hid, Hform.
Qed.

(** C7: on a PUT, a body without [_id] or without [form] (so a body with
    neither), a stored primary
    submission without a record for [settings.resource], and a linked
    child that cannot be found all end the stage with [then()]: the cache
    holds no submission, so [next()] is called without an error and
    without a child save; only submission loads are logged. *)
Theorem update_without_link_is_noop s w :
  method (w_req w) = "PUT" →
  nullish (body (w_req w)) = false →
  live (w_heap w) (body (w_req w)) = true →
  truthy (c_submission (w_cache w)) = false →
  nothing_to_update cache_loadSubmission s w →
  ∃ w', (e <- loadSubmission' s ;; after_loads' s e) w = (Ok None, w')
        ∧ w_cache w' = w_cache w
        ∧ w_req w' = w_req w
        ∧ w_res w' = w_res w
        ∧ ∃ loads, w_log w' = loads ++ w_log w
                   ∧ ∀ ev, ev ∈ loads → ∃ f i, ev = EvLoadSubmission f i.
Proof.
  intros Hm Hn Hl Hc H.
  destruct H as [Hmiss|(Hid & Hform & cur & h1 & L1 & Hcur & H)].
  - exists (new_submission w).2.
    rewrite (bind_ok _ _ _ _ _ (loadSubmission_put_skips s w Hm Hn Hl Hmiss)).
    destruct (new_submission_spec w) as (l & h' & E & _).
    rewrite E. cbn [snd]. rewrite after_loads_skip by done.
    repeat split; try done. exists []. split; [done|]. by intros ev ?%elem_of_nil.
  - pose proof (loadSubmission_put_loads s w Hm Hn Hl Hid Hform) as P.
    destruct (new_submission_spec w) as (l & h' & E & _).
    rewrite E in L1, P. cbn [snd w_heap with_heap] in L1, P.
    set (ev1 := EvLoadSubmission (get_prop (w_heap w) (body (w_req w)) "form")
                                 (get_prop (w_heap w) (body (w_req w)) "_id")).
    assert (A1 : await (cache_loadSubmission (w_req w)
                   (get_prop (w_heap w) (body (w_req w)) "form")
                   (get_prop (w_heap w) (body (w_req w)) "_id"))
                  (logged ev1 (with_heap h' w))
                 = (Ok cur, with_heap h1 (logged ev1 (with_heap h' w)))).
    { by apply await_run. }
    destruct H as [Habs|(Hext & sub & h2 & L2 & Hsub)].
    + eexists. erewrite bind_ok.
      2:{ rewrite P. apply try_catch_ok. unfold load_linked.
          unfold bind at 1, getReq at 1. unfold bind at 1, emit at 1.
          cbn [w_req with_heap]. fold ev1.
          rewrite (bind_ok _ _ _ _ _ A1).
          rewrite (bind_ok _ _ _ _ _ (read_prop_ok _ _ _ Hcur)).
          unfold bind at 1, getHeap at 1. cbn [w_heap with_heap logged].
          rewrite (find_external_absent _ _ _ Habs). reflexivity. }
      rewrite after_loads_skip by done.
      repeat split; try done. exists [ev1]. split; [done|].
      intros ev Hev%list_elem_of_singleton. subst ev. by eexists _, _.
    + set (ev2 := EvLoadSubmission (setting_value (resource s))
                    (get_prop h1 (find_external h1 (get_prop h1 cur "externalIds")
                                    (setting_value (resource s))) "id")).
      eexists. erewrite bind_ok.
      2:{ rewrite P. apply try_catch_ok. unfold load_linked.
          unfold bind at 1, getReq at 1. unfold bind at 1, emit at 1.
          cbn [w_req with_heap]. fold ev1.
          rewrite (bind_ok _ _ _ _ _ A1).
          rewrite (bind_ok _ _ _ _ _ (read_prop_ok _ _ _ Hcur)).
          unfold bind at 1, getHeap at 1. cbn [w_heap with_heap logged].
          rewrite Hext. cbn [negb].
          rewrite (bind_ok _ _ _ _ _ (read_prop_ok _ _ _ (truthy_not_nullish _ Hext))).
          cbn [w_heap with_heap logged]. unfold bind at 1, emit at 1. fold ev2.
          erewrite bind_ok; [|by apply await_run; cbn [w_heap logged with_heap]; apply L2].
          rewrite Hsub. reflexivity. }
      rewrite after_loads_skip by done.
      repeat split; try done. exists [ev2; ev1]. split; [done|].
      intros ev Hev. apply elem_of_cons in Hev as [->|Hev%list_elem_of_singleton];
        [|subst ev]; by eexists _, _.
Qed.

Section Link.
Variable s : Settings.

(** The end of the link step, once the array to push on is known. *)
Lemma link_tail w lb ob la oa n rr :
  body (w_req w) = VRef lb →
  w_heap w !! lb = Some ob →
  w_heap w !! la = Some oa →
  o_len oa = Some n →
  la ≠ lb →
  res_resource (w_res w) = rr →
  truthy (saved_item (w_heap w) (w_res w)) = true →
  nullish (get_prop (w_heap w) (saved_item (w_heap w) (w_res w)) "_id") = false →
  rr ≠ VRef lb →
  saved_item (w_heap w) (w_res w) ≠ VRef lb →
  ∃ l hs h',
    (write_prop (body (w_req w)) "externalIds" (VRef la) ;;;
     target <- read_prop (body (w_req w)) "externalIds" ;;
     h <- getHeap ;;
     iid <- read_prop (saved_item h (w_res w)) "_id" ;;
     id <- toString refToString iid ;;
     r <- new (external_record s id) ;;
     array_push target r) w = (Ok tt, with_heap h' w)
    ∧ w_heap w !! l = None
    ∧ h' !! l = Some (external_record s (stringify refToString hs
                 (get_prop (w_heap w) (saved_item (w_heap w) (w_res w)) "_id")))
    ∧ get_prop h' (VRef lb) "externalIds" = VRef la
    ∧ elements h' (VRef la) = elements (w_heap w) (VRef la) ++ [VRef l]
    ∧ (∀ l', l' ≠ lb → l' ≠ la → l' ≠ l → h' !! l' = w_heap w !! l').
Proof.
  intros Hb Hob Hoa Hn Hne Hrr Hit Hid Hrb Hib.
  set (h := w_heap w) in *.
  set (h3 := assign h lb "externalIds" (VRef la)).
  assert (A3 : ∀ l', l' ≠ lb → h3 !! l' = h !! l').
  { intros l' ?. by apply assign_lookup_ne. }
  assert (S3 : saved_item h3 (w_res w) = saved_item h (w_res w)).
  { unfold saved_item. rewrite Hrr. destruct (truthy rr); [|done].
    apply get_prop_agree. intros l' ->. apply A3. congruence. }
  assert (I3 : get_prop h3 (saved_item h (w_res w)) "_id"
               = get_prop h (saved_item h (w_res w)) "_id").
  { apply get_prop_agree. intros l' E. apply A3. congruence. }
  destruct (alloc h3 (external_record s (stringify refToString h3
              (get_prop h (saved_item h (w_res w)) "_id")))) as [l h4] eqn:E4.
  pose proof (alloc_inv _ _ _ _ E4) as [Hl ->].
  assert (Hla : l ≠ la).
  { intros ->. rewrite A3, Hoa in Hl; done. }
  assert (Hlb : l ≠ lb).
  { intros ->. unfold h3 in Hl. by rewrite (assign_lookup_eq _ _ _ _ _ Hob) in Hl. }
  exists l, h3. eexists. split; [|split; [|split; [|split; [|split]]]].
  - rewrite Hb. unfold write_prop. unfold bind at 1. unfold bind at 1, getHeap at 1.
    unfold putHeap at 1. fold h h3.
    rewrite (bind_ok _ _ _ _ _ (read_prop_ok (VRef lb) _ _ eq_refl)).
    cbn [w_heap with_heap]. unfold h3 at 1.
    rewrite get_prop_assign_eq by (by rewrite Hob). fold h3.
    unfold bind at 1, getHeap at 1. cbn [w_heap w_res with_heap].
    rewrite S3.
    rewrite (bind_ok _ _ _ _ _ (read_prop_ok _ _ _ (truthy_not_nullish _ Hit))).
    cbn [w_heap with_heap]. rewrite I3.
    rewrite (bind_ok _ _ _ _ _ (toString_ok _ _ Hid)).
    cbn [w_heap with_heap]. unfold bind at 1, new at 1. cbn [w_heap with_heap].
    rewrite E4. unfold array_push. unfold bind at 1, getHeap at 1.
    cbn [w_heap with_heap]. rewrite lookup_insert_ne by done.
    rewrite A3, Hoa, Hn by done. unfold putHeap. reflexivity.
  - rewrite <- A3 by done. done.
  - rewrite lookup_insert_ne by done. by rewrite lookup_insert_eq.
  - etrans; [apply (get_prop_agree h3)|].
    + intros l' [= <-]. rewrite lookup_insert_ne by done.
      by rewrite lookup_insert_ne by done.
    + unfold h3. apply get_prop_assign_eq. by rewrite Hob.
  - rewrite (elements_push _ _ oa n); [|by rewrite lookup_insert_ne, A3|done].
    f_equal. apply elements_agree. intros l' [= <-].
    by rewrite lookup_insert_ne, A3.
  - intros l' ? ? ?. by rewrite !lookup_insert_ne, A3.
Qed.


Lemma link_external_post w lb :
  method (w_req w) = "POST" →
  body (w_req w) = VRef lb →
  is_Some (w_heap w !! lb) →
  truthy (saved_item (w_heap w) (w_res w)) = true →
  nullish (get_prop (w_heap w) (saved_item (w_heap w) (w_res w)) "_id") = false →
  apart [VRef lb; get_prop (w_heap w) (VRef lb) "externalIds";
         res_resource (w_res w); saved_item (w_heap w) (w_res w)] = true →
  (truthy (get_prop (w_heap w) (VRef lb) "externalIds") = true →
   is_array (w_heap w) (get_prop (w_heap w) (VRef lb) "externalIds") = true) →
  ∃ l hs h',
    link_external refToString s w = (Ok tt, with_heap h' w)
    ∧ w_heap w !! l = None
    ∧ h' !! l = Some (external_record s (stringify refToString hs
                 (get_prop (w_heap w) (saved_item (w_heap w) (w_res w)) "_id")))
    ∧ elements h' (get_prop h' (VRef lb) "externalIds")
      = elements (w_heap w) (get_prop (w_heap w) (VRef lb) "externalIds") ++ [VRef l].
Proof.
  intros Hm Hb [ob Hob] Hit Hid Hap Harr.
  set (h := w_heap w) in *. set (ids := get_prop h (VRef lb) "externalIds") in *.
  cbn [apart forallb] in Hap. rewrite !andb_true_r in Hap.
  apply andb_prop in Hap as [Hap _].
  apply andb_prop in Hap as [H1 Hap]. apply andb_prop in Hap as [H2 H3].
  apply negb_true_iff in H1, H2, H3.
  pose proof (same_object_false _ _ H1 lb eq_refl) as N1.
  pose proof (same_object_false _ _ H2 lb eq_refl) as N2.
  pose proof (same_object_false _ _ H3 lb eq_refl) as N3.
  assert (P : link_external refToString s w =
    (arr <- (if truthy ids then ret ids else new empty_array) ;;
     write_prop (body (w_req w)) "externalIds" arr ;;;
     target <- read_prop (body (w_req w)) "externalIds" ;;
     h <- getHeap ;;
     iid <- read_prop (saved_item h (w_res w)) "_id" ;;
     id <- toString refToString iid ;;
     r <- new (external_record s id) ;;
     array_push target r) w).
  { unfold link_external. unfold bind at 1, getReq at 1. unfold bind at 1, getRes at 1.
    unfold bind at 1, getHeap at 1. fold h. rewrite Hm, Hit.
    cbn [String.eqb Ascii.eqb Bool.eqb andb].
    rewrite Hb. by rewrite (bind_ok _ _ _ _ _ (read_prop_ok (VRef lb) _ _ eq_refl)). }
  rewrite P. clear P.
  destruct (truthy ids) eqn:Tids.
  - specialize (Harr eq_refl). destruct ids as [| | | | |la] eqn:Eids; try done.
    unfold is_array in Harr. apply bool_decide_eq_true in Harr as [n Hn].
    destruct (h !! la) as [oa|] eqn:Hoa; [|done]. cbn in Hn.
    assert (Hne : la ≠ lb) by congruence.
    unfold bind at 1, ret at 1.
    destruct (link_tail w lb ob la oa n (res_resource (w_res w)))
      as (l & hs & h' & R & F1 & F2 & F3 & F4 & _); try done.
    exists l, hs, h'. rewrite Hb in R. rewrite Hb. rewrite R.
    repeat split; try done. by rewrite F3.
  - unfold bind at 1, new at 1. fold h.
    destruct (alloc h empty_array) as [la h2] eqn:E2.
    pose proof (alloc_inv _ _ _ _ E2) as [Hla ->].
    assert (Hne : la ≠ lb) by (intros ->; by rewrite Hob in Hla).
    assert (A2 : ∀ v, live h v = true → ∀ l', v = VRef l' → <[la:=empty_array]> h !! l' = h !! l').
    { intros v Hv l' ->. apply bool_decide_eq_true in Hv.
      rewrite lookup_insert_ne; [done|]. intros ->. rewrite Hla in Hv. by destruct Hv. }
    assert (Lrr : live h (res_resource (w_res w)) = true).
    { unfold saved_item in Hit. destruct (truthy (res_resource (w_res w))) eqn:T.
      - by apply truthy_live_prop in Hit.
      - by rewrite T in Hit. }
    assert (S2 : saved_item (<[la:=empty_array]> h) (w_res w) = saved_item h (w_res w)).
    { unfold saved_item. destruct (truthy (res_resource (w_res w))); [|done].
      apply get_prop_agree. by apply A2. }
    pose proof (not_nullish_live_prop _ _ _ Hid) as Lit.
    destruct (link_tail (with_heap (<[la:=empty_array]> h) w)
                lb ob la empty_array 0%N (res_resource (w_res w)))
      as (l & hs & h' & R & F1 & F2 & F3 & F4 & _); cbn [w_heap w_req w_res with_heap];
      try done.
    + by rewrite lookup_insert_ne.
    + by rewrite lookup_insert_eq.
    + by rewrite S2.
    + rewrite S2. erewrite get_prop_agree; [done|]. by apply A2.
    + by rewrite S2.
    + cbn [w_heap w_req w_res with_heap] in *. rewrite S2 in F2.
      erewrite (get_prop_agree h) in F2 by (by apply A2).
      exists l, hs, h'. rewrite Hb in R |- *. rewrite R.
      repeat split; try done.
      * destruct (decide (l = la)) as [->|?]; [by rewrite lookup_insert_eq in F1|].
        by rewrite lookup_insert_ne in F1.
      * rewrite F3, F4. rewrite (elements_falsy h ids) by done.
        unfold elements. by rewrite lookup_insert_eq.
Qed.


(** The property write changes one object, [req.body.data], if anything. *)
Lemma assign_property_ok resource' w :
  nullish (body (w_req w)) = false →
  (configured (property s) = true →
   isObject (get_prop (w_heap w) (body (w_req w)) "data") = true) →
  ∃ h1,
    assign_property s resource' w = (Ok tt, with_heap h1 w)
    ∧ (∀ v, (∀ l, get_prop (w_heap w) (body (w_req w)) "data" = VRef l → v ≠ VRef l) →
            ∀ l, v = VRef l → h1 !! l = w_heap w !! l)
    ∧ (∀ l, h1 !! l = None → w_heap w !! l = None).
Proof.
  intros Hn Hd. unfold assign_property. destruct (configured (property s)).
  - specialize (Hd eq_refl). unfold bind at 1, getReq at 1.
    rewrite (bind_ok _ _ _ _ _ (read_prop_ok _ _ _ Hn)).
    destruct (get_prop (w_heap w) (body (w_req w)) "data") as [| | | | |ld] eqn:E;
      try done.
    exists (assign (w_heap w) ld (setting (property s)) resource').
    split; [done|]. split.
    + intros v Hv l ->. apply assign_lookup_ne. intros ->. by apply (Hv ld).
    + intros l. apply assign_None.
  - exists (w_heap w). split; [by destruct w|done].
Qed.

Lemma link_external_skip w :
  String.eqb (method (w_req w)) "POST"
  && truthy (saved_item (w_heap w) (w_res w)) = false →
  link_external refToString s w = (Ok tt, w).
Proof.
  intros H. unfold link_external. unfold bind at 1, getReq at 1.
  unfold bind at 1, getRes at 1. unfold bind at 1, getHeap at 1. by rewrite H.
Qed.

Lemma assignResource_external_ids w r w' :
  let h := w_heap w in
  let b := body (w_req w) in
  let ids := get_prop h b "externalIds" in
  let item := saved_item h (w_res w) in
  isObject b = true →
  live h b = true →
  apart [b; get_prop h b "data"; ids; res_resource (w_res w); item] = true →
  (configured (property s) = true → isObject (get_prop h b "data") = true) →
  (truthy ids = true → is_array h ids = true) →
  (truthy item = true → nullish (get_prop h item "_id") = false) →
  assignResource refToString s w = (r, w') →
  if String.eqb (method (w_req w)) "POST" && truthy item
  then r = Ok None
       ∧ ∃ l hs,
           h !! l = None
           ∧ w_heap w' !! l
             = Some (external_record s (stringify refToString hs (get_prop h item "_id")))
           ∧ elements (w_heap w') (get_prop (w_heap w') b "externalIds")
             = elements h ids ++ [VRef l]
  else elements (w_heap w') (get_prop (w_heap w') b "externalIds") = elements h ids.
Proof.
  cbv zeta. destruct (body (w_req w)) as [| | | | |lb] eqn:Eb; try done.
  intros _ Hlb Hap Hprop Harr Hid Hrun.
  set (h := w_heap w) in *.
  set (ids := get_prop h (VRef lb) "externalIds") in *.
  set (item := saved_item h (w_res w)) in *.
  apply bool_decide_eq_true in Hlb.
  (* the objects involved are pairwise distinct *)
  cbn [apart forallb] in Hap. rewrite !andb_true_r in Hap.
  repeat match goal with
         | H : _ && _ = true |- _ => apply andb_prop in H as [? ?]
         end.
  repeat match goal with
         | H : negb _ = true |- _ => apply negb_true_iff in H
         end.
  (* the property write *)
  unfold assignResource in Hrun.
  unfold bind at 1, getRes at 1 in Hrun. unfold bind at 1, getCache at 1 in Hrun.
  unfold bind at 1, getHeap at 1 in Hrun. fold h item in Hrun.
  destruct (assign_property_ok (if truthy item then item else c_submission (w_cache w)) w)
    as (h1 & E1 & A1 & N1); [by rewrite Eb|by rewrite Eb|].
  fold h in A1, N1. rewrite Eb in A1.
  rewrite (bind_ok _ _ _ _ _ E1) in Hrun.
  assert (D : ∀ v, same_object (get_prop h (VRef lb) "data") v = false →
                   ∀ l, get_prop h (VRef lb) "data" = VRef l → v ≠ VRef l).
  { intros v Hv l El. rewrite El in Hv. by apply (same_object_false _ _ Hv). }
  assert (Hb1 : h1 !! lb = h !! lb).
  { apply (A1 (VRef lb)); [|done]. intros l El. 
    assert (same_object (VRef lb) (VRef l) = false) as Hs by by rewrite <- El.
    intros [= ->]. unfold same_object in Hs. by rewrite bool_decide_eq_true_2 in Hs. }
  assert (Hids : get_prop h1 (VRef lb) "externalIds" = ids).
  { unfold ids. apply get_prop_agree. by intros l [= <-]. }
  assert (Hrr : ∀ k, get_prop h1 (res_resource (w_res w)) k
                     = get_prop h (res_resource (w_res w)) k).
  { intros k. apply get_prop_agree. apply A1. by apply D. }
  assert (Hitem : saved_item h1 (w_res w) = item).
  { unfold item, saved_item. by rewrite Hrr. }
  assert (Hel : elements h1 ids = elements h ids).
  { apply elements_agree, A1. by apply D. }
  destruct (String.eqb (method (w_req w)) "POST" && truthy item) eqn:C.
  - apply andb_prop in C as [Cm Ci]. apply String.eqb_eq in Cm.
    destruct (link_external_post (with_heap h1 w) lb)
      as (l & hs & h' & R & F1 & F2 & F3); cbn [w_heap w_req w_res with_heap];
      rewrite ?Hitem, ?Hids; try done.
    + by rewrite Hb1.
    + etrans; [|exact (Hid Ci)]. f_equal. apply get_prop_agree, A1. by apply D.
    + cbn [apart forallb]. rewrite !andb_true_r.
      repeat (apply andb_true_intro; split); by apply negb_true_iff.
    + intros T. etrans; [|exact (Harr T)]. apply is_array_agree, A1. by apply D.
    + rewrite (bind_ok _ _ _ _ _ R) in Hrun. unfold ret in Hrun.
      injection Hrun as <- <-. split; [done|].
      cbn [w_heap w_req w_res with_heap] in *. rewrite Hitem, Hids in *.
      exists l, hs. split; [by apply N1|]. split.
      * rewrite F2. do 3 f_equal. apply get_prop_agree, A1. by apply D.
      * by rewrite F3, Hel.
  - erewrite bind_ok in Hrun.
    2:{ apply link_external_skip. cbn [w_heap w_req w_res with_heap]. by rewrite Hitem. }
    unfold ret in Hrun. injection Hrun as <- <-.
    cbn [w_heap with_heap]. by rewrite Hids.
Qed.
End Link.


(** C5, as the code has it: the link stage appends exactly one record
    [{type: 'resource', resource: settings.resource, id}] for the saved item
    at the end of [req.body.externalIds] on a POST whose child was saved,
    whatever records are already there, and leaves the sequence as it is on
    any other method or when nothing was saved.  The objects involved are
    distinct objects of the store, [externalIds] is an array when present,
    and the property write, if configured, has an object to write to. *)
Theorem link_stage_appends_once s w r w' :
  let h := w_heap w in
  let b := body (w_req w) in
  let ids := get_prop h b "externalIds" in
  let item := saved_item h (w_res w) in
  let ids' := elements (w_heap w') (get_prop (w_heap w') b "externalIds") in
  isObject b = true →
  live h b = true →
  apart [b; get_prop h b "data"; ids; res_resource (w_res w); item] = true →
  (configured (property s) = true → isObject (get_prop h b "data") = true) →
  (truthy ids = true → is_array h ids = true) →
  (truthy item = true → nullish (get_prop h item "_id") = false) →
  assignResource' s w = (r, w') →
  if String.eqb (method (w_req w)) "POST" && truthy item
  then r = Ok None
       ∧ length ids' = S (length (elements h ids))
       ∧ ∃ l hs,
           h !! l = None
           ∧ w_heap w' !! l
             = Some (external_record s (stringify refToString hs (get_prop h item "_id")))
           ∧ ids' = elements h ids ++ [VRef l]
  else ids' = elements h ids ∧ length ids' = length (elements h ids).
Proof.
  intros h b ids item ids' Hob Hlb Hap Hprop Harr Hid Hrun.
  pose proof (assignResource_external_ids s w r w' Hob Hlb Hap Hprop Harr Hid Hrun) as K.
  fold h b ids item ids' in K.
  destruct (String.eqb (method (w_req w)) "POST" && truthy item).
  - destruct K as (Hr & l & hs & Hl & Hrec & Happ). split; [exact Hr|]. split.
    + rewrite Happ, length_app. cbn [length]. lia.
    + by exists l, hs.
  - split; [exact K|]. by rewrite K.
Qed.

(** C6, as the code has it: one mapping [(key, field)] of
    [settings.fields].  When [field] is ['data'] the whole [req.body.data]
    is found at the segments of [key] in the child's data afterwards; when
    the primary's data has [field], the value found there is; an object
    or array is that value itself, a reference to the object the primary
    holds, not a copy.  When the primary's data has no [field] the store is
    as it was.  Objects missing on the way are created.  This holds for
    every key whose walk writes no property of an object twice (a key may
    repeat a segment; a store that leads the walk round a cycle can break
    the read), reads own properties only ([own_walk]) and has no segment
    [__proto__], [constructor] or [prototype]. *)
Theorem merge_field_assigns_the_value sub key field w ld :
  let h := w_heap w in
  let bd := get_prop h (body (w_req w)) "data" in
  let path := castPath h key (VRef ld) in
  nullish (body (w_req w)) = false →
  nullish sub = false →
  get_prop h sub "data" = VRef ld →
  live h (VRef ld) = true →
  closedb h = true →
  path ≠ [] →
  NoDup (steps h ld path) →
  own_walk h (Some ld) path = true →
  existsb forbidden path = false →
  ∃ h', merge_field castPath sub key field w = (Ok tt, with_heap h' w)
        ∧ if String.eqb field "data" then baseGet h' (VRef ld) path = bd
          else if has castPath h bd field
               then baseGet h' (VRef ld) path = get castPath h bd field
               else h' = h.
Proof.
  intros h bd path Hb Hs Hd Hl Hc Hne Hnd Hown Hf.
  apply bool_decide_eq_true in Hl. apply closedb_closed in Hc.
  assert (G : ∀ v, baseGet (baseSet_walk h ld path v) (VRef ld) path = v).
  { intros v. unfold baseGet. destruct path eqn:E; [done|]. rewrite <- E.
    apply baseSet_walk_read; try done; by rewrite E. }
  unfold merge_field. unfold bind at 1, getReq at 1.
  destruct (String.eqb field "data").
  - rewrite (bind_ok _ _ _ _ _ (read_prop_ok _ _ _ Hs)). fold h. rewrite Hd.
    rewrite (bind_ok _ _ _ _ _ (read_prop_ok _ _ _ Hb)). fold h bd.
    unfold bind at 1, getHeap at 1. fold h. unfold putHeap, set. fold path.
    eexists. split; [reflexivity|]. apply G.
  - rewrite (bind_ok _ _ _ _ _ (read_prop_ok _ _ _ Hb)). fold h bd.
    unfold bind at 1, getHeap at 1. fold h.
    destruct (has castPath h bd field).
    + rewrite (bind_ok _ _ _ _ _ (read_prop_ok _ _ _ Hs)). fold h. rewrite Hd.
      unfold putHeap, set. fold path. eexists. split; [reflexivity|]. apply G.
    + exists h. split; [by destruct w|done].
Qed.

(** The transform stage never fails, and when a transform is configured it
    asks the isolate. *)
Lemma transform_data_evaluates s sub w :
  configured (transform s) = true →
  nullish sub = false →
  ∃ w', transform_data' s sub w = (Ok tt, w')
        ∧ EvEvaluate (script_text (setting (transform s)))
            (if truthy (saved_item (w_heap w) (w_res w))
             then saved_item (w_heap w) (w_res w) else body (w_req w))
            (get_prop (w_heap w) sub "data") ∈ w_log w'.
Proof.
  intros C Hs. unfold transform_data. rewrite C.
  unfold bind at 1, getRes at 1. unfold bind at 1, getReq at 1.
  unfold bind at 1, getHeap at 1. unfold try_catch.
  rewrite (bind_ok _ _ _ _ _ (read_prop_ok _ _ _ Hs)).
  unfold bind at 1, emit at 1.
  set (ev := EvEvaluate _ _ _).
  destruct (evaluate _ _ _ _) as [t|err].
  - unfold bind at 1, getHeap at 1. cbn [w_heap logged].
    destruct (materialize t (w_heap w)) as [newData h'].
    unfold bind at 1, putHeap at 1.
    destruct sub as [| | | | |l]; try done;
      unfold write_prop, bind, throw, emit, getHeap, putHeap, getReq, putReq;
      (eexists; split; [reflexivity|]); cbn;
      repeat (apply elem_of_cons; first [by left | right]).
  - unfold throw, emit. eexists. split; [reflexivity|]. cbn.
    repeat (apply elem_of_cons; first [by left | right]).
Qed.


(** ** What every run leaves as it was

    The relations [trail] and [heap_only] are reflexive and transitive, so
    a stage built from steps that stay within one stays within it. *)

Lemma trail_refl w : trail w w.
Proof. split; [by exists []|by left]. Qed.

Lemma trail_trans w1 w2 w3 : trail w1 w2 → trail w2 w3 → trail w1 w3.
Proof.
  intros [(e1 & L1 & F1) R1] [(e2 & L2 & F2) R2]. split.
  - exists (e2 ++ e1). split; [by rewrite L2, L1, app_assoc|by apply Forall_app].
  - destruct R1 as [R1|R1], R2 as [R2|R2]; rewrite R2, R1; [by left|by right|by right|].
    right. by destruct (w_req w1).
Qed.

Lemma trail_heap w h : trail w (with_heap h w).
Proof. split; [by exists []|by left]. Qed.

Lemma trail_cache w c : trail w (with_cache c w).
Proof. split; [by exists []|by left]. Qed.

Lemma trail_mark w : trail w (with_req (set_isTransformedData true (w_req w)) w).
Proof. split; [by exists []|by right]. Qed.

Lemma trail_emit w ev : is_dispatch ev = false → trail w (logged ev w).
Proof.
  intros H. split; [|by left]. exists [ev]. split; [done|]. by apply Forall_singleton.
Qed.

Lemma heap_only_refl w : heap_only w w.
Proof. exists (w_heap w). by destruct w. Qed.

Lemma heap_only_trans w1 w2 w3 : heap_only w1 w2 → heap_only w2 w3 → heap_only w1 w3.
Proof. intros [h1 ->] [h2 ->]. by exists h2. Qed.

Create HintDb keeps discriminated.

Section Invariant.
Variable R : World -> World -> Prop.
Variable s : Settings.
Hypothesis R_refl : ∀ w, R w w.
Hypothesis R_trans : ∀ w1 w2 w3, R w1 w2 → R w2 w3 → R w1 w3.
Hypothesis R_heap : ∀ w h, R w (with_heap h w).

Lemma keeps_ret {A} (a : A) : keeps R (ret a).
Proof. intros w r w' [= <- <-]. apply R_refl. Qed.

Lemma keeps_throw {A} e : keeps R (@throw A e).
Proof. intros w r w' [= <- <-]. apply R_refl. Qed.

Lemma keeps_bind {A B} (m : M A) (f : A -> M B) :
  keeps R m → (∀ a, keeps R (f a)) → keeps R (bind m f).
Proof.
  intros Hm Hf w r w'. unfold bind. destruct (m w) as [[a|e] w1] eqn:E.
  - intros H. eapply R_trans; [by eapply Hm|by eapply Hf].
  - intros [= <- <-]. by eapply Hm.
Qed.

Lemma keeps_try_catch {A} (m : M A) (f : error -> M A) :
  keeps R m → (∀ e, keeps R (f e)) → keeps R (try_catch m f).
Proof.
  intros Hm Hf w r w'. unfold try_catch. destruct (m w) as [[a|e] w1] eqn:E.
  - intros [= <- <-]. by eapply Hm.
  - intros H. eapply R_trans; [by eapply Hm|by eapply Hf].
Qed.

Lemma keeps_getHeap : keeps R getHeap.
Proof. intros w r w' [= <- <-]. apply R_refl. Qed.

Lemma keeps_getReq : keeps R getReq.
Proof. intros w r w' [= <- <-]. apply R_refl. Qed.

Lemma keeps_getRes : keeps R getRes.
Proof. intros w r w' [= <- <-]. apply R_refl. Qed.

Lemma keeps_getCache : keeps R getCache.
Proof. intros w r w' [= <- <-]. apply R_refl. Qed.

Lemma keeps_putHeap h : keeps R (putHeap h).
Proof. intros w r w' [= <- <-]. apply R_heap. Qed.

Lemma keeps_new o : keeps R (new o).
Proof. intros w r w'. unfold new. destruct (alloc _ _). intros [= <- <-]. apply R_heap. Qed.

Lemma keeps_await ld : keeps R (await ld).
Proof. intros w r w'. unfold await. destruct (ld _). intros [= <- <-]. apply R_heap. Qed.
#[local] Hint Resolve keeps_ret keeps_throw keeps_getHeap keeps_getReq keeps_getRes
  keeps_getCache keeps_putHeap keeps_new keeps_await : keeps.

Ltac keeps_step :=
  lazymatch goal with
  | |- keeps _ (bind getReq (λ req, putReq (set_isTransformedData true req))) =>
      solve [auto with keeps]
  | |- keeps _ (bind _ _) => apply keeps_bind; [|intros ?; cbv beta]
  | |- keeps _ (try_catch _ _) => apply keeps_try_catch; [|intros ?; cbv beta]
  | |- keeps _ (if ?b then _ else _) => destruct b
  | |- keeps _ (let (_, _) := ?x in _) => destruct x
  | |- keeps _ (match ?x with _ => _ end) => destruct x
  | |- keeps _ _ => solve [auto with keeps]
  end.

Ltac keeps_auto := repeat keeps_step.

(** The stages that touch the store only. *)
Lemma keeps_read_prop target k : keeps R (read_prop target k).
Proof. unfold read_prop. keeps_auto. Qed.

Lemma keeps_write_prop target k v : keeps R (write_prop target k v).
Proof. unfold write_prop. keeps_auto. Qed.

Lemma keeps_toString v : keeps R (toString refToString v).
Proof. unfold toString. keeps_auto. Qed.

Lemma keeps_array_push target v : keeps R (array_push target v).
Proof. unfold array_push. keeps_auto. Qed.

Lemma keeps_new_submission : keeps R new_submission.
Proof. unfold new_submission. keeps_auto. Qed.
#[local] Hint Resolve keeps_read_prop keeps_write_prop keeps_toString keeps_array_push
  keeps_new_submission : keeps.

Lemma keeps_assign_property v : keeps R (assign_property s v).
Proof. unfold assign_property. keeps_auto. Qed.

Lemma keeps_link_external : keeps R (link_external refToString s).
Proof. unfold link_external. keeps_auto. Qed.
#[local] Hint Resolve keeps_assign_property keeps_link_external : keeps.

Lemma keeps_assignResource : keeps R (assignResource' s).
Proof. unfold assignResource. keeps_auto. Qed.

Lemma keeps_merge_field sub key field : keeps R (merge_field castPath sub key field).
Proof. unfold merge_field. keeps_auto. Qed.
#[local] Hint Resolve keeps_merge_field : keeps.

Lemma keeps_each_field sub fs : keeps R (each_field castPath sub fs).
Proof. induction fs as [|[key field] fs IH]; cbn [each_field]; keeps_auto. Qed.
#[local] Hint Resolve keeps_each_field : keeps.

(** The stages that also fill the cache, mark the request and log calls
    other than a dispatch. *)
Hypothesis R_cache : ∀ w c, R w (with_cache c w).
Hypothesis R_mark : ∀ w, R w (with_req (set_isTransformedData true (w_req w)) w).
Hypothesis R_emit : ∀ w ev, is_dispatch ev = false → R w (logged ev w).

Lemma keeps_putCache c : keeps R (putCache c).
Proof. intros w r w' [= <- <-]. apply R_cache. Qed.

Lemma keeps_mark : keeps R (req <- getReq ;; putReq (set_isTransformedData true req)).
Proof. intros w r w' [= <- <-]. apply R_mark. Qed.

Lemma keeps_emit ev : is_dispatch ev = false → keeps R (emit ev).
Proof. intros H w r w' [= <- <-]. by apply R_emit. Qed.
#[local] Hint Resolve keeps_putCache keeps_mark : keeps.
#[local] Hint Extern 1 (keeps _ (emit _)) => (apply keeps_emit; reflexivity) : keeps.

Lemma keeps_put_submission v : keeps R (put_submission v).
Proof. unfold put_submission. keeps_auto. Qed.

Lemma keeps_transform_data sub : keeps R (transform_data' s sub).
Proof. unfold transform_data. keeps_auto. Qed.
#[local] Hint Resolve keeps_put_submission keeps_transform_data : keeps.

Lemma keeps_updateSubmission sub : keeps R (updateSubmission' s sub).
Proof. unfold updateSubmission. keeps_auto. Qed.
#[local] Hint Resolve keeps_updateSubmission : keeps.

Lemma keeps_load_linked bform bid :
  keeps R (load_linked castPath cache_loadSubmission evaluate s bform bid).
Proof. unfold load_linked. keeps_auto. Qed.
#[local] Hint Resolve keeps_load_linked : keeps.

Lemma keeps_loadSubmission : keeps R (loadSubmission' s).
Proof. unfold loadSubmission. keeps_auto. Qed.
End Invariant.

Lemma assignResource_heap_only s : keeps heap_only (assignResource' s).
Proof.
  apply keeps_assignResource;
    [exact heap_only_refl|exact heap_only_trans|by intros w h; exists h].
Qed.

Lemma loadSubmission_trail s : keeps trail (loadSubmission' s).
Proof.
  apply keeps_loadSubmission;
    [exact trail_refl|exact trail_trans|exact trail_heap|exact trail_cache
    |exact trail_mark|exact trail_emit].
Qed.

(** ** The calls of a run, in order *)

Lemma upper_lower_applicable m : applicable m = true → toUpperCase (toLowerCase m) = m.
Proof.
  unfold applicable. intros H.
  apply orb_prop in H as [H|H]; [apply orb_prop in H as [H|H]|];
    apply String.eqb_eq in H; by subst m.
Qed.

Lemma dispatch_trace c u m w r w' :
  dispatch resourcejs c u m w = (r, w') →
  w_req w' = w_req w ∧ w_cache w' = w_cache w
  ∧ ((∃ e, w_log w' = EvLog (Some e) (Code e) :: w_log w ∧ r = Ok (Some (Code e)))
     ∨ w_log w' = EvDispatch u m (routed c u m) :: w_log w).
Proof.
  unfold dispatch. destruct (resourcejs u m) as [hd|].
  - unfold bind, emit, call_handler. cbn.
    destruct (hd _ _ _) as [r0 [h0 res0]]. intros [= <- <-]. cbn.
    split; [done|]. split; [done|]. by right.
  - intros [= <- <-]. cbn. split; [done|]. split; [done|]. left. by eexists.
Qed.

(** The child save leaves the request and the cache as they are, and logs
    nothing, one of its error codes, or the child request it hands over. *)
Lemma saveToResource_trace resource' body' w r w' :
  saveToResource' resource' body' w = (r, w') →
  w_req w' = w_req w ∧ w_cache w' = w_cache w
  ∧ (w_log w' = w_log w
     ∨ (∃ e, w_log w' = EvLog (Some e) (Code e) :: w_log w ∧ r = Ok (Some (Code e)))
     ∨ ∃ u m c, w_log w' = EvDispatch u m c :: w_log w
                ∧ handed_over createSubRequest refToString (w_req w) (w_heap w)
                    resource' body' u m c).
Proof.
  unfold saveToResource. destruct (truthy body') eqn:Tb; cbn [negb].
  2:{ intros [= <- <-]. repeat split; try done. by left. }
  unfold bind at 1, getReq at 1. destruct (createSubRequest (w_req w)) as [childReq|] eqn:Ec.
  2:{ intros [= <- <-]. repeat split; try done. right; left. by eexists. }
  unfold read_prop at 1. destruct (nullish resource') eqn:Nr.
  { intros [= <- <-]. repeat split; try done. by left. }
  unfold bind at 1. unfold bind at 1, getHeap at 1, ret at 1.
  unfold toString at 1. destruct (nullish (get_prop (w_heap w) resource' "_id")) eqn:Ni.
  { intros [= <- <-]. repeat split; try done. by left. }
  unfold bind at 1. unfold bind at 1, getHeap at 1, ret at 1. cbv zeta.
  destruct (String.eqb (toLowerCase (method (w_req w))) "put") eqn:Em.
  - rewrite (bind_ok _ _ _ _ _ (read_prop_ok _ _ _ (truthy_not_nullish _ Tb))).
    destruct (truthy (get_prop (w_heap w) body' "_id")) eqn:Ti.
    + intros H. apply dispatch_trace in H as (? & ? & H).
      repeat split; try done. right. destruct H as [H|H]; [by left|right].
      eexists _, _, _. split; [exact H|]. unfold handed_over. cbv zeta.
      repeat split; try done. exists childReq. split; [done|]. by rewrite Em.
    + intros [= <- <-]. repeat split; try done. right; left. by eexists.
  - intros H. apply dispatch_trace in H as (? & ? & H).
    repeat split; try done. right. destruct H as [H|H]; [by left|right].
    eexists _, _, _. split; [exact H|]. unfold handed_over. cbv zeta.
    repeat split; try done. exists childReq. split; [done|]. by rewrite Em.
Qed.

Lemma save_and_assign_trace s w r w' :
  save_and_assign' s w = (r, w') →
  w_req w' = w_req w ∧ w_cache w' = w_cache w
  ∧ last_call createSubRequest refToString w w'.
Proof.
  unfold save_and_assign. unfold bind at 1, getCache at 1. unfold bind.
  destruct (saveToResource' _ _ w) as [r1 w1] eqn:E1.
  apply saveToResource_trace in E1 as (Q1 & C1 & L1).
  assert (K : w_req w1 = w_req w ∧ w_cache w1 = w_cache w
              ∧ last_call createSubRequest refToString w w1).
  { split; [done|]. split; [done|]. unfold last_call.
    destruct L1 as [L1|[(e & L1 & _)|(u & m & c & L1 & Hc)]];
      [by left|right; left|right; right].
    - by eexists _, _.
    - by exists u, m, c. }
  destruct r1 as [[err|]|e]; [by intros [= <- <-]| |by intros [= <- <-]].
  intros [h ->]%assignResource_heap_only. done.
Qed.

Lemma after_loads_trace s e w r w' :
  after_loads' s e w = (r, w') →
  w_req w' = w_req w ∧ w_cache w' = w_cache w
  ∧ last_call createSubRequest refToString w w'.
Proof.
  unfold after_loads. destruct e as [err|].
  - intros [= <- <-]. split; [done|]. split; [done|]. right; left. by eexists _, _.
  - unfold bind at 1, getCache at 1. destruct (truthy (c_submission (w_cache w))).
    + apply save_and_assign_trace.
    + intros [= <- <-]. split; [done|]. split; [done|]. by left.
Qed.

Lemma loadResource_trace s w r w' :
  loadResource cache_loadForm s w = (r, w') →
  w_req w' = w_req w
  ∧ (r = Ok None ∨ ∃ err, r = Ok (Some err))
  ∧ ∃ evs, w_log w' = evs ++ EvLoadForm "resource" (setting_value (resource s)) :: w_log w
           ∧ Forall (λ ev, is_dispatch ev = false) evs.
Proof.
  unfold loadResource. unfold bind at 1, getReq at 1. unfold try_catch.
  unfold bind at 1, emit at 1. unfold bind at 1, await at 1. cbn [w_heap logged].
  destruct (cache_loadForm _ _ _ _) as [[f|err] h].
  - intros [= <- <-]. split; [done|]. split; [by left|]. by exists [].
  - intros [= <- <-]. split; [done|]. split; [right; by eexists|].
    eexists [_]. split; [done|]. by apply Forall_singleton.
Qed.

(** The first series: the form load comes first, and no call of it is a
    dispatch. *)
Lemma load_stages_trace s w r w' :
  load_stages' s w = (r, w') →
  same_request (w_req w) (w_req w')
  ∧ ∃ evs, w_log w' = evs ++ EvLoadForm "resource" (setting_value (resource s)) :: w_log w
           ∧ Forall (λ ev, is_dispatch ev = false) evs.
Proof.
  unfold load_stages. unfold bind at 1.
  destruct (loadResource _ _ w) as [r1 w1] eqn:E1.
  apply loadResource_trace in E1 as (Q1 & R1 & evs1 & L1 & F1).
  destruct R1 as [->|[err ->]].
  - intros [(evs2 & L2 & F2) Q2]%loadSubmission_trail. rewrite <- Q1. split; [done|].
    exists (evs2 ++ evs1). rewrite L2, L1, <- app_assoc. split; [done|]. by apply Forall_app.
  - intros [= <- <-]. rewrite Q1. split; [by left|]. by exists evs1.
Qed.

(** The two series: only the last call can be a dispatch, and what is
    dispatched is the child request prepared in the state the first series
    ends in. *)
Lemma load_then_save_trace s w r w' :
  load_then_save' s w = (r, w') →
  let w3 := (load_stages' s w).2 in
  same_request (w_req w) (w_req w')
  ∧ w_cache w' = w_cache w3
  ∧ ∃ evs, w_log w' = evs ++ EvLoadForm "resource" (setting_value (resource s)) :: w_log w
           ∧ Forall (λ ev, is_dispatch ev = false) (tail evs)
           ∧ ∀ u m c, head evs = Some (EvDispatch u m c) →
                      handed_over createSubRequest refToString (w_req w3) (w_heap w3)
                        (c_resource (w_cache w3)) (c_submission (w_cache w3)) u m c.
Proof.
  unfold load_then_save. unfold bind at 1.
  destruct (load_stages' s w) as [r3 w3] eqn:E3. cbn [snd].
  apply load_stages_trace in E3 as (Q3 & evs3 & L3 & F3).
  assert (Quiet : same_request (w_req w) (w_req w3) ∧ w_cache w3 = w_cache w3
            ∧ ∃ evs, w_log w3 = evs ++ EvLoadForm "resource" (setting_value (resource s)) :: w_log w
                     ∧ Forall (λ ev, is_dispatch ev = false) (tail evs)
                     ∧ ∀ u m c, head evs = Some (EvDispatch u m c) →
                                handed_over createSubRequest refToString (w_req w3) (w_heap w3)
                                  (c_resource (w_cache w3)) (c_submission (w_cache w3)) u m c).
  { split; [done|]. split; [done|]. exists evs3. split; [done|].
    split; [by apply Forall_tail|]. intros u m c Hh.
    destruct evs3 as [|ev l]; [done|]. injection Hh as ->.
    by apply Forall_cons in F3 as [? _]. }
  destruct r3 as [e|e]; [|by intros [= <- <-]].
  intros (Q4 & C4 & L4)%after_loads_trace. rewrite Q4. split; [done|]. split; [done|].
  destruct L4 as [L4|[(code & err & L4)|(u & m & c & L4 & Hc)]].
  - destruct Quiet as (_ & _ & evs & L & F & Hd). exists evs. by rewrite L4.
  - exists (EvLog code err :: evs3). rewrite L4, L3. split; [done|]. split; [done|].
    by intros u m c.
  - exists (EvDispatch u m c :: evs3). rewrite L4, L3. split; [done|]. split; [done|].
    by intros u' m' c' [= <- <- <-].
Qed.

(** X1: of the fields of the request itself, [resolve] writes two and no
    other: [skipResource], which is left as it was when the first guard
    stops the run, is [false] when only the settings guard does and is
    [true] after every run that reaches the loads, whatever its outcome; and
    [isTransformedData], which is left as it was or set to [true].  The
    method, the url, the body, [skipSave], [formId] and [subId] are those of
    the request handed in, and no call logged before the run is lost.  The
    object [req.params] is not covered: the clone of the request may share
    it, and the child save writes the clone's parameters. *)
Theorem resolve_writes_two_flags this_settings w :
  let w' := (resolve' this_settings w).2 in
  but_flags (w_req w') = but_flags (w_req w)
  ∧ skipResource (w_req w')
    = (if skipped (w_req w) then skipResource (w_req w)
       else Some (match this_settings with
                  | Some s => configured (resource s)
                  | None => false
                  end))
  ∧ (isTransformedData (w_req w') = isTransformedData (w_req w)
     ∨ isTransformedData (w_req w') = Some true)
  ∧ ∃ evs, w_log w' = evs ++ w_log w.
Proof.
  cbv zeta. destruct (skipped (w_req w)) eqn:G.
  { unfold resolve. run_monad. rewrite G. cbn. repeat split; [by left|by exists []]. }
  assert (Stop : ∀ w0, w0 = with_req (set_skipResource false (w_req w)) w →
            but_flags (w_req w0) = but_flags (w_req w)
            ∧ skipResource (w_req w0) = Some false
            ∧ (isTransformedData (w_req w0) = isTransformedData (w_req w)
               ∨ isTransformedData (w_req w0) = Some true)
            ∧ ∃ evs, w_log w0 = evs ++ w_log w).
  { intros w0 ->. cbn. repeat split; [by left|by exists []]. }
  destruct this_settings as [s|]; [destruct (configured (resource s)) eqn:C|].
  - rewrite resolve_entered by done.
    destruct (load_then_save' s (entered w)) as [r w'] eqn:E.
    apply load_then_save_trace in E as (Q & _ & evs & L & _). cbn [snd].
    split; [|split; [|split]].
    + by destruct Q as [->| ->].
    + by destruct Q as [->| ->].
    + destruct Q as [->| ->]; [by left|by right].
    + rewrite L. cbn [entered w_log with_req with_cache].
      exists (evs ++ [EvLoadForm "resource" (setting_value (resource s))]).
      by rewrite <- app_assoc.
  - apply Stop. unfold resolve. run_monad. by rewrite G, C.
  - apply Stop. unfold resolve. run_monad. by rewrite G.
Qed.

Lemma filter_dispatch_nil evs :
  Forall (λ ev, is_dispatch ev = false) evs → List.filter is_dispatch evs = [].
Proof.
  induction 1 as [|ev evs H _ IH]; [done|]. cbn [List.filter]. by rewrite H.
Qed.

(** X2: past the guards, the first call of a run is the load of the form
    named by [settings.resource], before any submission is loaded, any
    script evaluated or any handler called, and the whole run hands at most
    one child request to a resource handler. *)
Theorem form_load_first_one_dispatch s w :
  skipped (w_req w) = false →
  configured (resource s) = true →
  ∃ evs, w_log (resolve' (Some s) w).2
         = evs ++ EvLoadForm "resource" (setting_value (resource s)) :: w_log w
         ∧ (length (List.filter is_dispatch evs) <= 1)%nat.
Proof.
  intros G C. rewrite resolve_entered by done.
  destruct (load_then_save' s (entered w)) as [r w'] eqn:E.
  apply load_then_save_trace in E as (_ & _ & evs & L & F & _). cbn [snd].
  exists evs. split; [exact L|].
  destruct evs as [|ev evs]; [cbn; lia|]. cbn [tail] in F. cbn [List.filter].
  rewrite (filter_dispatch_nil _ F). destruct (is_dispatch ev); cbn; lia.
Qed.

(** X3: every child request a run hands to a resource handler is the
    clone of the request as the first series left it, prepared for the
    cached form and the cached child submission: marked [permissionsChecked]
    and [noResponse], with the child submission, which is truthy, as its
    body, the method of the primary request as its method, and the [_id] of
    the cached form, as a string, in [formId] and [params.formId].  On a PUT
    it goes to the url by identifier, and [subId] and [params.submissionId]
    are the [_id] of the child, which is truthy; otherwise it goes to the
    create url.  Every other field is the clone's. *)
Theorem dispatched_child_is_prepared s w evs u m c :
  let w3 := (load_stages' s (entered w)).2 in
  let form := c_resource (w_cache w3) in
  let child := c_submission (w_cache w3) in
  let fid := stringify refToString (w_heap w3) (get_prop (w_heap w3) form "_id") in
  let bid := get_prop (w_heap w3) child "_id" in
  skipped (w_req w) = false →
  configured (resource s) = true →
  w_log (resolve' (Some s) w).2 = evs ++ w_log w →
  EvDispatch u m c ∈ evs →
  truthy child = true
  ∧ nullish (get_prop (w_heap w3) form "_id") = false
  ∧ m = toLowerCase (method (w_req w))
  ∧ u = (if String.eqb m "put" then "/form/:formId/submission/:submissionId"
         else "/form/:formId/submission")
  ∧ (String.eqb m "put" = true → truthy bid = true)
  ∧ ∃ clone,
      createSubRequest (w_req w3) = Some clone
      ∧ c = mkReq (method (w_req w)) u child (skipSave clone) (skipResource clone)
                  (isTransformedData clone) (Some true) (Some true) (VStr fid)
                  (if String.eqb m "put" then bid else subId clone)
                  (mkParams (VStr fid)
                     (if String.eqb m "put" then bid else p_submissionId (params clone)))
                  (childRequests clone).
Proof.
  cbv zeta. intros G C L Hin. rewrite resolve_entered in L by done.
  destruct (load_then_save' s (entered w)) as [r w'] eqn:E.
  apply load_then_save_trace in E as (_ & _ & evs0 & L0 & F & Hd). cbn [snd] in *.
  cbv zeta in Hd. rewrite L0 in L. cbn [entered w_log with_req with_cache] in L.
  change (evs0 ++ ?e :: w_log w) with (evs0 ++ [e] ++ w_log w) in L.
  rewrite app_assoc in L. apply app_inv_tail in L. subst evs.
  apply elem_of_app in Hin as [Hin|Hin%list_elem_of_singleton]; [|done].
  destruct evs0 as [|ev evs0]; [by apply elem_of_nil in Hin|].
  apply elem_of_cons in Hin as [<-|Hin].
  2:{ cbn [tail] in F. rewrite Forall_forall in F. by specialize (F _ Hin). }
  destruct (Hd u m c eq_refl) as (Tb & _ & Ni & Hm & clone & Hc & Hput).
  assert (Q : method (w_req (load_stages' s (entered w)).2) = method (w_req w)).
  { destruct (load_stages' s (entered w)) as [r3 w3] eqn:E3.
    cbn [snd]. apply load_stages_trace in E3 as ([Q|Q] & _); by rewrite Q. }
  rewrite Q in Hm.
  assert (U : toUpperCase m = method (w_req w)).
  { rewrite Hm. apply upper_lower_applicable. unfold skipped in G.
    apply orb_false_elim in G as [_ G]. by apply negb_false_iff in G. }
  split; [done|]. split; [done|]. split; [done|].
  destruct (String.eqb m "put").
  - destruct Hput as (-> & Ti & ->). split; [done|]. split; [done|].
    exists clone. split; [done|]. unfold child_request. by rewrite U.
  - destruct Hput as (-> & ->). split; [done|]. split; [done|].
    exists clone. split; [done|]. unfold child_request. by rewrite U.
Qed.

(** X4: when the form cache rejects the load of [settings.resource],
    [next] receives the error of the cache itself; the code [EFORMLOAD] is
    only logged.  The run ends there: no submission is created, loaded or
    saved, and the cache of the run stays empty. *)
Theorem form_load_failure_ends_the_run s w err h' :
  skipped (w_req w) = false →
  configured (resource s) = true →
  cache_loadForm (w_req (entered w)) "resource" (setting_value (resource s)) (w_heap w)
    = (Thrown err, h') →
  resolve' (Some s) w
  = (Ok (Some err),
     logged (EvLog None err)
       (logged (EvLog (Some EFORMLOAD) err)
          (with_heap h'
             (logged (EvLoadForm "resource" (setting_value (resource s))) (entered w))))).
Proof.
  intros G C L. rewrite resolve_entered by done.
  unfold load_then_save, load_stages, loadResource.
  unfold bind at 1. unfold bind at 1. unfold bind at 1, getReq at 1.
  unfold try_catch. unfold bind at 1, emit at 1. unfold bind at 1, await at 1.
  cbn [w_heap w_req logged entered with_req with_cache] in *. by rewrite L.
Qed.

(** X5: on a PUT whose body has an [_id] and a [form], a rejected load of
    the stored primary submission, or of the child it is linked to, is
    caught: [ESUBLOAD] is logged with the error of the cache, [next]
    receives that error, nothing is cached and no child is saved. *)
Theorem rejected_load_is_passed_on s w err :
  method (w_req w) = "PUT" →
  nullish (body (w_req w)) = false →
  live (w_heap w) (body (w_req w)) = true →
  truthy (get_prop (w_heap w) (body (w_req w)) "_id") = true →
  truthy (get_prop (w_heap w) (body (w_req w)) "form") = true →
  load_rejected cache_loadSubmission s w err →
  ∃ w' loads,
    (e <- loadSubmission' s ;; after_loads' s e) w = (Ok (Some err), w')
    ∧ w_cache w' = w_cache w
    ∧ w_req w' = w_req w
    ∧ w_res w' = w_res w
    ∧ w_log w' = EvLog None err :: EvLog (Some ESUBLOAD) err :: loads ++ w_log w
    ∧ Forall (λ ev, ∃ f i, ev = EvLoadSubmission f i) loads.
Proof.
  intros Hm Hn Hl Hid Hform H.
  pose proof (loadSubmission_put_loads s w Hm Hn Hl Hid Hform) as P.
  destruct (new_submission_spec w) as (l & h0 & E & _).
  unfold load_rejected in H. rewrite E in H, P. cbn [snd w_heap with_heap] in H, P.
  set (ev1 := EvLoadSubmission (get_prop (w_heap w) (body (w_req w)) "form")
                               (get_prop (w_heap w) (body (w_req w)) "_id")).
  destruct H as [(h1 & L1)|(cur & h1 & L1 & Hcur & Hext & h2 & L2)].
  - eexists _, [ev1]. erewrite bind_ok.
    2:{ rewrite P. unfold try_catch, load_linked.
        unfold bind at 1, getReq at 1. unfold bind at 1, emit at 1.
        cbn [w_req with_heap]. fold ev1.
        erewrite bind_thrown; [|by apply await_run; cbn [w_heap logged with_heap]; apply L1].
        reflexivity. }
    unfold after_loads, bind, emit, ret. cbn.
    repeat split; try done. apply Forall_singleton. by eexists _, _.
  - set (ev2 := EvLoadSubmission (setting_value (resource s))
                  (get_prop h1 (find_external h1 (get_prop h1 cur "externalIds")
                                  (setting_value (resource s))) "id")).
    eexists _, [ev2; ev1]. erewrite bind_ok.
    2:{ rewrite P. unfold try_catch, load_linked.
        unfold bind at 1, getReq at 1. unfold bind at 1, emit at 1.
        cbn [w_req with_heap]. fold ev1.
        erewrite bind_ok; [|by apply await_run; cbn [w_heap logged with_heap]; apply L1].
        rewrite (bind_ok _ _ _ _ _ (read_prop_ok _ _ _ Hcur)).
        unfold bind at 1, getHeap at 1. cbn [w_heap with_heap logged].
        rewrite Hext. cbn [negb].
        rewrite (bind_ok _ _ _ _ _ (read_prop_ok _ _ _ (truthy_not_nullish _ Hext))).
        cbn [w_heap with_heap logged]. unfold bind at 1, emit at 1. fold ev2.
        erewrite bind_thrown; [|by apply await_run; cbn [w_heap logged with_heap]; apply L2].
        reflexivity. }
    unfold after_loads, bind, emit, ret. cbn.
    repeat split; try done. apply Forall_cons. split; [by eexists _, _|].
    apply Forall_singleton. by eexists _, _.
Qed.

(** X6: on a PUT whose body has an [_id] and a [form], a stored primary
    submission that the cache resolves to [null] or [undefined] is an
    error, unlike a missing child: reading its [externalIds] raises a type
    error, which is caught, logged as [ESUBLOAD] and handed to [next]. *)
Theorem missing_primary_is_an_error s w cur h1 :
  method (w_req w) = "PUT" →
  nullish (body (w_req w)) = false →
  live (w_heap w) (body (w_req w)) = true →
  truthy (get_prop (w_heap w) (body (w_req w)) "_id") = true →
  truthy (get_prop (w_heap w) (body (w_req w)) "form") = true →
  cache_loadSubmission (w_req w) (get_prop (w_heap w) (body (w_req w)) "form")
    (get_prop (w_heap w) (body (w_req w)) "_id") (w_heap (new_submission w).2)
    = (Ok cur, h1) →
  nullish cur = true →
  ∃ what w',
    (e <- loadSubmission' s ;; after_loads' s e) w = (Ok (Some (TypeError what)), w')
    ∧ w_cache w' = w_cache w
    ∧ w_log w' = EvLog None (TypeError what) :: EvLog (Some ESUBLOAD) (TypeError what)
                 :: EvLoadSubmission (get_prop (w_heap w) (body (w_req w)) "form")
                                     (get_prop (w_heap w) (body (w_req w)) "_id")
                 :: w_log w.
Proof.
  intros Hm Hn Hl Hid Hform L1 Hcur.
  pose proof (loadSubmission_put_loads s w Hm Hn Hl Hid Hform) as P.
  destruct (new_submission_spec w) as (l & h0 & E & _).
  rewrite E in L1, P. cbn [snd w_heap with_heap] in L1, P.
  eexists _, _. erewrite bind_ok.
  2:{ rewrite P. unfold try_catch, load_linked.
      unfold bind at 1, getReq at 1. unfold bind at 1, emit at 1.
      cbn [w_req with_heap].
      erewrite bind_ok; [|by apply await_run; cbn [w_heap logged with_heap]; apply L1].
      unfold read_prop at 1. rewrite Hcur. unfold bind at 1, throw at 1.
      reflexivity. }
  unfold after_loads, bind, emit, ret. cbn. done.
Qed.


(** ** The field merge *)

Lemma with_heap_same w : with_heap (w_heap w) w = w.
Proof. by destruct w. Qed.

(** One mapping changes the store by one [_.set], if at all. *)
Lemma merge_field_heap sub key field w r w' :
  merge_field castPath sub key field w = (r, w') →
  ∃ d v, w' = with_heap (set castPath (w_heap w) d key v) w.
Proof.
  assert (Same : ∃ d v, w = with_heap (set castPath (w_heap w) d key v) w).
  { exists VUndef, VUndef. unfold set. by rewrite with_heap_same. }
  unfold merge_field. unfold bind at 1, getReq at 1.
  destruct (String.eqb field "data").
  - unfold read_prop at 1. destruct (nullish sub); [by intros [= <- <-]|].
    unfold bind at 1. unfold bind at 1, getHeap at 1, ret at 1.
    unfold read_prop at 1. destruct (nullish (body (w_req w))); [by intros [= <- <-]|].
    unfold bind at 1. unfold bind at 1, getHeap at 1, ret at 1.
    unfold bind at 1, getHeap at 1. intros [= <- <-]. by eexists _, _.
  - unfold read_prop at 1. destruct (nullish (body (w_req w))); [by intros [= <- <-]|].
    unfold bind at 1. unfold bind at 1, getHeap at 1, ret at 1.
    unfold bind at 1, getHeap at 1. destruct (has castPath _ _ _); [|by intros [= <- <-]].
    unfold read_prop at 1. destruct (nullish sub); [by intros [= <- <-]|].
    unfold bind at 1. unfold bind at 1, getHeap at 1, ret at 1.
    intros [= <- <-]. by eexists _, _.
Qed.

Lemma prop_lookup_alloc_empty h o l h' l0 k :
  alloc h o = (l, h') → o_props o = ∅ → prop_lookup h' l0 k = prop_lookup h l0 k.
Proof.
  intros [Hf ->]%alloc_inv Ho. unfold prop_lookup.
  destruct (decide (l0 = l)) as [->|Hne].
  - rewrite lookup_insert_eq, Hf. cbn. by rewrite Ho.
  - by rewrite lookup_insert_ne.
Qed.

(** A walk writes no property named [__proto__], [constructor] or
    [prototype], wherever the name stands on the path. *)
Lemma baseSet_walk_forbidden path : ∀ h n v l0 k0,
  forbidden k0 = true →
  prop_lookup (baseSet_walk h n path v) l0 k0 = prop_lookup h l0 k0.
Proof.
  induction path as [|k rest IH]; intros h n v l0 k0 Hk0; [done|].
  cbn [baseSet_walk]. destruct (forbidden k) eqn:Hk; [done|].
  assert (Hne : k0 ≠ k) by (intros ->; congruence).
  destruct rest as [|k' rest'].
  - by apply prop_lookup_assign_ne.
  - destruct (get_prop h (VRef n) k) as [| | | | |l'] eqn:G.
    6:{ by rewrite IH, prop_lookup_assign_ne. }
    all: destruct (alloc h _) as [l' h1] eqn:E;
      rewrite IH, prop_lookup_assign_ne by done;
      apply (prop_lookup_alloc_empty _ _ _ _ _ _ E); by destruct (isIndex k').
Qed.

(** X8: the field merge never writes a property named [__proto__],
    [constructor] or [prototype], whatever the keys of [settings.fields]
    are and however they are cut into segments: after the loop every object
    has under these names what it had before. *)
Theorem merge_never_writes_forbidden_keys sub fs w l k :
  forbidden k = true →
  prop_lookup (w_heap (each_field castPath sub fs w).2) l k = prop_lookup (w_heap w) l k.
Proof.
  intros Hk. revert w. induction fs as [|[key field] fs IH]; intros w; [done|].
  cbn [each_field]. unfold bind.
  destruct (merge_field castPath sub key field w) as [r w1] eqn:E.
  assert (H1 : prop_lookup (w_heap w1) l k = prop_lookup (w_heap w) l k).
  { apply merge_field_heap in E as (d & v & ->). cbn [w_heap with_heap].
    unfold set. destruct d; try done. by apply baseSet_walk_forbidden. }
  destruct r as [[]|e]; [|done]. by rewrite IH.
Qed.

(** The loop over mappings whose source fields the primary does not have. *)
Lemma each_field_absent sub fs w :
  nullish (body (w_req w)) = false →
  forallb (λ kf : string * string,
             negb (String.eqb kf.2 "data")
             && negb (has castPath (w_heap w)
                        (get_prop (w_heap w) (body (w_req w)) "data") kf.2)) fs = true →
  each_field castPath sub fs w = (Ok tt, w).
Proof.
  intros Hb. induction fs as [|[key field] fs IH]; intros H; [done|].
  cbn [forallb fst snd] in H. apply andb_prop in H as [H Hfs].
  apply andb_prop in H as [Hd Hh]. apply negb_true_iff in Hd, Hh.
  cbn [each_field]. erewrite bind_ok; [by apply IH|].
  unfold merge_field. unfold bind at 1, getReq at 1. rewrite Hd.
  rewrite (bind_ok _ _ _ _ _ (read_prop_ok _ _ _ Hb)).
  unfold bind at 1, getHeap at 1. by rewrite Hh.
Qed.

Lemma assign_same h l k v :
  prop_lookup h l k = Some v → parse_index k = None → assign h l k v = h.
Proof.
  unfold prop_lookup, assign. destruct (h !! l) as [o|] eqn:Ho; [|done]. cbn.
  intros Hk Hi. apply insert_id. rewrite Ho. f_equal. unfold put. rewrite Hi.
  rewrite insert_id by done. destruct o as [[n|] ps]; done.
Qed.

Lemma truthy_data_lookup h v :
  truthy (get_prop h v "data") = true →
  ∃ l, v = VRef l ∧ prop_lookup h l "data" = Some (get_prop h v "data").
Proof.
  destruct v as [| | | |s|l]; try (intros H; by vm_compute in H).
  intros H. exists l. split; [done|]. revert H. unfold get_prop, prop_lookup.
  destruct (h !! l) as [o|]; [|done]. cbn.
  destruct (o_props o !! "data"); [done|]. by destruct (o_len o).
Qed.

(** X9: a child submission that has data is returned as it is, the same
    object in an unchanged state, when no transform is configured and the
    primary has none of the mapped source fields (and none is the whole
    [data]): fields the primary lacks are not written, not even as
    [undefined]. *)
Theorem update_without_sources_is_identity s sub w :
  nullish (body (w_req w)) = false →
  truthy (get_prop (w_heap w) sub "data") = true →
  configured (transform s) = false →
  forallb (λ kf : string * string,
             negb (String.eqb kf.2 "data")
             && negb (has castPath (w_heap w)
                        (get_prop (w_heap w) (body (w_req w)) "data") kf.2))
          (fields s) = true →
  updateSubmission' s sub w = (Ok sub, w).
Proof.
  intros Hb Hd Ht Hf.
  destruct (truthy_data_lookup _ _ Hd) as (l & -> & Hl).
  unfold updateSubmission. cbn [truthy]. unfold bind at 1, ret at 1.
  rewrite (bind_ok _ _ _ _ _ (read_prop_ok (VRef l) _ _ eq_refl)). rewrite Hd.
  unfold bind at 1, ret at 1. unfold write_prop. unfold bind at 1.
  unfold bind at 1, getHeap at 1. unfold putHeap at 1.
  rewrite assign_same by done. rewrite with_heap_same.
  rewrite (bind_ok _ _ _ _ _ (each_field_absent _ _ _ Hb Hf)).
  unfold transform_data. by rewrite Ht.
Qed.

(** ** The transform that succeeds *)

Lemma tree_ind_nested (P : tree -> Prop) :
  P TUndef → P TNull → (∀ b, P (TBool b)) → (∀ n, P (TNum n)) → (∀ s, P (TStr s)) →
  (∀ ps, Forall (λ kv : string * tree, P kv.2) ps → P (TObj ps)) →
  (∀ es, Forall P es → P (TArr es)) →
  ∀ t, P t.
Proof.
  intros HU HN HB HZ HS HO HA. fix IH 1.
  intros [| |b|n|s|ps|es]; [exact HU|exact HN|apply HB|apply HZ|apply HS| |].
  - apply HO. induction ps as [|[k t] ps IHps]; constructor; [apply IH|exact IHps].
  - apply HA. induction es as [|t es IHes]; constructor; [apply IH|exact IHes].
Qed.

(** Copying a result into the store allocates and fills new objects: the
    objects already there stay as they are, and a result that is an object
    is a new one. *)
Lemma materialize_frame t : ∀ h v h',
  materialize t h = (v, h') →
  (∀ l, is_Some (h !! l) → h' !! l = h !! l)
  ∧ (∀ l, v = VRef l → h !! l = None).
Proof.
  induction t as [| |b|n|s|ps Hps|es Hes] using tree_ind_nested; intros h v h';
    try (intros [= <- <-]; by split).
  - cbn [materialize]. destruct (alloc h empty_object) as [l0 h0] eqn:E.
    intros [= <- <-]. pose proof (alloc_inv _ _ _ _ E) as [Hf ->].
    split; [|by intros l [= <-]].
    assert (Inv : ∀ l, is_Some (h !! l) → <[l0:=empty_object]> h !! l = h !! l).
    { intros l Hl. apply (alloc_lookup_old _ _ _ _ _ E Hl). }
    revert Inv. generalize (<[l0:=empty_object]> h) as h1.
    induction Hps as [|[k t'] ps Ht' _ IH']; intros h1 Inv l Hl; [by apply Inv|].
    destruct (materialize t' h1) as [v h2] eqn:E2. apply IH'; [|done]. intros l1 Hl1.
    destruct (Ht' _ _ _ E2) as [F _].
    rewrite assign_lookup_ne by (intros ->; rewrite Hf in Hl1; by destruct Hl1).
    rewrite F by (by rewrite Inv). by apply Inv.
  - cbn [materialize]. destruct (alloc h empty_array) as [l0 h0] eqn:E.
    intros [= <- <-]. pose proof (alloc_inv _ _ _ _ E) as [Hf ->].
    split; [|by intros l [= <-]].
    assert (Inv : ∀ l, is_Some (h !! l) → <[l0:=empty_array]> h !! l = h !! l).
    { intros l Hl. apply (alloc_lookup_old _ _ _ _ _ E Hl). }
    revert Inv. generalize (<[l0:=empty_array]> h) as h1.
    induction Hes as [|t' es Ht' _ IH']; intros h1 Inv l Hl; [by apply Inv|].
    destruct (materialize t' h1) as [v h2] eqn:E2. apply IH'; [|done]. intros l1 Hl1.
    destruct (Ht' _ _ _ E2) as [F _].
    assert (Hne : l1 ≠ l0) by (intros ->; rewrite Hf in Hl1; by destruct Hl1).
    destruct (h2 !! l0); [rewrite lookup_insert_ne by done|];
      (rewrite F by (by rewrite Inv)); by apply Inv.
Qed.

(** X10: a transform the isolate evaluates successfully replaces the data
    of the child submission by a copy of the result, a new object that
    shares nothing with the store, and marks the request as transformed;
    every other object, and every other property of the child, is as it
    was, and the only call logged is the evaluation. *)
Theorem successful_transform_replaces_the_data s l w t :
  let h := w_heap w in
  let subject := if truthy (saved_item h (w_res w)) then saved_item h (w_res w)
                 else body (w_req w) in
  let script := script_text (setting (transform s)) in
  let d := get_prop h (VRef l) "data" in
  configured (transform s) = true →
  is_Some (h !! l) →
  evaluate script h subject d = Ok t →
  ∃ h',
    transform_data' s (VRef l) w
    = (Ok tt, mkWorld h' (set_isTransformedData true (w_req w)) (w_res w) (w_cache w)
                      (EvEvaluate script subject d :: w_log w))
    ∧ get_prop h' (VRef l) "data" = (materialize t h).1
    ∧ (∀ l', (materialize t h).1 = VRef l' → h !! l' = None)
    ∧ (∀ l', l' ≠ l → is_Some (h !! l') → h' !! l' = h !! l')
    ∧ (∀ k, k ≠ "data" → prop_lookup h' l k = prop_lookup h l k).
Proof.
  intros h subject script d C Hl E. unfold transform_data. rewrite C.
  unfold bind at 1, getRes at 1. unfold bind at 1, getReq at 1.
  unfold bind at 1, getHeap at 1. unfold try_catch.
  rewrite (bind_ok _ _ _ _ _ (read_prop_ok (VRef l) _ _ eq_refl)).
  unfold bind at 1, emit at 1. fold h subject script d. rewrite E.
  unfold bind at 1, getHeap at 1. cbn [w_heap logged]. fold h.
  destruct (materialize t h) as [newData h1] eqn:M.
  destruct (materialize_frame _ _ _ _ M) as [F N].
  unfold bind at 1, putHeap at 1. unfold write_prop.
  unfold bind at 1. unfold bind at 1, getHeap at 1. unfold putHeap at 1.
  unfold bind, getReq, putReq.
  cbn [w_heap w_req w_res w_cache w_log with_heap with_req logged].
  assert (Hl1 : is_Some (h1 !! l)) by by rewrite F.
  exists (assign h1 l "data" newData). split; [reflexivity|]. cbn [fst].
  split; [|split; [|split]].
  - by apply get_prop_assign_eq.
  - exact N.
  - intros l' Hne Hl'. rewrite assign_lookup_ne by done. by apply F.
  - intros k Hk. rewrite prop_lookup_assign_ne by done. unfold prop_lookup.
    by rewrite F.
Qed.

(** ** The property write *)

(** The record is pushed on [target]; nothing else that exists changes. *)
Lemma link_push_frame s (res : Res) target w r w' l0 :
  (h <- getHeap ;;
   iid <- read_prop (saved_item h res) "_id" ;;
   id <- toString refToString iid ;;
   rec <- new (external_record s id) ;;
   array_push target rec) w = (r, w') →
  is_Some (w_heap w !! l0) →
  VRef l0 ≠ target →
  w_heap w' !! l0 = w_heap w !! l0.
Proof.
  intros H Hl0 Hne. revert H. unfold bind at 1, getHeap at 1.
  unfold read_prop at 1. destruct (nullish _); [by intros [= <- <-]|].
  unfold bind at 1. unfold bind at 1, getHeap at 1, ret at 1.
  unfold toString at 1. destruct (nullish _); [by intros [= <- <-]|].
  unfold bind at 1. unfold bind at 1, getHeap at 1, ret at 1.
  unfold bind at 1, new at 1. destruct (alloc _ _) as [lr h4] eqn:E4.
  pose proof (alloc_lookup_old _ _ _ _ l0 E4 Hl0) as F4.
  unfold array_push. destruct target as [| | | | |lt]; try (by intros [= <- <-]).
  unfold bind at 1, getHeap at 1. cbn [w_heap with_heap].
  destruct (h4 !! lt) as [o|]; [|by intros [= <- <-]].
  destruct (o_len o); [|by intros [= <- <-]].
  intros [= <- <-]. cbn [w_heap with_heap].
  rewrite lookup_insert_ne; [done|]. by intros ->.
Qed.

(** The link step changes the body, the array of external ids and nothing
    else that exists. *)
Lemma link_external_frame s w r w' lb l0 :
  body (w_req w) = VRef lb →
  is_Some (w_heap w !! lb) →
  link_external refToString s w = (r, w') →
  is_Some (w_heap w !! l0) →
  l0 ≠ lb →
  VRef l0 ≠ get_prop (w_heap w) (VRef lb) "externalIds" →
  w_heap w' !! l0 = w_heap w !! l0.
Proof.
  intros Hb Hlb H Hl0 Hne Hids. revert H. unfold link_external.
  unfold bind at 1, getReq at 1. unfold bind at 1, getRes at 1.
  unfold bind at 1, getHeap at 1. destruct (_ && _); [|by intros [= <- <-]].
  rewrite Hb. rewrite (bind_ok _ _ _ _ _ (read_prop_ok (VRef lb) _ _ eq_refl)).
  assert (Tail : ∀ h2 arr,
    is_Some (h2 !! lb) → h2 !! l0 = w_heap w !! l0 → VRef l0 ≠ arr →
    (write_prop (VRef lb) "externalIds" arr ;;;
     target <- read_prop (VRef lb) "externalIds" ;;
     h <- getHeap ;;
     iid <- read_prop (saved_item h (w_res w)) "_id" ;;
     id <- toString refToString iid ;;
     rec <- new (external_record s id) ;;
     array_push target rec) (with_heap h2 w) = (r, w') →
    w_heap w' !! l0 = w_heap w !! l0).
  { intros h2 arr Hlb2 H2 Harr. unfold write_prop. unfold bind at 1.
    unfold bind at 1, getHeap at 1. unfold putHeap at 1. cbn [w_heap with_heap].
    rewrite (bind_ok _ _ _ _ _ (read_prop_ok (VRef lb) _ _ eq_refl)).
    cbn [w_heap with_heap]. rewrite get_prop_assign_eq by done.
    intros H%(link_push_frame _ _ _ _ _ _ l0); cbn [w_heap with_heap] in *.
    - by rewrite H, assign_lookup_ne.
    - rewrite assign_lookup_ne by done. by rewrite H2.
    - done. }
  destruct (truthy (get_prop (w_heap w) (VRef lb) "externalIds")).
  - unfold bind at 1, ret at 1. intros H. apply (Tail (w_heap w) _ Hlb eq_refl Hids).
    by rewrite with_heap_same.
  - unfold bind at 1, new at 1. destruct (alloc _ _) as [la h2] eqn:E2.
    apply Tail.
    + by rewrite (alloc_lookup_old _ _ _ _ _ E2).
    + by apply (alloc_lookup_old _ _ _ _ _ E2).
    + intros [= ->]. apply alloc_inv in E2 as [E2 _]. rewrite E2 in Hl0. by destruct Hl0.
Qed.


(** ** The update of a linked child *)

Lemma bind_inv {A B} (m : M A) (f : A -> M B) w v w' :
  (x <- m ;; f x) w = (Ok v, w') → ∃ a w1, m w = (Ok a, w1) ∧ f a w1 = (Ok v, w').
Proof. unfold bind. destruct (m w) as [[a|e] w1]; [by eexists _, _|done]. Qed.

(** [updateSubmission] returns the submission it was given. *)
Lemma updateSubmission_returns s sub w v w' :
  truthy sub = true → updateSubmission' s sub w = (Ok v, w') → v = sub.
Proof.
  intros T. unfold updateSubmission. rewrite T. unfold bind at 1, ret at 1.
  intros (d & w1 & _ & H)%bind_inv. apply bind_inv in H as (d' & w2 & _ & H).
  apply bind_inv in H as ([] & w3 & _ & H). apply bind_inv in H as ([] & w4 & _ & H).
  apply bind_inv in H as ([] & w5 & _ & H). by injection H as <- _.
Qed.

(** [_.find] returns the first element that matches. *)
Lemma find_first {A} (f : A -> bool) (l : list A) x :
  List.find f l = Some x →
  f x = true
  ∧ ∃ before after, l = before ++ x :: after ∧ forallb (λ y, negb (f y)) before = true.
Proof.
  induction l as [|y l IH]; [done|]. cbn [List.find]. destruct (f y) eqn:E.
  - intros [= <-]. split; [done|]. by exists [], l.
  - intros H. destruct (IH H) as (M & before & after & E' & F). split; [done|].
    exists (y :: before), after. split; [by rewrite E'|]. cbn [forallb]. by rewrite E.
Qed.

Lemma find_external_first h c r :
  truthy (find_external h c r) = true →
  matches_external h r (find_external h c r) = true
  ∧ ∃ before after,
      elements h c = before ++ find_external h c r :: after
      ∧ forallb (λ el, negb (matches_external h r el)) before = true.
Proof.
  unfold find_external.
  destruct (List.find (matches_external h r) (elements h c)) as [el|] eqn:E; [|done].
  intros _. by apply find_first.
Qed.

(** X12: a PUT whose stored primary submission is linked to a child of
    [settings.resource] updates that child.  The link is the first record
    of [externalIds] with the type [resource] and the resource
    [settings.resource]; the child is loaded by that resource and the
    [id] of the record; the loaded child itself is brought up to date and
    cached, to become the body of the child request.  An error raised while
    it is brought up to date is logged as [ESUBLOAD] and handed on. *)
Theorem update_targets_the_linked_child s w cur h1 sub h2 :
  let b := body (w_req w) in
  let bid := get_prop (w_heap w) b "_id" in
  let bform := get_prop (w_heap w) b "form" in
  let r := setting_value (resource s) in
  let ids := get_prop h1 cur "externalIds" in
  let external := find_external h1 ids r in
  let w2 := mkWorld h2 (w_req w) (w_res w) (w_cache w)
              (EvLoadSubmission r (get_prop h1 external "id")
               :: EvLoadSubmission bform bid :: w_log w) in
  method (w_req w) = "PUT" →
  nullish b = false →
  live (w_heap w) b = true →
  truthy bid = true →
  truthy bform = true →
  cache_loadSubmission (w_req w) bform bid (w_heap (new_submission w).2) = (Ok cur, h1) →
  nullish cur = false →
  truthy external = true →
  cache_loadSubmission (w_req w) r (get_prop h1 external "id") h1 = (Ok sub, h2) →
  truthy sub = true →
  (∃ before after,
     elements h1 ids = before ++ external :: after
     ∧ forallb (λ el, negb (matches_external h1 r el)) before = true)
  ∧ get_prop h1 external "type" = VStr "resource"
  ∧ get_prop h1 external "resource" = r
  ∧ match updateSubmission' s sub w2 with
    | (Ok v, w3) =>
        v = sub
        ∧ loadSubmission' s w
          = (Ok None, with_cache (mkCache (c_resource (w_cache w3)) sub) w3)
    | (Thrown err, w3) =>
        loadSubmission' s w = (Ok (Some err), logged (EvLog (Some ESUBLOAD) err) w3)
    end.
Proof.
  intros b bid bform r ids external w2 Hm Hn Hl Hid Hform L1 Hcur Hext L2 Hsub.
  destruct (find_external_first _ _ _ Hext) as (M & Hfirst). fold external in M, Hfirst.
  split; [exact Hfirst|].
  unfold matches_external in M. apply andb_prop in M as [M M3].
  apply andb_prop in M as [_ M2].
  apply bool_decide_eq_true in M2, M3. split; [exact M2|]. split; [exact M3|].
  pose proof (loadSubmission_put_loads s w Hm Hn Hl Hid Hform) as P.
  destruct (new_submission_spec w) as (l & h0 & E & _).
  rewrite E in L1, P. cbn [snd w_heap with_heap] in L1, P. fold b bid bform in P.
  assert (Q : loadSubmission' s w
    = try_catch (v <- updateSubmission' s sub ;; put_submission v ;;; ret None)
                (λ err, emit (EvLog (Some ESUBLOAD) err) ;;; ret (Some err)) w2).
  { rewrite P. unfold try_catch, load_linked.
    unfold bind at 1, getReq at 1. unfold bind at 1, emit at 1.
    cbn [w_req with_heap].
    erewrite bind_ok; [|by apply await_run; cbn [w_heap logged with_heap]; apply L1].
    rewrite (bind_ok _ _ _ _ _ (read_prop_ok _ _ _ Hcur)).
    unfold bind at 1, getHeap at 1. cbn [w_heap with_heap logged].
    fold r ids external. rewrite Hext. cbn [negb].
    rewrite (bind_ok _ _ _ _ _ (read_prop_ok _ _ _ (truthy_not_nullish _ Hext))).
    cbn [w_heap with_heap logged]. unfold bind at 1, emit at 1.
    erewrite bind_ok; [|by apply await_run; cbn [w_heap logged with_heap]; apply L2].
    rewrite Hsub. reflexivity. }
  destruct (updateSubmission' s sub w2) as [[v|err] w3] eqn:U.
  - pose proof (updateSubmission_returns _ _ _ _ _ Hsub U) as ->. split; [done|].
    rewrite Q. unfold try_catch. by rewrite (bind_ok _ _ _ _ _ U).
  - rewrite Q. unfold try_catch. by rewrite (bind_thrown _ _ _ _ _ U).
Qed.

(** ** The answer of the handler *)

(** X13: the link stage runs exactly when the resource handler answers
    without an error, and then on the store and the response the handler
    left.  An error the handler reports is the result of the second series,
    which hands it to [next], and an exception the handler raises leaves
    the series as that exception; in both cases the state is the one the
    handler left: no property of the primary body is written and no
    external id is recorded. *)
Theorem handler_answer_decides_the_link s w childReq handle r h' res' :
  let resource' := c_resource (w_cache w) in
  let body' := c_submission (w_cache w) in
  let m := toLowerCase (method (w_req w)) in
  let u := if String.eqb m "put" then "/form/:formId/submission/:submissionId"
           else "/form/:formId/submission" in
  let fid := stringify refToString (w_heap w) (get_prop (w_heap w) resource' "_id") in
  let child :=
    routed (if String.eqb m "put"
            then with_submission (as_child childReq body' fid)
                                 (get_prop (w_heap w) body' "_id")
            else as_child childReq body' fid) u m in
  let w1 := with_res res' (with_heap h' (logged (EvDispatch u m child) w)) in
  truthy body' = true →
  createSubRequest (w_req w) = Some childReq →
  nullish resource' = false →
  nullish (get_prop (w_heap w) resource' "_id") = false →
  (String.eqb m "put" = true → truthy (get_prop (w_heap w) body' "_id") = true) →
  resourcejs u m = Some handle →
  handle child (w_res w) (w_heap w) = (r, (h', res')) →
  save_and_assign' s w
  = match r with
    | Ok None => assignResource' s w1
    | Ok (Some err) => (Ok (Some err), w1)
    | Thrown e => (Thrown e, w1)
    end.
Proof.
  intros resource' body' m u fid child w1 Hb Hc Hr Hi Hput Hh Hrun.
  pose proof (saveToResource_cloned _ _ _ _ Hb Hc Hr Hi) as S1.
  cbv zeta in S1. fold resource' body' m fid in S1.
  assert (S2 : saveToResource' resource' body' w = (r, w1)).
  { rewrite S1. subst w1 child u. destruct (String.eqb m "put") eqn:Em.
    - rewrite (Hput eq_refl). unfold dispatch. rewrite Hh.
      unfold bind, emit, call_handler. cbn [w_res w_heap logged]. by rewrite Hrun.
    - unfold dispatch. rewrite Hh.
      unfold bind, emit, call_handler. cbn [w_res w_heap logged]. by rewrite Hrun. }
  unfold save_and_assign. unfold bind at 1, getCache at 1. fold resource' body'.
  unfold bind. rewrite S2. by destruct r as [[err|]|e].
Qed.

(** ** A transform that throws *)

Lemma same_child_refl w : same_child w w.
Proof. reflexivity. Qed.

Lemma same_child_trans w1 w2 w3 : same_child w1 w2 → same_child w2 w3 → same_child w1 w3.
Proof. unfold same_child. by intros -> ->. Qed.

Lemma same_child_heap w h : same_child w (with_heap h w).
Proof. reflexivity. Qed.

Lemma loadResource_same_child s : keeps same_child (loadResource cache_loadForm s).
Proof.
  intros w r w'. unfold loadResource. unfold bind at 1, getReq at 1. unfold try_catch.
  unfold bind at 1, emit at 1. unfold bind at 1, await at 1. cbn [w_heap logged].
  destruct (cache_loadForm _ _ _ _) as [[f|err] h]; by intros [= <- <-].
Qed.

(** The transform stage when the isolate throws: the call and the error
    are logged, and that is all. *)
Lemma transform_data_thrown s v w err :
  configured (transform s) = true →
  nullish v = false →
  evaluate (script_text (setting (transform s))) (w_heap w) (transform_subject w)
           (get_prop (w_heap w) v "data") = Thrown err →
  transform_data' s v w
  = (Ok tt, logged (EvDebug err)
              (logged (EvEvaluate (script_text (setting (transform s)))
                         (transform_subject w) (get_prop (w_heap w) v "data")) w)).
Proof.
  intros C Hv E. unfold transform_data. rewrite C.
  unfold bind at 1, getRes at 1. unfold bind at 1, getReq at 1.
  unfold bind at 1, getHeap at 1. unfold try_catch.
  rewrite (bind_ok _ _ _ _ _ (read_prop_ok _ _ _ Hv)).
  unfold bind at 1, emit at 1. fold (transform_subject w). by rewrite E.
Qed.

(** The update of the child is the update without the transform, and then
    the transform. *)
Lemma updateSubmission_split s sub w :
  updateSubmission' s sub w
  = match updateSubmission' (without_transform s) sub w with
    | (Ok v, wu) => (transform_data' s v ;;; ret v) wu
    | (Thrown e, wu) => (Thrown e, wu)
    end.
Proof.
  unfold updateSubmission. cbn [without_transform fields].
  unfold bind at 1 7.
  destruct ((if truthy sub then ret sub else new empty_object) w) as [[v|e] w1]; [|done].
  unfold bind at 1 6. destruct (read_prop v "data" w1) as [[d|e] w2]; [|done].
  unfold bind at 1 5.
  destruct ((if truthy d then ret d else new empty_object) w2) as [[d'|e] w3]; [|done].
  unfold bind at 1 4. destruct (write_prop v "data" d' w3) as [[[]|e] w4]; [|done].
  unfold bind at 1 3. destruct (each_field castPath v (fields s) w4) as [[[]|e] w5]; [|done].
  unfold transform_data at 2. cbn [without_transform transform configured].
  reflexivity.
Qed.

Section Thrown.
Variable s : Settings.
Hypothesis transform_configured : configured (transform s) = true.

Local Abbreviation follows' := (follows evaluate s).

Lemma follows_ret e : follows' (ret e) (ret e).
Proof. intros w w2 err [= _ <-] F T. by rewrite F in T. Qed.

Lemma follows_bind {A} (m : M A) (f0 f : A -> M (option error)) :
  keeps same_child m → (∀ a, follows' (f0 a) (f a)) → follows' (bind m f0) (bind m f).
Proof.
  intros Hm Hf w w2 err. unfold bind. destruct (m w) as [[a|e] w1] eqn:E; [|done].
  intros H F. apply Hf; [done|]. by rewrite (Hm _ _ _ E).
Qed.

Lemma follows_try_catch (m0 m : M (option error)) (f : error -> M (option error)) :
  follows' m0 m → (∀ e w, (f e w).1 ≠ Ok None) →
  follows' (try_catch m0 f) (try_catch m f).
Proof.
  intros Hm Hf w w2 err. unfold try_catch. destruct (m0 w) as [[a|e] w1] eqn:E.
  - intros [= -> ->] F T X. by rewrite (Hm _ _ _ E F T X).
  - intros H. exfalso. apply (Hf e w1). by rewrite H.
Qed.

(** The update of a child that is then cached. *)
Lemma follows_update sub :
  follows' (v <- updateSubmission' (without_transform s) sub ;; put_submission v ;;; ret None)
           (v <- updateSubmission' s sub ;; put_submission v ;;; ret None).
Proof.
  intros w w2 err. unfold bind at 1.
  destruct (updateSubmission' (without_transform s) sub w) as [[v|e] wu] eqn:U; [|done].
  intros [= <-] _ T X. cbn in T, X.
  unfold bind at 1. rewrite updateSubmission_split, U. unfold bind at 1.
  rewrite (transform_data_thrown _ _ _ err transform_configured (truthy_not_nullish _ T) X).
  reflexivity.
Qed.

Ltac follows_step :=
  lazymatch goal with
  | |- follows _ _ (bind (updateSubmission _ _ _ _) _) (bind (updateSubmission _ _ _ _) _) =>
      apply follows_update
  | |- follows _ _ (bind _ _) (bind _ _) => apply follows_bind; [|intros ?; cbv beta]
  | |- follows _ _ (try_catch _ _) (try_catch _ _) =>
      apply follows_try_catch; [|intros ? ?; discriminate]
  | |- follows _ _ (if ?b then _ else _) (if ?b then _ else _) => destruct b
  | |- follows _ _ (ret _) (ret _) => apply follows_ret
  | |- keeps same_child (emit _) =>
      let H := fresh in intros ? ? ? H; injection H as <- <-; reflexivity
  | |- keeps same_child _ =>
      first [ apply keeps_getReq | apply keeps_getHeap | apply keeps_read_prop
            | apply keeps_await | apply keeps_new_submission ];
      first [exact same_child_refl|exact same_child_trans|exact same_child_heap]
  end.

Lemma follows_load_linked bform bid :
  follows' (load_linked castPath cache_loadSubmission evaluate (without_transform s) bform bid)
           (load_linked castPath cache_loadSubmission evaluate s bform bid).
Proof. unfold load_linked. cbn [without_transform resource]. repeat follows_step. Qed.

Lemma follows_loadSubmission :
  follows' (loadSubmission' (without_transform s)) (loadSubmission' s).
Proof.
  unfold loadSubmission. repeat follows_step. apply follows_load_linked.
Qed.

Lemma follows_load_stages :
  follows' (load_stages' (without_transform s)) (load_stages' s).
Proof.
  unfold load_stages. change (resource (without_transform s)) with (resource s).
  apply follows_bind; [apply loadResource_same_child|].
  intros [e|]; [apply follows_ret|apply follows_loadSubmission].
Qed.
End Thrown.


(** C4: an invocation on which the isolate throws.  [w2] is the state in
    which the first series ends when no transform is configured, with the
    child built and merged.  When the isolate throws [err] on the configured
    script, called in that state with the data of that child, the first
    series with the transform ends without an error and in [w2] itself but
    for the two log entries of the call and of the error: the child's data
    are the merged data, in the same store, and the request is not marked
    as transformed.  The run goes on to the child save: the clone prepared
    for that child goes to the registered handler, and when neither the
    handler nor the link stage has an error, [next] receives none; the
    error of the isolate is in the debug log and nowhere else. *)
Theorem transform_error_is_contained s w w2 err childReq handle h' res' w5 :
  let script := script_text (setting (transform s)) in
  let form := c_resource (w_cache w2) in
  let child := c_submission (w_cache w2) in
  let subject := if truthy (saved_item (w_heap w2) (w_res w2))
                 then saved_item (w_heap w2) (w_res w2) else body (w_req w2) in
  let d := get_prop (w_heap w2) child "data" in
  let w3 := logged (EvDebug err) (logged (EvEvaluate script subject d) w2) in
  let m := toLowerCase (method (w_req w2)) in
  let u := if String.eqb m "put" then "/form/:formId/submission/:submissionId"
           else "/form/:formId/submission" in
  let fid := stringify refToString (w_heap w2) (get_prop (w_heap w2) form "_id") in
  let bid := get_prop (w_heap w2) child "_id" in
  let c :=
    mkReq (toUpperCase m) u child (skipSave childReq) (skipResource childReq)
          (isTransformedData childReq) (Some true) (Some true) (VStr fid)
          (if String.eqb m "put" then bid else subId childReq)
          (mkParams (VStr fid)
             (if String.eqb m "put" then bid else p_submissionId (params childReq)))
          (childRequests childReq) in
  let w4 := with_res res' (with_heap h' (logged (EvDispatch u m c) w3)) in
  skipped (w_req w) = false →
  configured (resource s) = true →
  configured (transform s) = true →
  load_stages' (without_transform s) (entered w) = (Ok None, w2) →
  truthy child = true →
  evaluate script (w_heap w2) subject d = Thrown err →
  load_stages' s (entered w) = (Ok None, w3)
  ∧ (createSubRequest (w_req w2) = Some childReq →
     nullish form = false →
     nullish (get_prop (w_heap w2) form "_id") = false →
     (String.eqb m "put" = true → truthy bid = true) →
     resourcejs u m = Some handle →
     handle c (w_res w2) (w_heap w2) = (Ok None, (h', res')) →
     assignResource' s w4 = (Ok None, w5) →
     resolve' (Some s) w = (Ok None, w5)
     ∧ w_log w5
       = EvDispatch u m c :: EvDebug err :: EvEvaluate script subject d :: w_log w2).
Proof.
  intros script form child subject d w3 m u fid bid c w4 G C Ct L Tc X.
  assert (A : load_stages' s (entered w) = (Ok None, w3)).
  { exact (follows_load_stages s Ct _ _ _ L eq_refl Tc X). }
  split; [exact A|]. intros Hc Hf Hi Hput Hh Ha Hl.
  assert (Ec : c = child_request childReq child fid
                 (if String.eqb m "put" then Some bid else None) u m).
  { subst c. unfold child_request. by destruct (String.eqb m "put"). }
  assert (S1 : saveToResource' form child w3 = (Ok None, w4)).
  { subst w4. rewrite Ec in Ha |- *.
    exact (saveToResource_answer form child w3 childReq handle (Ok None) h' res'
             Tc Hc Hf Hi Hput Hh Ha). }
  split.
  - rewrite (resolve_after_loads _ _ _ _ G C A), after_loads_save by done.
    unfold save_and_assign. unfold bind at 1, getCache at 1.
    change (c_resource (w_cache w3)) with form.
    change (c_submission (w_cache w3)) with child.
    rewrite (bind_ok _ _ _ _ _ S1). exact Hl.
  - apply assignResource_heap_only in Hl as [h ->]. reflexivity.
Qed.

(** ** A PATCH *)

Lemma same_cache_refl w : same_cache w w.
Proof. split; [done|by left]. Qed.

Lemma same_cache_trans w1 w2 w3 : same_cache w1 w2 → same_cache w2 w3 → same_cache w1 w3.
Proof.
  intros [C1 R1] [C2 R2]. split; [by rewrite C2|].
  destruct R1 as [R1|R1], R2 as [R2|R2]; rewrite R2, R1; [by left|by right|by right|].
  right. by destruct (w_req w1).
Qed.

Lemma same_cache_heap w h : same_cache w (with_heap h w).
Proof. split; [done|by left]. Qed.

Lemma same_cache_mark w : same_cache w (with_req (set_isTransformedData true (w_req w)) w).
Proof. split; [done|by right]. Qed.

Lemma same_cache_emit w ev : is_dispatch ev = false → same_cache w (logged ev w).
Proof. intros _. split; [done|by left]. Qed.

(** The form load that resolves. *)
Lemma loadResource_ok s w form h1 :
  cache_loadForm (w_req w) "resource" (setting_value (resource s)) (w_heap w) = (Ok form, h1) →
  loadResource cache_loadForm s w
  = (Ok None,
     with_cache (mkCache form (c_submission (w_cache w)))
       (with_heap h1 (logged (EvLoadForm "resource" (setting_value (resource s))) w))).
Proof.
  intros L. unfold loadResource. unfold bind at 1, getReq at 1. unfold try_catch.
  unfold bind at 1, emit at 1. unfold bind at 1, await at 1. cbn [w_heap logged].
  by rewrite L.
Qed.


End Claims.

(** ** Sample runs of the theorems *)

(** A request two clones deep, under the depth bound 1. *)
Lemma clone_failure_on_sample :
  sample_resolve 1 [] (Some sample_settings) deep_world
  = (Ok (Some (Code EREQRECUR)),
     logged (EvLog (Some EREQRECUR) (Code EREQRECUR)) (loaded [] sample_settings deep_world)).
Proof.
  apply (clone_failure_is_EREQRECUR dotPath (createSubRequest_bounded 1) table_loadForm
           (table_loadSubmission []) (standard_routes "c1") fragment_evaluate objectToString
           sample_settings deep_world (loaded [] sample_settings deep_world));
    vm_compute; reflexivity.
Defined.


(** A POST to an action without settings. *)
Lemma resolve_pass_through_on_sample :
  sample_resolve 5 [] None post_world
  = (Ok None, with_req (set_skipResource false (w_req post_world)) post_world).
Proof.
  apply (resolve_pass_through dotPath (createSubRequest_bounded 5) table_loadForm
           (table_loadSubmission []) (standard_routes "c1") fragment_evaluate objectToString
           None post_world).
  by left.
Defined.

(** A POST goes to the create handler, which stores the child as [c1]. *)
Lemma dispatch_on_sample :
  let w1 := loaded [] sample_settings post_world in
  ∃ child w2,
    sample_save 5 (c_resource (w_cache w1)) (c_submission (w_cache w1)) w1 = (Ok None, w2)
    ∧ w_log w2 = EvDispatch "/form/:formId/submission" "post" child :: w_log w1
    ∧ method child = "POST" ∧ url child = "/form/:formId/submission"
    ∧ body child = c_submission (w_cache w1)
    ∧ formId child = VStr "R"
    ∧ get_prop (w_heap w2) (saved_item (w_heap w2) (w_res w2)) "_id" = VStr "c1".
Proof.
  intros w1.
  destruct (dispatch_or_ENOHANDLER (createSubRequest_bounded 5) (standard_routes "c1")
              objectToString sample_settings w1
              (default (w_req w1) (createSubRequest_bounded 5 (w_req w1))))
    as [H _]; try (vm_compute; reflexivity).
  - intros E. vm_compute in E. discriminate E.
  - eexists _, _. split.
    + apply (H (create_handler "c1")); [reflexivity|vm_compute; reflexivity].
    + repeat split; vm_compute; reflexivity.
Defined.

(** A PUT without an [_id]; a PUT whose stored primary is linked to
    another resource only; a PUT whose linked child is gone. *)
Lemma update_without_link_on_sample :
  (let w := entered put_world_without_id in
   ∃ w', (loadSubmission dotPath (table_loadSubmission table_linked) fragment_evaluate
            sample_settings w).1 = Ok None ∧ w_cache w' = w_cache w)
  ∧ (∃ w', bind (loadSubmission dotPath (table_loadSubmission table_other) fragment_evaluate
                   sample_settings)
                (after_loads (createSubRequest_bounded 5) (standard_routes "c1")
                             objectToString sample_settings) (entered put_world)
           = (Ok None, w'))
  ∧ (∃ w', bind (loadSubmission dotPath (table_loadSubmission table_orphan) fragment_evaluate
                   sample_settings)
                (after_loads (createSubRequest_bounded 5) (standard_routes "c1")
                             objectToString sample_settings) (entered put_world)
           = (Ok None, w')).
Proof.
  split; [|split].
  - destruct (update_without_link_is_noop dotPath (createSubRequest_bounded 5)
                (table_loadSubmission table_linked) (standard_routes "c1") fragment_evaluate
                objectToString sample_settings (entered put_world_without_id))
      as (w' & E & C & _);
      [vm_compute; reflexivity|vm_compute; reflexivity|vm_compute; reflexivity
      |vm_compute; reflexivity| |].
    + left. left. vm_compute. reflexivity.
    + exists w'. split; [vm_compute; reflexivity|exact C].
  - destruct (update_without_link_is_noop dotPath (createSubRequest_bounded 5)
                (table_loadSubmission table_other) (standard_routes "c1") fragment_evaluate
                objectToString sample_settings (entered put_world))
      as (w' & E & _);
      [vm_compute; reflexivity|vm_compute; reflexivity|vm_compute; reflexivity
      |vm_compute; reflexivity| |].
    + right. split; [vm_compute; reflexivity|]. split; [vm_compute; reflexivity|].
      eexists _, _. split; [vm_compute; reflexivity|]. split; [vm_compute; reflexivity|].
      left. vm_compute. reflexivity.
    + by exists w'.
  - destruct (update_without_link_is_noop dotPath (createSubRequest_bounded 5)
                (table_loadSubmission table_orphan) (standard_routes "c1") fragment_evaluate
                objectToString sample_settings (entered put_world))
      as (w' & E & _);
      [vm_compute; reflexivity|vm_compute; reflexivity|vm_compute; reflexivity
      |vm_compute; reflexivity| |].
    + right. split; [vm_compute; reflexivity|]. split; [vm_compute; reflexivity|].
      eexists _, _. split; [vm_compute; reflexivity|]. split; [vm_compute; reflexivity|].
      right. split; [vm_compute; reflexivity|].
      eexists _, _. split; vm_compute; reflexivity.
    + by exists w'.
Defined.

(** The link stage after the child of a POST was saved as [c1]. *)
Lemma link_stage_on_sample :
  let w := saved [] sample_settings post_world in
  let w' := (assignResource objectToString sample_settings w).2 in
  ∃ l, w_heap w !! l = None
       ∧ w_heap w' !! l = Some (external_record sample_settings "c1")
       ∧ elements (w_heap w') (get_prop (w_heap w') sample_body "externalIds") = [VRef l].
Proof.
  intros w w'.
  pose proof (link_stage_appends_once objectToString sample_settings w
                (assignResource objectToString sample_settings w).1 w') as K.
  cbv zeta in K.
  assert (C : String.eqb (method (w_req w)) "POST"
              && truthy (saved_item (w_heap w) (w_res w)) = true)
    by (vm_compute; reflexivity).
  rewrite C in K.
  destruct K as (_ & _ & l & hs & F1 & F2 & F3);
    [vm_compute; reflexivity
    |vm_compute; reflexivity
    |vm_compute; reflexivity
    |intros _; vm_compute; reflexivity
    |intros E; vm_compute in E; discriminate E
    |intros _; vm_compute; reflexivity
    |apply surjective_pairing
    |].
  exists l. split; [exact F1|]. split; [exact F2|exact F3].
Defined.



(** The mapping of [firstName] to [name.name] creates the first [name]
    and writes the second. *)
Lemma merge_field_on_sample :
  ∃ h', merge_field dotPath (VRef 6%positive) "name.name" "firstName" merging_world
        = (Ok tt, with_heap h' merging_world)
        ∧ baseGet h' (VRef 4%positive) ["name"; "name"] = VStr "Joe".
Proof.
  destruct (merge_field_assigns_the_value dotPath (VRef 6%positive) "name.name" "firstName"
              merging_world 4%positive) as (h' & E & G);
    try (vm_compute; reflexivity).
  - vm_compute. discriminate.
  - apply (bool_decide_unpack _). vm_compute. exact I.
  - exists h'. split; [exact E|exact G].
Defined.

(** Why a walk must not write a property twice: in a store that leads
    the key [a.a] back to the object it started from, the second write
    replaces the first, and the value is not found along the key. *)
Lemma cyclic_store_breaks_the_read :
  steps cyclic_heap 1%positive ["a"; "a"] = [(1%positive, "a"); (1%positive, "a")]
  ∧ baseGet (set dotPath cyclic_heap (VRef 1%positive) "a.a" (VStr "v"))
            (VRef 1%positive) ["a"; "a"] = VUndef.
Proof. split; vm_compute; reflexivity. Qed.

(** A POST whose transform reads a name that is not bound: the child is
    saved as it was merged, and linked. *)
Lemma transform_error_on_sample :
  let w2 := loaded [] (without_transform failing_settings) post_world in
  let err := Failure "missing is not defined" in
  ∃ w5,
    sample_loads [] failing_settings (entered post_world)
    = (Ok None,
       logged (EvDebug err)
         (logged (EvEvaluate (script_text "missing;") sample_body
                    (get_prop (w_heap w2) (c_submission (w_cache w2)) "data")) w2))
    ∧ sample_resolve 5 [] (Some failing_settings) post_world = (Ok None, w5)
    ∧ child_data w5 = Some (TObj [("name", TStr "Joe")])
    ∧ isTransformedData (w_req w5) = None
    ∧ external_ids w5 = Some (TArr [record_tree "R" "c1"]).
Proof.
  intros w2 err.
  pose proof (transform_error_is_contained dotPath (createSubRequest_bounded 5) table_loadForm
                (table_loadSubmission []) (standard_routes "c1") fragment_evaluate
                objectToString failing_settings post_world w2 err
                (default (w_req w2) (createSubRequest_bounded 5 (w_req w2)))
                (create_handler "c1")
                (create_handler "c1"
                   (child_request (default (w_req w2) (createSubRequest_bounded 5 (w_req w2)))
                      (c_submission (w_cache w2)) "R" None "/form/:formId/submission" "post")
                   (w_res w2) (w_heap w2)).2.1
                (create_handler "c1"
                   (child_request (default (w_req w2) (createSubRequest_bounded 5 (w_req w2)))
                      (c_submission (w_cache w2)) "R" None "/form/:formId/submission" "post")
                   (w_res w2) (w_heap w2)).2.2
                (sample_resolve 5 [] (Some failing_settings) post_world).2) as K.
  cbv zeta in K.
  destruct K as [A B]; [vm_compute; reflexivity..|].
  destruct B as [R _].
  - vm_compute. reflexivity.
  - vm_compute. reflexivity.
  - vm_compute. reflexivity.
  - intros E. vm_compute in E. discriminate E.
  - reflexivity.
  - vm_compute. reflexivity.
  - vm_compute. reflexivity.
  - exists (sample_resolve 5 [] (Some failing_settings) post_world).2.
    split; [exact A|]. split; [exact R|].
    split; [|split]; vm_compute; reflexivity.
Defined.




(** C5 as stated fails: a POST whose body already has a record for [R]
    ends with two records for [R]. *)
Lemma post_duplicates_existing_record :
  external_ids linked_world = Some (TArr [record_tree "R" "old"])
  ∧ (sample_resolve 5 [] (Some sample_settings) linked_world).1 = Ok None
  ∧ external_ids (sample_resolve 5 [] (Some sample_settings) linked_world).2
    = Some (TArr [record_tree "R" "old"; record_tree "R" "c1"]).
Proof. split; [|split]; vm_compute; reflexivity. Qed.

(** C6 as stated fails: the value mapped from [address] to [addr] is the
    primary's own object, so the second mapping, into [addr.city], rewrites
    the primary's [address.city]. *)
Lemma merge_shares_the_primary_object :
  let w' := (sample_resolve 5 [] (Some sharing_settings) post_world).2 in
  get dotPath sample_heap (VRef 2%positive) "address.city" = VStr "X"
  ∧ get dotPath (w_heap w') (VRef 2%positive) "address.city" = VStr "Joe"
  ∧ get dotPath (w_heap w') (get_prop (w_heap w') (c_submission (w_cache w')) "data") "addr"
    = get_prop (w_heap w') (VRef 2%positive) "address".
Proof. split; [|split]; vm_compute; reflexivity. Qed.

(** C8 as stated fails: without settings a POST is passed on, but the
    request has gained [skipResource = false]. *)
Lemma pass_through_changes_the_request :
  (sample_resolve 5 [] None post_world).1 = Ok None
  ∧ w_req (sample_resolve 5 [] None post_world).2 ≠ w_req post_world.
Proof. split; vm_compute; [reflexivity|discriminate]. Qed.

(** A POST that is saved: the form load, then the dispatch. *)
Lemma form_load_first_on_sample :
  ∃ evs, w_log (sample_resolve 5 [] (Some sample_settings) post_world).2
         = evs ++ EvLoadForm "resource" (VStr "R") :: w_log post_world
         ∧ (length (List.filter is_dispatch evs) <= 1)%nat.
Proof.
  apply (form_load_first_one_dispatch dotPath (createSubRequest_bounded 5) table_loadForm
           (table_loadSubmission []) (standard_routes "c1") fragment_evaluate objectToString
           sample_settings post_world);
    vm_compute; reflexivity.
Defined.

(** The child request of that POST. *)
Lemma dispatched_child_on_sample :
  ∃ c, head (w_log (sample_resolve 5 [] (Some sample_settings) post_world).2)
       = Some (EvDispatch "/form/:formId/submission" "post" c)
       ∧ permissionsChecked c = Some true
       ∧ noResponse c = Some true
       ∧ formId c = VStr "R"
       ∧ method c = "POST".
Proof.
  set (w' := (sample_resolve 5 [] (Some sample_settings) post_world).2).
  assert (∃ c rest, w_log w' = EvDispatch "/form/:formId/submission" "post" c :: rest)
    as (c & rest & E) by (eexists _, _; vm_compute; reflexivity).
  destruct (dispatched_child_is_prepared dotPath (createSubRequest_bounded 5) table_loadForm
              (table_loadSubmission []) (standard_routes "c1") fragment_evaluate
              objectToString sample_settings post_world (w_log w')
              "/form/:formId/submission" "post" c)
    as (_ & _ & _ & _ & _ & clone & _ & P).
  - vm_compute. reflexivity.
  - vm_compute. reflexivity.
  - symmetry. apply app_nil_r.
  - rewrite E. apply elem_of_cons. by left.
  - exists c. rewrite E. split; [reflexivity|]. rewrite P.
    split; [reflexivity|]. split; [reflexivity|]. split; [|reflexivity].
    vm_compute. reflexivity.
Defined.

(** A form cache that rejects the load. *)
Lemma form_load_failure_on_sample :
  resolve dotPath (createSubRequest_bounded 5) rejecting_loadForm (table_loadSubmission [])
          (standard_routes "c1") fragment_evaluate objectToString
          (Some sample_settings) post_world
  = (Ok (Some (Failure "form not found")),
     logged (EvLog None (Failure "form not found"))
       (logged (EvLog (Some EFORMLOAD) (Failure "form not found"))
          (with_heap sample_heap
             (logged (EvLoadForm "resource" (VStr "R")) (entered post_world))))).
Proof.
  apply (form_load_failure_ends_the_run dotPath (createSubRequest_bounded 5)
           rejecting_loadForm (table_loadSubmission []) (standard_routes "c1")
           fragment_evaluate objectToString sample_settings post_world
           (Failure "form not found") sample_heap);
    vm_compute; reflexivity.
Defined.

(** A PUT whose linked child cannot be loaded. *)
Lemma rejected_load_on_sample :
  ∃ w' loads,
    bind (loadSubmission dotPath (guarded_loadSubmission (VStr "R") table_linked)
            fragment_evaluate sample_settings)
         (after_loads (createSubRequest_bounded 5) (standard_routes "c1") objectToString
            sample_settings) (entered put_world)
    = (Ok (Some (Failure "submission not loaded")), w')
    ∧ w_cache w' = w_cache (entered put_world)
    ∧ w_log w' = EvLog None (Failure "submission not loaded")
                 :: EvLog (Some ESUBLOAD) (Failure "submission not loaded")
                 :: loads ++ w_log (entered put_world).
Proof.
  destruct (rejected_load_is_passed_on dotPath (createSubRequest_bounded 5)
              (guarded_loadSubmission (VStr "R") table_linked) (standard_routes "c1")
              fragment_evaluate objectToString sample_settings (entered put_world)
              (Failure "submission not loaded"))
    as (w' & loads & E & C & _ & _ & L & _);
    [vm_compute; reflexivity|vm_compute; reflexivity|vm_compute; reflexivity
    |vm_compute; reflexivity|vm_compute; reflexivity| |].
  - right. eexists _, _. split; [vm_compute; reflexivity|]. split; [vm_compute; reflexivity|].
    split; [vm_compute; reflexivity|]. eexists. vm_compute. reflexivity.
  - exists w', loads. split; [exact E|]. split; [exact C|exact L].
Defined.

(** A PUT whose primary submission is not stored. *)
Lemma missing_primary_on_sample :
  ∃ what w',
    bind (loadSubmission dotPath (table_loadSubmission []) fragment_evaluate sample_settings)
         (after_loads (createSubRequest_bounded 5) (standard_routes "c1") objectToString
            sample_settings) (entered put_world)
    = (Ok (Some (TypeError what)), w')
    ∧ w_cache w' = w_cache (entered put_world).
Proof.
  destruct (missing_primary_is_an_error dotPath (createSubRequest_bounded 5)
              (table_loadSubmission []) (standard_routes "c1") fragment_evaluate
              objectToString sample_settings (entered put_world) VNull
              (w_heap (new_submission (entered put_world)).2))
    as (what & w' & E & C & _); try (vm_compute; reflexivity).
  by exists what, w'.
Defined.


(** Mappings whose keys are [__proto__.polluted] and [constructor]. *)
Lemma merge_forbidden_on_sample :
  let w' := (each_field dotPath (VRef 6%positive) polluting_fields merging_world).2 in
  prop_lookup (w_heap w') 4%positive "__proto__" = None
  ∧ prop_lookup (w_heap w') 4%positive "constructor" = None.
Proof.
  split.
  - etrans; [apply (merge_never_writes_forbidden_keys dotPath); reflexivity|].
    vm_compute. reflexivity.
  - etrans; [apply (merge_never_writes_forbidden_keys dotPath); reflexivity|].
    vm_compute. reflexivity.
Defined.

(** A mapping from a field the primary does not have. *)
Lemma update_without_sources_on_sample :
  updateSubmission dotPath fragment_evaluate absent_settings (VRef 6%positive) merging_world
  = (Ok (VRef 6%positive), merging_world).
Proof.
  apply (update_without_sources_is_identity dotPath fragment_evaluate absent_settings
           (VRef 6%positive) merging_world);
    vm_compute; reflexivity.
Defined.

(** The blank transform, which yields the data of the primary. *)
Lemma successful_transform_on_sample :
  ∃ h', (transform_data fragment_evaluate blank_settings (VRef 6%positive) merging_world).2
        = mkWorld h' (set_isTransformedData true (w_req merging_world))
            (w_res merging_world) (w_cache merging_world)
            [EvEvaluate (script_text " ") sample_body (VRef 4%positive)]
        ∧ snapshot 8 h' (get_prop h' (VRef 6%positive) "data")
          = Some (TObj [("address", TObj [("city", TStr "X")]); ("firstName", TStr "Joe")]).
Proof.
  destruct (successful_transform_replaces_the_data fragment_evaluate blank_settings
              6%positive merging_world
              (TObj [("address", TObj [("city", TStr "X")]); ("firstName", TStr "Joe")]))
    as (h' & E & _); [reflexivity|vm_compute; by eexists|vm_compute; reflexivity|].
  exists h'. rewrite E. split; [reflexivity|].
  assert (H : h' = w_heap (transform_data fragment_evaluate blank_settings (VRef 6%positive)
                             merging_world).2) by (by rewrite E).
  rewrite H. vm_compute. reflexivity.
Defined.


(** A PUT whose stored primary is linked to the child [c1]. *)
Lemma update_targets_on_sample :
  ∃ sub w3,
    loadSubmission dotPath (table_loadSubmission table_linked) fragment_evaluate
      sample_settings (entered put_world)
    = (Ok None, with_cache (mkCache (c_resource (w_cache w3)) sub) w3)
    ∧ child_data (with_cache (mkCache (c_resource (w_cache w3)) sub) w3)
      = Some (TObj [("name", TStr "Joe")]).
Proof.
  edestruct (update_targets_the_linked_child dotPath (table_loadSubmission table_linked)
               fragment_evaluate sample_settings (entered put_world))
    as (_ & _ & _ & H);
    [vm_compute; reflexivity|vm_compute; reflexivity|vm_compute; reflexivity
    |vm_compute; reflexivity|vm_compute; reflexivity|vm_compute; reflexivity
    |vm_compute; reflexivity|vm_compute; reflexivity|vm_compute; reflexivity
    |vm_compute; reflexivity|].
  match type of H with
  | match ?u with _ => _ end => destruct u as [[v|e] w3] eqn:U
  end.
  - destruct H as [-> H]. eexists _, w3. split; [exact H|].
    apply (f_equal snd) in H. cbn [snd] in H. rewrite <- H. vm_compute. reflexivity.
  - exfalso. vm_compute in U. discriminate U.
Defined.

(** A POST whose child the handler refuses. *)
Lemma handler_refusal_on_sample :
  let w := loaded [] sample_settings post_world in
  ∃ w1,
    save_and_assign (createSubRequest_bounded 5) refusing_routes objectToString
      sample_settings w
    = (Ok (Some (Failure "validation failed")), w1)
    ∧ w_heap w1 = w_heap w
    ∧ external_ids w1 = Some TUndef.
Proof.
  intros w.
  pose proof (handler_answer_decides_the_link (createSubRequest_bounded 5) refusing_routes
                objectToString sample_settings w
                (default (w_req w) (createSubRequest_bounded 5 (w_req w)))
                refusing_handler (Ok (Some (Failure "validation failed")))
                (w_heap w) (w_res w)) as K.
  cbv zeta in K. eexists. split; [|split].
  - apply K; [vm_compute; reflexivity|vm_compute; reflexivity|vm_compute; reflexivity
             |vm_compute; reflexivity|intros E; vm_compute in E; discriminate E
             |reflexivity|reflexivity].
  - reflexivity.
  - vm_compute. reflexivity.
Defined.

End Properties.

(** * Properties of the installer *)

Module InstallProperties.
Import Action Install.

Local Arguments String.append !_ _ / : simpl nomatch.

(** ** Strings *)

Lemma append_nil_r s : s +:+ "" = s.
Proof. induction s as [|c s IH]; [done|]. cbn. by rewrite IH. Qed.

Lemma append_assoc s1 s2 s3 : (s1 +:+ s2) +:+ s3 = s1 +:+ (s2 +:+ s3).
Proof. induction s1 as [|c s1 IH]; [done|]. cbn. by rewrite IH. Qed.

Lemma append_eq_nil s1 s2 : s1 +:+ s2 = "" → s1 = "" ∧ s2 = "".
Proof. destruct s1; [done|]. by cbn. Qed.

Lemma every_append p s1 s2 : every p (s1 +:+ s2) = every p s1 && every p s2.
Proof. induction s1 as [|c s1 IH]; [done|]. cbn. by rewrite IH, andb_assoc. Qed.

Lemma count_append c s1 s2 : count c (s1 +:+ s2) = (count c s1 + count c s2)%nat.
Proof. induction s1 as [|c' s1 IH]; [done|]. cbn. rewrite IH. lia. Qed.

Lemma count_every p c s : p c = false → every p s = true → count c s = 0%nat.
Proof.
  intros Hc. induction s as [|c' s IH]; [done|]. cbn. intros [H1 H2]%andb_prop.
  rewrite (IH H2). destruct (Ascii.eqb_spec c' c) as [->|]; [congruence|done].
Qed.

(** ** The matcher reads what the pattern stands for *)

Lemma nullable_matches r : nullable r = true ↔ matches r "".
Proof.
  split.
  - induction r as [| |p|r1 IH1 r2 IH2|r1 IH1 r2 IH2|r IH]; cbn; try done.
    + intros _. constructor.
    + intros [H1 H2]%andb_prop. change "" with ("" +:+ ""). constructor; auto.
    + intros [H|H]%orb_prop; [apply MAltL|apply MAltR]; auto.
    + intros _. constructor.
  - intros H. remember "" as s eqn:E.
    induction H as [|p c Hc|r1 r2 s1 s2 H1 IH1 H2 IH2|r1 r2 s H IH|r1 r2 s H IH
                   |r|r s1 s2 H1 IH1 H2 IH2]; cbn; try done.
    + apply append_eq_nil in E as [-> ->]. by rewrite IH1, IH2.
    + by rewrite IH.
    + rewrite IH by done. apply orb_true_r.
Qed.

(** A repetition that reads [c] first reads it in its first round. *)
Lemma star_cons r c s :
  matches (Star r) (String c s) →
  ∃ s1 s2, s = s1 +:+ s2 ∧ matches r (String c s1) ∧ matches (Star r) s2.
Proof.
  intros H. remember (Star r) as r' eqn:Er. remember (String c s) as s' eqn:Es.
  revert s Es.
  induction H as [|p c' Hc|r1 r2 s1 s2 H1 IH1 H2 IH2|r1 r2 s0 H IH|r1 r2 s0 H IH
                 |r0|r0 s1 s2 H1 IH1 H2 IH2]; intros s Es; try done.
  injection Er as ->. destruct s1 as [|c1 s1].
  - cbn in Es. by apply IH2.
  - cbn in Es. injection Es as -> <-. by exists s1, s2.
Qed.

Lemma derive_matches r : ∀ c s, matches (derive c r) s ↔ matches r (String c s).
Proof.
  induction r as [| |p|r1 IH1 r2 IH2|r1 IH1 r2 IH2|r IH]; intros c s; cbn [derive].
  - split; inversion 1.
  - split; inversion 1.
  - destruct (p c) eqn:Hc; split; inversion 1; subst; try congruence.
    + by constructor.
    + constructor.
  - assert (L : matches (Cat (derive c r1) r2) s → matches (Cat r1 r2) (String c s)).
    { inversion 1 as [| |? ? s1 s2 H1 H2| | | |]; subst.
      apply IH1 in H1. change (String c (s1 +:+ s2)) with (String c s1 +:+ s2).
      by constructor. }
    assert (R : matches (Cat r1 r2) (String c s) →
                matches (Cat (derive c r1) r2) s
                ∨ (nullable r1 = true ∧ matches (derive c r2) s)).
    { inversion 1 as [| |? ? s1 s2 H1 H2 E1 E2| | | |]; subst.
      destruct s1 as [|c1 s1]; cbn in E2.
      - right. subst s2. split; [by apply nullable_matches|by apply IH2].
      - left. injection E2 as -> <-. constructor; [by apply IH1|done]. }
    destruct (nullable r1) eqn:N; split.
    + inversion 1; subst; [by apply L|].
      change (String c s) with ("" +:+ String c s). constructor.
      * by apply nullable_matches.
      * by apply IH2.
    + intros [H|[_ H]]%R; [by apply MAltL|by apply MAltR].
    + apply L.
    + by intros [H|[? _]]%R.
  - split; inversion 1; subst.
    + apply MAltL. by apply IH1.
    + apply MAltR. by apply IH2.
    + apply MAltL. by apply IH1.
    + apply MAltR. by apply IH2.
  - split.
    + inversion 1 as [| |? ? s1 s2 H1 H2| | | |]; subst.
      apply IH in H1. change (String c (s1 +:+ s2)) with (String c s1 +:+ s2).
      by constructor.
    + intros (s1 & s2 & -> & H1 & H2)%star_cons. constructor; [by apply IH|done].
Qed.

Lemma test_matches s : ∀ r, test r s = true ↔ matches r s.
Proof.
  induction s as [|c s IH]; intros r; cbn [test].
  - apply nullable_matches.
  - rewrite IH. apply derive_matches.
Qed.

(** ** The strings of the pattern *)

Lemma matches_star_class p s : matches (Star (Class p)) s ↔ every p s = true.
Proof.
  split.
  - intros H. remember (Star (Class p)) as r eqn:Er.
    induction H as [| | | | | |r0 s1 s2 H1 _ H2 IH2]; try done.
    injection Er as ->. inversion H1; subst. cbn. rewrite IH2 by done.
    by rewrite andb_true_r.
  - induction s as [|c s IH]; [constructor|]. cbn. intros [Hc Hs]%andb_prop.
    change (String c s) with (String c "" +:+ s). constructor; [by constructor|auto].
Qed.

Lemma matches_plus_class p s :
  matches (Plus (Class p)) s ↔ s ≠ "" ∧ every p s = true.
Proof.
  unfold Plus. split.
  - inversion 1 as [| |? ? s1 s2 H1 H2| | | |]; subst. inversion H1; subst.
    apply matches_star_class in H2. cbn. split; [done|]. by rewrite H2, andb_true_r.
  - intros [Hne H]. destruct s as [|c s]; [done|]. cbn in H. apply andb_prop in H as [Hc Hs].
    change (String c s) with (String c "" +:+ s).
    constructor; [by constructor|by apply matches_star_class].
Qed.

Lemma matches_lit c s : matches (Lit c) s ↔ s = String c "".
Proof.
  unfold Lit. split.
  - inversion 1 as [|? c' Hc| | | | |]; subst. by apply Ascii.eqb_eq in Hc as ->.
  - intros ->. constructor. apply Ascii.eqb_refl.
Qed.

Lemma matches_label l : matches label l ↔ is_label l = true.
Proof.
  unfold label, is_label. rewrite matches_plus_class, andb_true_iff, negb_true_iff.
  by rewrite String.eqb_neq.
Qed.

Lemma concat_dotted l ls : String.concat "." (l :: ls) = l +:+ dotted ls.
Proof.
  revert l. induction ls as [|l' ls IH]; intros l.
  - cbn. by rewrite append_nil_r.
  - change (String.concat "." (l :: l' :: ls))
      with (l +:+ "." +:+ String.concat "." (l' :: ls)).
    by rewrite IH.
Qed.

Lemma matches_more_labels s :
  matches (Star (Cat (Lit ".") label)) s
  ↔ ∃ ls, forallb is_label ls = true ∧ s = dotted ls.
Proof.
  split.
  - intros H. remember (Star (Cat (Lit ".") label)) as r eqn:Er.
    induction H as [| | | | |r0|r0 s1 s2 H1 _ H2 IH2]; try done.
    + by exists [].
    + injection Er as ->. destruct (IH2 eq_refl) as (ls & F & ->).
      inversion H1 as [| |? ? d l Hd Hl| | | |]; subst.
      apply matches_lit in Hd as ->. apply matches_label in Hl.
      exists (l :: ls). cbn [forallb dotted]. rewrite Hl, F. split; [done|].
      by rewrite append_assoc.
  - intros (ls & F & ->). induction ls as [|l ls IH]; [constructor|].
    cbn [forallb] in F. apply andb_prop in F as [Hl F]. cbn [dotted].
    rewrite <- append_assoc. constructor; [|by apply IH].
    constructor; [by apply matches_lit|by apply matches_label].
Qed.

Lemma matches_pattern s :
  matches pattern s
  ↔ ∃ local l ls,
      s = local +:+ "@" +:+ l +:+ dotted ls
      ∧ local ≠ "" ∧ every local_char local = true
      ∧ forallb is_label (l :: ls) = true.
Proof.
  unfold pattern. split.
  - inversion 1 as [| |? ? local s1 Hlocal H1| | | |]; subst.
    inversion H1 as [| |? ? at_ s2 Hat H2| | | |]; subst.
    inversion H2 as [| |? ? l s3 Hl H3| | | |]; subst.
    apply matches_plus_class in Hlocal as [Hne He]. apply matches_lit in Hat as ->.
    apply matches_label in Hl. apply matches_more_labels in H3 as (ls & F & ->).
    exists local, l, ls. cbn [forallb]. by rewrite Hl, F.
  - intros (local & l & ls & -> & Hne & He & F). cbn [forallb] in F.
    apply andb_prop in F as [Hl F].
    constructor; [by apply matches_plus_class|].
    change ("@" +:+ l +:+ dotted ls) with (String "@" "" +:+ (l +:+ dotted ls)).
    constructor; [by apply matches_lit|].
    constructor; [by apply matches_label|]. apply matches_more_labels. by exists ls.
Qed.

(** X14: the prompt accepts an address for the root account exactly when
    it is a local part, an [@] and a domain: the local part is one or more
    letters, digits and characters of [.!#$%&*+/=?^_`{|}~-], in any order;
    the domain is one or more labels separated by single dots, each label
    one or more letters, digits and hyphens.  A domain of one label is
    enough, and the empty input is refused with a message of its own. *)
Theorem valid_email_shape input :
  validate_email input = Valid
  ↔ ∃ local labels,
      input = local +:+ "@" +:+ String.concat "." labels
      ∧ local ≠ "" ∧ every local_char local = true
      ∧ labels ≠ [] ∧ forallb is_label labels = true.
Proof.
  unfold validate_email. split.
  - destruct (String.eqb input ""); [done|].
    destruct (test pattern input) eqn:T; [|done]. intros _.
    apply test_matches, matches_pattern in T as (local & l & ls & -> & Hne & He & F).
    exists local, (l :: ls). by rewrite concat_dotted.
  - intros (local & labels & -> & Hne & He & Hl & F).
    destruct labels as [|l ls]; [done|]. rewrite concat_dotted.
    destruct (String.eqb_spec (local +:+ "@" +:+ l +:+ dotted ls) "") as [E|_].
    { apply append_eq_nil in E as [-> _]. done. }
    replace (test pattern (local +:+ "@" +:+ l +:+ dotted ls)) with true; [done|].
    symmetry. apply test_matches, matches_pattern. by exists local, l, ls.
Qed.

Lemma every_weaken (p q : ascii -> bool) s :
  (∀ c, p c = true → q c = true) → every p s = true → every q s = true.
Proof.
  intros H. induction s as [|c s IH]; [done|]. cbn. intros [Hc Hs]%andb_prop.
  by rewrite (H c Hc), IH.
Qed.

Lemma label_local c : label_char c = true → local_char c = true.
Proof.
  unfold label_char, local_char. intros [H|H]%orb_prop; [by rewrite H|].
  apply Ascii.eqb_eq in H as ->. by vm_compute.
Qed.

Lemma dotted_labels ls :
  forallb is_label ls = true →
  every local_char (dotted ls) = true ∧ count "@" (dotted ls) = 0%nat.
Proof.
  induction ls as [|l ls IH]; [done|]. cbn [forallb dotted].
  intros [Hl F]%andb_prop. destruct (IH F) as [E C].
  unfold is_label in Hl. apply andb_prop in Hl as [_ Hl].
  change ("." +:+ l +:+ dotted ls) with (String "." (l +:+ dotted ls)).
  cbn [every count]. rewrite every_append, count_append, E, C.
  rewrite (every_weaken _ _ _ label_local Hl).
  by rewrite (count_every label_char "@" l).
Qed.

(** X15: among the inputs of code units below 256, the strings of this
    model, an address the prompt accepts has exactly one [@], and each of
    its characters is a letter, a digit, the [@] or one of
    [.!#$%&*+/=?^_`{|}~-]: an address with a space, a quote, an ASCII
    apostrophe or a second [@] is refused.  The class of line 334 lists
    the typographic apostrophe U+2019 as well; an input that contains it is
    outside these strings, and nothing is stated about it. *)
Theorem valid_email_characters input :
  validate_email input = Valid →
  count "@" input = 1%nat
  ∧ every (λ c, local_char c || Ascii.eqb c "@") input = true.
Proof.
  unfold validate_email. destruct (String.eqb input ""); [done|].
  destruct (test pattern input) eqn:T; [|done]. intros _.
  apply test_matches, matches_pattern in T as (local & l & ls & -> & Hne & He & F).
  cbn [forallb] in F. apply andb_prop in F as [Hl1 F].
  destruct (dotted_labels ls F) as [E C].
  unfold is_label in Hl1. apply andb_prop in Hl1 as [_ Hl1].
  assert (W : ∀ c, local_char c = true → local_char c || Ascii.eqb c "@" = true).
  { intros c ->. done. }
  change ("@" +:+ l +:+ dotted ls) with (String "@" (l +:+ dotted ls)).
  rewrite count_append, every_append. cbn [count every].
  rewrite count_append, every_append, C.
  rewrite (count_every local_char "@" local) by done.
  rewrite (count_every label_char "@" l) by done.
  rewrite (every_weaken _ _ _ W He).
  rewrite (every_weaken _ _ l W) by (by apply (every_weaken _ _ _ label_local)).
  rewrite (every_weaken _ _ _ W E). done.
Qed.

Lemma lower_is_y s : toLowerCase s = "y" ↔ s = "y" ∨ s = "Y".
Proof.
  split; [|by intros [->| ->]].
  destruct s as [|c [|c' s]]; try done. unfold toLowerCase. cbn [map_chars].
  intros [= E]. revert E.
  destruct c as [[] [] [] [] [] [] [] []]; vm_compute; intros E;
    first [by left | by right | discriminate E].
Qed.

(** X16: the first step goes on only for the answers [y] and [Y]: any
    other answer, [yes] included, ends it with [Installation canceled.],
    and an error of the prompt is handed on.  With [ROOT_EMAIL] set the step
    calls [done()] at once and still prompts, so that [done] is called a
    second time when the prompt answers. *)
Theorem areYouSure_goes_on_for_y ROOT_EMAIL prompted :
  (confirmation prompted = None ↔ prompted = inr "y" ∨ prompted = inr "Y")
  ∧ areYouSure ROOT_EMAIL prompted
    = (if configured ROOT_EMAIL then [None; confirmation prompted]
       else [confirmation prompted]).
Proof.
  split; [|unfold areYouSure; by destruct (configured ROOT_EMAIL)].
  unfold confirmation. destruct prompted as [err|install].
  - split; [done|]. by intros [?|?].
  - destruct (String.eqb_spec (toLowerCase install) "y") as [E|E]; cbn [negb].
    + split; [|done]. intros _. apply lower_is_y in E as [->| ->]; auto.
    + split; [done|]. intros [[= ->]|[= ->]]; by destruct E.
Qed.

(** A download that finds the first [n] responses unusable and fetches
    from the counter [k] on. *)
Lemma downloadProject_retries fetch n : ∀ fuel k,
  (n + k <= 4)%nat →
  (n < fuel)%nat →
  (∀ i, (k <= i < n + k)%nat → ∃ res, fetch i = Some res ∧ unusable res = true) →
  downloadProject fuel fetch k k = downloadProject (fuel - n) fetch (n + k) (n + k).
Proof.
  induction n as [|n IH]; intros fuel k Hk Hf Hbad.
  - by rewrite Nat.sub_0_r.
  - destruct fuel as [|fuel]; [lia|]. cbn [downloadProject].
    destruct (Hbad k) as (res & -> & ->); [lia|].
    replace (3 <? k)%nat with false by (symmetry; apply Nat.ltb_ge; lia).
    rewrite IH; [|lia|lia|intros i Hi; apply Hbad; lia].
    by replace (n + S k)%nat with (S n + k)%nat by lia.
Qed.

(** X17: the download is tried five times and no more.  When the first
    five responses lack the [content-disposition] header or a
    [content-length] that parses to a number other than zero, [done]
    receives [Unable to download project. Please try again.] after the fifth
    fetch; a usable response among the first five is the one streamed to
    the disk, without another fetch, and [done] then receives the last
    error of its body, if any.  When the archive is on the disk already
    nothing is fetched. *)
Theorem download_tries_five_times fuel fetch n :
  (5 <= fuel)%nat →
  (∀ i, (i < n)%nat → ∃ res, fetch i = Some res ∧ unusable res = true) →
  (5 <= n →
   download fuel false fetch
   = Some (Done (Some "Unable to download project. Please try again."), 5%nat))
  ∧ (∀ res, (n <= 4)%nat → fetch n = Some res → unusable res = false →
       download fuel false fetch = Some (receive (body_events res) None, S n))
  ∧ download fuel true fetch = Some (Done None, 0%nat).
Proof.
  intros Hf Hbad. unfold download. split; [|split; [|done]].
  - intros Hn. rewrite (downloadProject_retries fetch 4 fuel 0); [|lia|lia|].
    2:{ intros i Hi. apply Hbad. lia. }
    destruct (fuel - 4)%nat as [|fuel'] eqn:E; [lia|]. cbn [downloadProject Nat.add].
    destruct (Hbad 4%nat) as (res & -> & ->); [lia|]. done.
  - intros res Hn Hres Hu. rewrite (downloadProject_retries fetch n fuel 0); [|lia|lia|].
    2:{ intros i Hi. apply Hbad. lia. }
    destruct (fuel - n)%nat as [|fuel'] eqn:E; [lia|]. cbn [downloadProject].
    rewrite Nat.add_0_r, Hres, Hu. done.
Qed.

(** ** Sample runs *)

(** An address with a domain of two labels. *)
Lemma valid_email_on_sample :
  count "@" "root@example.com" = 1%nat
  ∧ every (λ c, local_char c || Ascii.eqb c "@") "root@example.com" = true.
Proof. apply (valid_email_characters "root@example.com"). vm_compute. reflexivity. Defined.

(** The archive arrives with the third response; it never arrives. *)
Lemma download_on_sample :
  download 5 false flaky_fetch = Some (Done None, 3%nat)
  ∧ download 5 false failing_fetch
    = Some (Done (Some "Unable to download project. Please try again."), 5%nat).
Proof.
  split.
  - destruct (download_tries_five_times 5 flaky_fetch 2) as (_ & H & _); [lia| |].
    + intros [|[|i]] Hi; [by exists error_page|by exists error_page|lia].
    + apply (H archive); [lia|reflexivity|reflexivity].
  - destruct (download_tries_five_times 5 failing_fetch 5) as (H & _); [lia| |].
    + intros i _. by exists error_page.
    + apply H. lia.
Defined.

End InstallProperties.
